(** * neutron.agent.linux.ovs_lib: a shallow embedding and its properties

    The module drives Open vSwitch through the [ovs-vsctl] and [ovs-ofctl]
    command lines.  The embedding below follows
    [neutron/agent/linux/ovs_lib.py] function by function:

    - Python byte strings are [string], with the string methods the module
      uses ([strip], [rstrip], [split], [find], [join], [int]) written out;
    - a flow dictionary (the keyword arguments of a flow call) is an
      association list whose order is
      the dictionary's iteration order, since [_build_flow_expr_str] renders
      the fields in that order;
    - dictionaries that are only looked up ([db_str_to_map]'s result, the
      weights of a deferred bridge) are [gmap]s;
    - flow dictionaries are mutable objects: they live in a store and are
      passed by reference;
    - commands go to [utils.execute], which is outside the module: it is a
      section variable, and every call is recorded in a trace. *)

From Stdlib Require Import ZArith List Ascii String DecimalString Lia Bool.
From Stdlib Require Import Sorted.
From stdpp Require Import gmap strings.

Local Open Scope Z_scope.

(** ** Python string primitives *)

Module Py.

Definition chr_in (c : ascii) (chars : string) : bool :=
  existsb (Ascii.eqb c) (list_ascii_of_string chars).

(** [s.lstrip(chars)] *)
Fixpoint lstrip (chars s : string) : string :=
  match s with
  | EmptyString => EmptyString
  | String c s' => if chr_in c chars then lstrip chars s' else s
  end.

(** [s.rstrip(chars)] *)
Fixpoint rstrip (chars s : string) : string :=
  match s with
  | EmptyString => EmptyString
  | String c s' =>
      match rstrip chars s' with
      | EmptyString => if chr_in c chars then EmptyString
                       else String c EmptyString
      | r => String c r
      end
  end.

(** [s.strip(chars)]: every leading and every trailing character that
    belongs to [chars] is removed. *)
Definition strip (chars s : string) : string := rstrip chars (lstrip chars s).

(** [s.find(sub)], the index of the first occurrence or [-1]. *)
Fixpoint find_from (sub s : string) (i : Z) : Z :=
  if String.prefix sub s then i
  else match s with
       | EmptyString => -1
       | String _ s' => find_from sub s' (i + 1)
       end.

Definition find (sub s : string) : Z := find_from sub s 0.

(** [s.split(sep)] for a non-empty separator: the pieces between the
    non-overlapping occurrences of [sep], scanned from the left.  [skip]
    counts the characters of a separator still to be passed over and
    [acc] holds the current piece, reversed. *)
Fixpoint split_aux (sep : string) (skip : nat) (acc : list ascii)
         (s : string) : list string :=
  match s with
  | EmptyString => [string_of_list_ascii (rev acc)]
  | String c s' =>
      match skip with
      | S k => split_aux sep k acc s'
      | O =>
          if String.prefix sep s
          then string_of_list_ascii (rev acc)
                 :: split_aux sep (Nat.pred (String.length sep)) [] s'
          else split_aux sep O (c :: acc) s'
      end
  end.

Definition split (sep s : string) : list string := split_aux sep O [] s.

(** [sep.join(l)] *)
Definition join (sep : string) (l : list string) : string :=
  String.concat sep l.

(** [str(n)] and ["%d" % n] for an integer. *)
Definition str_of_int (n : Z) : string :=
  NilZero.string_of_int (Z.to_int n).

(** The white space [int] skips: space, tab, LF, VT, FF, CR. *)
Definition whitespace : string :=
  String " " (String "009" (String "010" (String "011"
    (String "012" (String "013" EmptyString))))).

Definition digit_val (c : ascii) : option Z :=
  let n := Z.of_nat (nat_of_ascii c) in
  if (48 <=? n) && (n <=? 57) then Some (n - 48) else None.

Fixpoint digits_val (acc : Z) (s : string) : option Z :=
  match s with
  | EmptyString => Some acc
  | String c s' =>
      match digit_val c with
      | Some d => digits_val (10 * acc + d) s'
      | None => None
      end
  end.

Definition nat_literal (s : string) : option Z :=
  match s with
  | EmptyString => None
  | _ => digits_val 0 s
  end.

(** [int(s)] on a byte string, base 10: surrounding white space is
    dropped, one sign is allowed, at least one digit is required.
    [None] stands for [ValueError]. *)
Definition int_of_str (s : string) : option Z :=
  match strip whitespace s with
  | String "-" d => option_map Z.opp (nat_literal d)
  | String "+" d => nat_literal d
  | t => nat_literal t
  end.

End Py.

(** ** Values, exceptions and flow dictionaries *)

(** The exceptions the module raises or lets through. *)
Inductive exn : Type :=
| InvalidInput (error_message : string)
| TypeError
| KeyError (key : string)
| IndexError
| RuntimeError (msg : string)
| RetryError.

Inductive result (A : Type) : Type :=
| Ok (a : A)
| Raise (e : exn).

Arguments Ok {A} a.
Arguments Raise {A} e.

Definition is_ok {A} (r : result A) : bool :=
  match r with Ok _ => true | Raise _ => false end.

(** The values callers put in a flow dictionary: byte strings
    ([actions="normal"], [proto="arp"]) and integers ([priority=2]). *)
Inductive pyval : Type :=
| PStr (s : string)
| PInt (n : Z).

(** [str(v)], which is also what ["%s" % v] inserts. *)
Definition str (v : pyval) : string :=
  match v with
  | PStr s => s
  | PInt n => Py.str_of_int n
  end.

(** A flow dictionary.  The list order is the iteration order of the
    Python dictionary; a key occurs once. *)
Definition pydict : Type := list (string * pyval).

Module Dict.

(** [k in d] *)
Definition contains (k : string) (d : pydict) : bool :=
  existsb (fun kv => String.eqb k (fst kv)) d.

Fixpoint get (k : string) (d : pydict) : option pyval :=
  match d with
  | [] => None
  | (k', v) :: d' => if String.eqb k k' then Some v else get k d'
  end.

(** Deleting a key leaves the other items in their order. *)
Definition remove (k : string) (d : pydict) : pydict :=
  List.filter (fun kv => negb (String.eqb k (fst kv))) d.

(** [d.pop(k, default)] *)
Definition pop_default (k : string) (default : pyval) (d : pydict)
  : pyval * pydict :=
  match get k d with
  | Some v => (v, remove k d)
  | None => (default, d)
  end.

(** [d.pop(k)] *)
Definition pop (k : string) (d : pydict) : result pyval * pydict :=
  match get k d with
  | Some v => (Ok v, remove k d)
  | None => (Raise (KeyError k), d)
  end.

Definition keys (d : pydict) : list string := List.map fst d.

End Dict.

(** [','.join(l)] where [l] may hold a value that is not a string: Python
    raises [TypeError] then. *)
Fixpoint strings_of (l : list pyval) : option (list string) :=
  match l with
  | [] => Some []
  | PStr s :: l' => option_map (cons s) (strings_of l')
  | PInt _ :: _ => None
  end.

Definition join_values (sep : string) (l : list pyval) : result string :=
  match strings_of l with
  | Some ss => Ok (Py.join sep ss)
  | None => Raise TypeError
  end.

(** ** [_build_flow_expr_str] *)

Definition msg_priority : string :=
  "Cannot match priority on flow deletion or modification".

Definition msg_actions : string :=
  "Must specify one or more actions on flow addition or modification".

(** The body of the [for key, value in flow_dict.iteritems()] loop. *)
Definition flow_field (kv : string * pyval) : pyval :=
  if String.eqb (fst kv) "proto" then snd kv
  else PStr (fst kv +:+ "=" +:+ str (snd kv)).

(** The function returns the expression (or raises) together with the
    dictionary as the calls of [pop] have left it. *)
Definition _build_flow_expr_str (flow_dict : pydict) (cmd : string)
  : result string * pydict :=
  let '(flow_expr_arr, flow_dict, priority_error) :=
    if String.eqb cmd "add" then
      let '(hard, d1) := Dict.pop_default "hard_timeout" (PStr "0") flow_dict in
      let '(idle, d2) := Dict.pop_default "idle_timeout" (PStr "0") d1 in
      let '(prio, d3) := Dict.pop_default "priority" (PStr "1") d2 in
      ([PStr ("hard_timeout=" +:+ str hard);
        PStr ("idle_timeout=" +:+ str idle);
        PStr ("priority=" +:+ str prio)], d3, false)
    else ([], flow_dict, Dict.contains "priority" flow_dict) in
  if priority_error then (Raise (InvalidInput msg_priority), flow_dict)
  else
    let rest (actions : option string) (flow_dict : pydict) :=
      let flow_expr_arr := flow_expr_arr ++ List.map flow_field flow_dict in
      let flow_expr_arr :=
        match actions with
        | Some a => flow_expr_arr ++ [PStr a]
        | None => flow_expr_arr
        end in
      (join_values "," flow_expr_arr, flow_dict) in
    if negb (String.eqb cmd "del") then
      if negb (Dict.contains "actions" flow_dict)
      then (Raise (InvalidInput msg_actions), flow_dict)
      else
        match Dict.pop "actions" flow_dict with
        | (Ok a, d4) => rest (Some ("actions=" +:+ str a)) d4
        | (Raise e, d4) => (Raise e, d4)
        end
    else rest None flow_dict.

(** ** The world: executor trace, clock and store *)

(** One call of [utils.execute]. *)
Record call : Type := Call {
  argv : list string;
  helper : string;
  process_input : option string
}.

(** A reference to a flow dictionary in the store. *)
Abbreviation ref := nat (only parsing).

Record world : Type := World {
  trace : list call;        (* the commands run so far, oldest first *)
  now : Z;                  (* the clock, in milliseconds *)
  store : list pydict       (* the flow dictionaries, by reference *)
}.

Definition set_store (sigma : list pydict) (w : world) : world :=
  {| trace := trace w; now := now w; store := sigma |}.

(** [time.sleep(ms / 1000.0)] *)
Definition sleep (ms : Z) (w : world) : world :=
  {| trace := trace w; now := now w + ms; store := store w |}.

(** The dictionary a reference points at. *)
Definition deref (w : world) (r : ref) : pydict :=
  default [] (store w !! r).

(** A new dictionary object, as a call with keyword arguments creates
    one for the callee. *)
Definition alloc (d : pydict) (w : world) : ref * world :=
  (length (store w), set_store (store w ++ [d]) w).

(** Computations that may raise and that change the world. *)
Definition M (A : Type) : Type := world -> result A * world.

Definition ret {A} (a : A) : M A := fun w => (Ok a, w).

Definition raise {A} (e : exn) : M A := fun w => (Raise e, w).

Definition bind {A B} (m : M A) (k : A -> M B) : M B :=
  fun w => match m w with
           | (Ok a, w') => k a w'
           | (Raise e, w') => (Raise e, w')
           end.

Notation "'let*' x ':=' m 'in' k" := (bind m (fun x => k))
  (at level 10, x pattern, m at level 100, k at level 200).

(** [try: m except Exception: handler] *)
Definition try_except {A} (m : M A) (handler : exn -> M A) : M A :=
  fun w => match m w with
           | (Ok a, w') => (Ok a, w')
           | (Raise e, w') => handler e w'
           end.

(** [for x in l: body x] *)
Fixpoint for_each {A} (l : list A) (body : A -> M unit) : M unit :=
  match l with
  | [] => ret tt
  | x :: l' => let* _ := body x in for_each l' body
  end.

(** [[f x for x in l]] *)
Fixpoint map_m {A B} (f : A -> M B) (l : list A) : M (list B) :=
  match l with
  | [] => ret []
  | x :: l' => let* y := f x in let* ys := map_m f l' in ret (y :: ys)
  end.

(** [if x:] on a value that is [None] or a string. *)
Definition truthy (o : option string) : bool :=
  match o with
  | None | Some EmptyString => false
  | Some _ => true
  end.

(** Special return value for an invalid OVS ofport *)
Definition INVALID_OFPORT : string := "-1".

Record OVSBridge : Type := mkOVSBridge {
  br_name : string;
  root_helper : string;
  vsctl_timeout : Z
}.

Record VifPort : Type := mkVifPort {
  port_name : string;
  ofport : option string;
  vif_id : string;
  vif_mac : string;
  switch : OVSBridge
}.

(** A row of [ovs-vsctl --format=json --columns=external_ids,ofport list
    Interface] once [jsonutils.loads] has decoded it: [dict(row[0][1])]
    and [row[1]].  The [ofport] cell is an integer, a boolean, or
    something else ([[]], [["set", []]], a string). *)
Inductive cell : Type :=
| CInt (n : Z)
| CBool (b : bool)
| COther.

Record row : Type := mkRow {
  row_external_ids : list (string * string);
  row_ofport : cell
}.

(** ** [BaseOVS] and [OVSBridge] *)

Section Bridge.

(** [utils.execute] is outside the module.  Given the commands run so
    far and the command to run, it answers with the captured output or
    raises, and takes some time (in milliseconds). *)
Variable execute_oracle : list call -> call -> result string * N.

(** [jsonutils.loads(result)['data']] for the interface listing. *)
Variable loads_data : string -> result (list row).

Definition execute (c : call) : M string :=
  fun w =>
    let '(r, dt) := execute_oracle (trace w) c in
    (r, {| trace := trace w ++ [c];
           now := now w + Z.of_N dt;
           store := store w |}).

Definition vsctl_args (self : OVSBridge) (args : list string) : list string :=
  ["ovs-vsctl"; "--timeout=" +:+ Py.str_of_int (vsctl_timeout self)] ++ args.

Definition vsctl_call (self : OVSBridge) (args : list string) : call :=
  Call (vsctl_args self args) (root_helper self) None.

(** [run_vsctl]: the exception is logged, and raised again only when
    [check_error] is set; otherwise the method returns [None]. *)
Definition run_vsctl (self : OVSBridge) (args : list string)
           (check_error : bool) : M (option string) :=
  let full_args := vsctl_args self args in
  try_except
    (let* out := execute (Call full_args (root_helper self) None) in
     ret (Some out))
    (fun e => if check_error then raise e else ret None).

Definition ofctl_call (self : OVSBridge) (cmd : string) (args : list string)
           (process_input : option string) : call :=
  Call (["ovs-ofctl"; cmd; br_name self] ++ args) (root_helper self)
       process_input.

(** [run_ofctl]: every exception is logged and swallowed. *)
Definition run_ofctl (self : OVSBridge) (cmd : string) (args : list string)
           (process_input : option string) : M (option string) :=
  try_except
    (let* out := execute (ofctl_call self cmd args process_input) in
     ret (Some out))
    (fun _ => ret None).

Definition delete_port (self : OVSBridge) (port_name : string) : M unit :=
  let* _ := run_vsctl self ["--"; "--if-exists"; "del-port"; br_name self;
                            port_name] false in
  ret tt.

Definition db_get_val (self : OVSBridge) (table record column : string)
           (check_error : bool) : M (option string) :=
  let* output := run_vsctl self ["get"; table; record; column] check_error in
  if truthy output
  then ret (option_map (Py.rstrip (String "010" (String "013" ""))) output)
  else ret None.

(** Rendering one rule reads the dictionary behind the reference and
    writes back what the calls of [pop] left of it. *)
Definition build_flow_expr_at (cmd : string) (kw : ref) : M string :=
  fun w =>
    let '(r, d) := _build_flow_expr_str (deref w kw) cmd in
    (r, set_store (<[kw := d]> (store w)) w).

Definition newline : string := String "010" "".

Definition do_action_flows (self : OVSBridge) (action : string)
           (kwargs_list : list ref) : M unit :=
  let* flow_strs := map_m (build_flow_expr_at action) kwargs_list in
  let* _ := run_ofctl self (action +:+ "-flows") ["-"]
                      (Some (Py.join newline flow_strs)) in
  ret tt.

(** [add_flow], [mod_flow] and [delete_flows] receive their keyword
    arguments in a dictionary of their own. *)
Definition add_flow (self : OVSBridge) (kwargs : pydict) : M unit :=
  fun w => let '(r, w1) := alloc kwargs w in do_action_flows self "add" [r] w1.

Definition mod_flow (self : OVSBridge) (kwargs : pydict) : M unit :=
  fun w => let '(r, w1) := alloc kwargs w in do_action_flows self "mod" [r] w1.

Definition delete_flows (self : OVSBridge) (kwargs : pydict) : M unit :=
  fun w => let '(r, w1) := alloc kwargs w in do_action_flows self "del" [r] w1.

(** *** Waiting for the ofport *)

(** [_ofport_result_pending]: [int(result)] raises [TypeError] on [None]
    and [ValueError] on a string that is not an integer literal. *)
Definition _ofport_result_pending (result : option string) : bool :=
  match result with
  | None => true
  | Some s => match Py.int_of_str s with
              | Some _ => false
              | None => true
              end
  end.

Definition wait_exponential_multiplier : Z := 10.
Definition wait_exponential_max : Z := 1000.

(** Modelled from the spec: the [retrying] library is not part of the
    module.  The wait before retry number [k] (counted from 1) starts at
    10 ms and doubles up to the cap of 1000 ms. *)
Definition exponential_sleep (k : nat) : Z :=
  Z.min (wait_exponential_multiplier * 2 ^ Z.of_nat (Nat.pred k))
        wait_exponential_max.

(** Modelled from the spec: the loop of [retrying.retry] with
    [retry_on_result], [stop_max_delay] and exponential waits, and with
    [retry_on_exception] answering [False].  The function is polled; an
    exception of the function is raised again at once; a value that is
    not pending is returned; a pending value is retried after a wait,
    unless the time elapsed since the first attempt exceeds the deadline,
    in which case [RetryError] is raised.  The clock is the world's: it
    moves with the commands the function runs and with the waits.
    [fuel] bounds the number of attempts; [None] is fuel exhaustion. *)
Fixpoint retry_call {A} (fuel : nat) (retry_on_result : A -> bool)
         (stop_max_delay : Z) (fn : M A) (start_time : Z)
         (attempt_number : nat) (w : world) : option (result A * world) :=
  match fuel with
  | O => None
  | S fuel' =>
      match fn w with
      | (Raise e, w1) => Some (Raise e, w1)
      | (Ok v, w1) =>
          if negb (retry_on_result v) then Some (Ok v, w1)
          else
            let delay_since_first_attempt_ms := now w1 - start_time in
            if stop_max_delay <? delay_since_first_attempt_ms
            then Some (Raise RetryError, w1)
            else retry_call fuel' retry_on_result stop_max_delay fn
                            start_time (S attempt_number)
                            (sleep (exponential_sleep attempt_number) w1)
      end
  end.

(** Attempts that are always enough: every wait lasts at least a
    millisecond. *)
Definition retry_fuel (stop_max_delay : Z) : nat :=
  S (S (Z.to_nat stop_max_delay)).

(** [_get_port_ofport], under the [_ofport_retry] decorator. *)
Definition _get_port_ofport (self : OVSBridge) (port_name : string)
  : world -> option (result (option string) * world) :=
  fun w =>
    let stop_max_delay := vsctl_timeout self * 1000 in
    retry_call (retry_fuel stop_max_delay) _ofport_result_pending
               stop_max_delay
               (db_get_val self "Interface" port_name "ofport" false)
               (now w) 1 w.

(** [get_port_ofport]: only [RetryError] is caught. *)
Definition get_port_ofport (self : OVSBridge) (port_name : string)
  : world -> option (result (option string) * world) :=
  fun w =>
    let ofport := Some INVALID_OFPORT in
    match _get_port_ofport self port_name w with
    | None => None
    | Some (Ok v, w1) => Some (Ok v, w1)
    | Some (Raise RetryError, w1) => Some (Ok ofport, w1)
    | Some (Raise e, w1) => Some (Raise e, w1)
    end.

Definition interface_option (kv : string * pyval) : string :=
  fst kv +:+ "=" +:+ str (snd kv).

Definition add_port_args (self : OVSBridge) (port_name : string)
           (interface_options : list (string * pyval)) : list string :=
  let args := ["--"; "--may-exist"; "add-port"; br_name self; port_name] in
  match interface_options with
  | [] => args
  | _ => args ++ ["--"; "set"; "Interface"; port_name]
              ++ List.map interface_option interface_options
  end.

Definition is_invalid_ofport (ofport : option string) : bool :=
  match ofport with
  | Some s => String.eqb s INVALID_OFPORT
  | None => false
  end.

Definition add_port (self : OVSBridge) (port_name : string)
           (interface_options : list (string * pyval))
  : world -> option (result (option string) * world) :=
  fun w =>
    match run_vsctl self (add_port_args self port_name interface_options)
                    false w with
    | (Raise e, w1) => Some (Raise e, w1)
    | (Ok _, w1) =>
        match get_port_ofport self port_name w1 with
        | None => None
        | Some (Raise e, w2) => Some (Raise e, w2)
        | Some (Ok ofport, w2) =>
            if is_invalid_ofport ofport
            then match delete_port self port_name w2 with
                 | (Ok _, w3) => Some (Ok ofport, w3)
                 | (Raise e, w3) => Some (Raise e, w3)
                 end
            else Some (Ok ofport, w2)
        end
    end.

(** *** Reading the database *)

Definition quote : string := String (ascii_of_nat 34) "".

(** The body of the loop of [db_str_to_map]: [arr[0]] and [arr[1]] are
    list indexings, which raise [IndexError] out of range. *)
Definition db_str_to_map_entry (ret : gmap string string) (e : string)
  : result (gmap string string) :=
  if Py.find "=" e =? -1 then Ok ret
  else
    let arr := Py.split "=" e in
    match arr !! 0%nat, arr !! 1%nat with
    | Some k, Some v => Ok (<[k := Py.strip quote v]> ret)
    | _, _ => Raise IndexError
    end.

Fixpoint db_str_to_map_loop (ret : gmap string string) (l : list string)
  : result (gmap string string) :=
  match l with
  | [] => Ok ret
  | e :: l' =>
      match db_str_to_map_entry ret e with
      | Ok ret' => db_str_to_map_loop ret' l'
      | Raise x => Raise x
      end
  end.

Definition db_str_to_map (full_str : string) : result (gmap string string) :=
  let list := Py.split ", " (Py.strip "{}" full_str) in
  db_str_to_map_loop ∅ list.

Definition db_get_map (self : OVSBridge) (table record column : string)
           (check_error : bool) : M (gmap string string) :=
  let* output := run_vsctl self ["get"; table; record; column] check_error in
  match output with
  | Some out =>
      if truthy output
      then fun w => (db_str_to_map
                       (Py.rstrip (String "010" (String "013" "")) out), w)
      else ret ∅
  | None => ret ∅
  end.

Definition get_port_name_list (self : OVSBridge) : M (list string) :=
  let* res := run_vsctl self ["list-ports"; br_name self] true in
  match res with
  | Some out =>
      if truthy res
      then ret (Py.split newline (Py.strip Py.whitespace out))
      else ret []
  | None => ret []
  end.

(** [get_xapi_iface_id]: the exception is logged and raised again. *)
Definition get_xapi_iface_id (self : OVSBridge) (xs_vif_uuid : string)
  : M string :=
  let args := ["xe"; "vif-param-get"; "param-name=other-config";
               "param-key=nicira-iface-id"; "uuid=" +:+ xs_vif_uuid] in
  let* out := execute (Call args (root_helper self) None) in
  ret (Py.strip Py.whitespace out).

(** [d[k]] on a dictionary of strings. *)
Definition getitem (d : gmap string string) (k : string) : M string :=
  match d !! k with
  | Some v => ret v
  | None => raise (KeyError k)
  end.

Definition has_key (d : gmap string string) (k : string) : bool :=
  bool_decide (is_Some (d !! k)).

(** The body of the loop of [get_vif_ports]: the ports found so far,
    extended for the interface [name]. *)
Definition get_vif_ports_step (self : OVSBridge) (edge_ports : list VifPort)
           (name : string) : M (list VifPort) :=
  let* external_ids := db_get_map self "Interface" name "external_ids" true in
  let* ofport := db_get_val self "Interface" name "ofport" true in
  if has_key external_ids "iface-id" && has_key external_ids "attached-mac"
  then
    let* vif_id := getitem external_ids "iface-id" in
    let* vif_mac := getitem external_ids "attached-mac" in
    ret (edge_ports ++ [mkVifPort name ofport vif_id vif_mac self])
  else if has_key external_ids "xs-vif-uuid"
            && has_key external_ids "attached-mac"
  then
    let* uuid := getitem external_ids "xs-vif-uuid" in
    let* iface_id := get_xapi_iface_id self uuid in
    let* vif_mac := getitem external_ids "attached-mac" in
    ret (edge_ports ++ [mkVifPort name ofport iface_id vif_mac self])
  else ret edge_ports.

Fixpoint get_vif_ports_loop (self : OVSBridge) (edge_ports : list VifPort)
         (port_names : list string) : M (list VifPort) :=
  match port_names with
  | [] => ret edge_ports
  | name :: rest =>
      let* edge_ports := get_vif_ports_step self edge_ports name in
      get_vif_ports_loop self edge_ports rest
  end.

Definition get_vif_ports (self : OVSBridge) : M (list VifPort) :=
  let* port_names := get_port_name_list self in
  get_vif_ports_loop self [] port_names.

(** [dict(pairs)]: a later pair overrides an earlier one. *)
Definition dict_of_pairs (pairs : list (string * string))
  : gmap string string :=
  fold_left (fun d kv => <[fst kv := snd kv]> d) pairs ∅.

(** [isinstance(ofport, numbers.Integral)] with the integer the cell
    stands for; a boolean is an integer in Python. *)
Definition integral (c : cell) : option Z :=
  match c with
  | CInt n => Some n
  | CBool b => Some (if b then 1 else 0)
  | COther => None
  end.

(** The body of the loop of [get_vif_port_set]. *)
Definition get_vif_port_set_step (self : OVSBridge) (edge_ports : gset string)
           (row : row) : M (gset string) :=
  let external_ids := dict_of_pairs (row_external_ids row) in
  let ofport := row_ofport row in
  match integral ofport with
  | None => ret edge_ports          (* not yet ready: logged *)
  | Some n =>
      if n <? 1 then ret edge_ports (* failed: logged *)
      else if has_key external_ids "attached-mac" then
        if has_key external_ids "iface-id" then
          let* iface_id := getitem external_ids "iface-id" in
          ret ({[iface_id]} ∪ edge_ports)
        else if has_key external_ids "xs-vif-uuid" then
          let* uuid := getitem external_ids "xs-vif-uuid" in
          let* iface_id := get_xapi_iface_id self uuid in
          ret ({[iface_id]} ∪ edge_ports)
        else ret edge_ports
      else ret edge_ports
  end.

Fixpoint get_vif_port_set_loop (self : OVSBridge) (edge_ports : gset string)
         (rows : list row) : M (gset string) :=
  match rows with
  | [] => ret edge_ports
  | row :: rest =>
      let* edge_ports := get_vif_port_set_step self edge_ports row in
      get_vif_port_set_loop self edge_ports rest
  end.


End Bridge.

(** ** [DeferredOVSBridge] *)

Record DeferredOVSBridge : Type := mkDeferred {
  br : OVSBridge;
  full_ordered : bool;
  order : list string;
  weights : gmap string nat;   (* set by the constructor unless full_ordered *)
  action_flow_tuples : list (string * ref)
}.

Definition set_action_flow_tuples (l : list (string * ref))
           (self : DeferredOVSBridge) : DeferredOVSBridge :=
  {| br := br self; full_ordered := full_ordered self; order := order self;
     weights := weights self; action_flow_tuples := l |}.

(** [enumerate(l)], counting from [i]. *)
Fixpoint enumerate_from {A} (i : nat) (l : list A) : list (nat * A) :=
  match l with
  | [] => []
  | y :: l' => (i, y) :: enumerate_from (S i) l'
  end.

(** [dict((y, x) for x, y in enumerate(order))] *)
Definition weights_of (order : list string) : gmap string nat :=
  fold_left (fun d xy => <[snd xy := fst xy]> d) (enumerate_from 0 order) ∅.

Definition default_order : list string := ["add"; "mod"; "del"].

(** [DeferredOVSBridge.__init__] *)
Definition DeferredOVSBridge_init (br : OVSBridge) (full_ordered : bool)
           (order : list string) : DeferredOVSBridge :=
  {| br := br; full_ordered := full_ordered; order := order;
     weights := if full_ordered then ∅ else weights_of order;
     action_flow_tuples := [] |}.

(** [OVSBridge.deferred()] with no argument. *)
Definition deferred (br : OVSBridge) : DeferredOVSBridge :=
  DeferredOVSBridge_init br false default_order.

(** Methods of the deferred bridge change the object and the world. *)
Definition D (A : Type) : Type :=
  DeferredOVSBridge -> world -> result A * DeferredOVSBridge * world.

(** The three buffering methods: the keyword arguments become a new
    dictionary, and the pair is appended to the buffer. *)
Definition buffer_flow (action : string) (kwargs : pydict) : D unit :=
  fun self w =>
    let '(r, w1) := alloc kwargs w in
    (Ok tt,
     set_action_flow_tuples (action_flow_tuples self ++ [(action, r)]) self,
     w1).

Definition deferred_add_flow : pydict -> D unit := buffer_flow "add".
Definition deferred_mod_flow : pydict -> D unit := buffer_flow "mod".
Definition deferred_delete_flows : pydict -> D unit := buffer_flow "del".

(** [l.sort(key=...)]: the keys are computed first, so an action that is
    not in [weights] raises [KeyError] before anything moves; the sort is
    stable, and a stable sort has one possible outcome. *)
Definition sort_key (weights : gmap string nat) (af : string * ref)
  : result nat :=
  match weights !! fst af with
  | Some x => Ok x
  | None => Raise (KeyError (fst af))
  end.

Fixpoint sort_keys (weights : gmap string nat) (l : list (string * ref))
  : result (list (nat * (string * ref))) :=
  match l with
  | [] => Ok []
  | af :: l' =>
      match sort_key weights af with
      | Raise e => Raise e
      | Ok k => match sort_keys weights l' with
                | Raise e => Raise e
                | Ok ks => Ok ((k, af) :: ks)
                end
      end
  end.

Fixpoint insert_by_key {A} (x : nat * A) (l : list (nat * A))
  : list (nat * A) :=
  match l with
  | [] => [x]
  | y :: l' => if (fst x <=? fst y)%nat then x :: l
               else y :: insert_by_key x l'
  end.

Fixpoint stable_sort {A} (l : list (nat * A)) : list (nat * A) :=
  match l with
  | [] => []
  | x :: l' => insert_by_key x (stable_sort l')
  end.

Definition sort_by_weight (weights : gmap string nat)
           (l : list (string * ref)) : result (list (string * ref)) :=
  match sort_keys weights l with
  | Raise e => Raise e
  | Ok ks => Ok (List.map snd (stable_sort ks))
  end.

(** [itertools.groupby(l, key=operator.itemgetter(0))]: the maximal runs
    of neighbours with the same action. *)
Fixpoint groupby (l : list (string * ref))
  : list (string * list (string * ref)) :=
  match l with
  | [] => []
  | af :: l' =>
      match groupby l' with
      | (k, g) :: gs =>
          if String.eqb (fst af) k then (k, af :: g) :: gs
          else (fst af, [af]) :: (k, g) :: gs
      | [] => [(fst af, [af])]
      end
  end.

Section Deferred.

Variable execute_oracle : list call -> call -> result string * N.

(** The loop over the groups at the end of [apply_flows]. *)
Definition apply_groups (br : OVSBridge)
           (grouped : list (string * list (string * ref))) : M unit :=
  for_each grouped
           (fun '(action, action_flow_list) =>
              let flows := List.map snd action_flow_list in
              do_action_flows execute_oracle br action flows).

Definition apply_flows : D unit :=
  fun self w =>
    let action_flow_tuples := action_flow_tuples self in
    let self := set_action_flow_tuples [] self in
    match action_flow_tuples with
    | [] => (Ok tt, self, w)
    | _ =>
        let sorted :=
          if negb (full_ordered self)
          then sort_by_weight (weights self) action_flow_tuples
          else Ok action_flow_tuples in
        match sorted with
        | Raise e => (Raise e, self, w)
        | Ok action_flow_tuples =>
            let grouped := groupby action_flow_tuples in
            let '(r, w') := apply_groups (br self) grouped w in
            (r, self, w')
        end
    end.

(** [__enter__] returns the object. *)
Definition DeferredOVSBridge_enter : D unit :=
  fun self w => (Ok tt, self, w).

(** [__exit__]: [exc_type] is [None] or the exception that left the
    block.  The method returns [None]. *)
Definition DeferredOVSBridge_exit (exc_type : option exn) : D unit :=
  fun self w =>
    match exc_type with
    | None => apply_flows self w
    | Some _ => (Ok tt, self, w)     (* LOG.exception *)
    end.

(** The [with] statement of Python around a block: [__exit__] gets the
    exception of the block, if any; as [__exit__] returns [None], that
    exception is raised again afterwards, unless [__exit__] raised
    one itself. *)
Definition with_deferred {A} (body : D A) : D A :=
  fun self w =>
    let '(_, self, w) := DeferredOVSBridge_enter self w in
    match body self w with
    | (Ok a, self1, w1) =>
        match DeferredOVSBridge_exit None self1 w1 with
        | (Ok _, self2, w2) => (Ok a, self2, w2)
        | (Raise e, self2, w2) => (Raise e, self2, w2)
        end
    | (Raise e, self1, w1) =>
        match DeferredOVSBridge_exit (Some e) self1 w1 with
        | (Ok _, self2, w2) => (Raise e, self2, w2)
        | (Raise e', self2, w2) => (Raise e', self2, w2)
        end
    end.

End Deferred.

(** ** A caller of the deferred bridge *)

(** One call of a buffering method, with its keyword arguments. *)
Inductive flow_op : Type :=
| AddFlow (kwargs : pydict)
| ModFlow (kwargs : pydict)
| DeleteFlows (kwargs : pydict).

Definition op_action (op : flow_op) : string :=
  match op with
  | AddFlow _ => "add"
  | ModFlow _ => "mod"
  | DeleteFlows _ => "del"
  end.

Definition op_kwargs (op : flow_op) : pydict :=
  match op with
  | AddFlow kw | ModFlow kw | DeleteFlows kw => kw
  end.

Definition submit (op : flow_op) : D unit :=
  match op with
  | AddFlow kw => deferred_add_flow kw
  | ModFlow kw => deferred_mod_flow kw
  | DeleteFlows kw => deferred_delete_flows kw
  end.

(** The calls of [ops], one after the other. *)
Fixpoint submit_all (ops : list flow_op) : D unit :=
  fun self w =>
    match ops with
    | [] => (Ok tt, self, w)
    | op :: ops' =>
        let '(_, self1, w1) := submit op self w in
        submit_all ops' self1 w1
    end.

(** The buffered operations of one kind, in the order of the buffer. *)
Definition of_kind (k : string) (b : list (string * ref))
  : list (string * ref) :=
  List.filter (fun af => String.eqb (fst af) k) b.

(** The groups of a buffer in the order [add], [mod], [del], without the
    kinds that the buffer does not hold. *)
Definition kind_groups (b : list (string * ref))
  : list (string * list (string * ref)) :=
  List.filter (fun g => match snd g with [] => false | _ => true end)
              [("add", of_kind "add" b); ("mod", of_kind "mod" b);
               ("del", of_kind "del" b)].

(** The command line of a batch. *)
Definition batch_argv (br : OVSBridge) (action : string) : list string :=
  ["ovs-ofctl"; action +:+ "-flows"; br_name br; "-"].

(** ** More of [BaseOVS] and [OVSBridge] *)

(** [sub in s] on strings. *)
Definition str_contains (sub s : string) : bool :=
  negb (Py.find sub s =? -1).

(** [s.splitlines()] on a byte string: the lines of [s], cut at LF, CR and
    CR LF, without the line ends; a last line that is empty is not a
    line.  [acc] holds the current line, reversed, and [pending] tells
    whether a line is open. *)
Fixpoint splitlines_aux (acc : list ascii) (pending : bool) (s : string)
  : list string :=
  match s with
  | EmptyString =>
      if pending then [string_of_list_ascii (rev acc)] else []
  | String c s' =>
      if Ascii.eqb c "010" then
        string_of_list_ascii (rev acc) :: splitlines_aux [] false s'
      else if Ascii.eqb c "013" then
        string_of_list_ascii (rev acc)
          :: match s' with
             | String "010" s'' => splitlines_aux [] false s''
             | _ => splitlines_aux [] false s'
             end
      else splitlines_aux (c :: acc) true s'
  end.

Definition splitlines (s : string) : list string := splitlines_aux [] false s.

Section MoreBridge.

Variable execute_oracle : list call -> call -> result string * N.

(** [cfg.CONF.ovs_vsctl_timeout], which a new [BaseOVS] object reads. *)
Variable ovs_vsctl_timeout : Z.

(** [BaseOVS.add_bridge]: the command, then a new bridge object. *)
Definition add_bridge (self : OVSBridge) (bridge_name : string)
  : M OVSBridge :=
  let* _ := run_vsctl execute_oracle self
                      ["--"; "--may-exist"; "add-br"; bridge_name] false in
  ret (mkOVSBridge bridge_name (root_helper self) ovs_vsctl_timeout).

Definition delete_bridge (self : OVSBridge) (bridge_name : string) : M unit :=
  let* _ := run_vsctl execute_oracle self
                      ["--"; "--if-exists"; "del-br"; bridge_name] false in
  ret tt.

(** [bridge_exists]: a [RuntimeError] whose text holds [Exit code: 2] and a
    line feed is the answer "no"; [save_and_reraise_exception] raises any
    other [RuntimeError] again, and other exceptions are not caught. *)
Definition bridge_exists (self : OVSBridge) (bridge_name : string) : M bool :=
  fun w =>
    match run_vsctl execute_oracle self ["br-exists"; bridge_name] true w with
    | (Ok _, w1) => (Ok true, w1)
    | (Raise (RuntimeError msg), w1) =>
        if str_contains ("Exit code: 2" +:+ newline) msg
        then (Ok false, w1)
        else (Raise (RuntimeError msg), w1)
    | (Raise e, w1) => (Raise e, w1)
    end.

(** [get_bridge_name_for_port_name]: with [Exit code: 1] the method falls
    off its end and returns [None]. *)
Definition get_bridge_name_for_port_name (self : OVSBridge)
           (port_name : string) : M (option string) :=
  fun w =>
    match run_vsctl execute_oracle self ["port-to-br"; port_name] true w with
    | (Ok out, w1) => (Ok out, w1)
    | (Raise (RuntimeError msg), w1) =>
        if str_contains ("Exit code: 1" +:+ newline) msg
        then (Ok None, w1)
        else (Raise (RuntimeError msg), w1)
    | (Raise e, w1) => (Raise e, w1)
    end.

Definition port_exists (self : OVSBridge) (port_name : string) : M bool :=
  let* name := get_bridge_name_for_port_name self port_name in
  ret (truthy name).

Definition create (self : OVSBridge) : M unit :=
  let* _ := add_bridge self (br_name self) in ret tt.

Definition destroy (self : OVSBridge) : M unit :=
  delete_bridge self (br_name self).

Definition reset_bridge (self : OVSBridge) : M unit :=
  let* _ := destroy self in create self.

(** [OVSBridge.__enter__] and [OVSBridge.__exit__], which returns [None]
    whatever left the block. *)
Definition OVSBridge_enter (self : OVSBridge) : M OVSBridge :=
  let* _ := create self in ret self.

Definition OVSBridge_exit (self : OVSBridge) (exc_type : option exn)
  : M unit :=
  destroy self.

(** The [with] statement around a block that uses the bridge. *)
Definition with_bridge {A} (self : OVSBridge) (body : OVSBridge -> M A)
  : M A :=
  fun w =>
    match OVSBridge_enter self w with
    | (Raise e, w0) => (Raise e, w0)
    | (Ok br, w0) =>
        match body br w0 with
        | (Ok a, w1) =>
            match OVSBridge_exit self None w1 with
            | (Ok _, w2) => (Ok a, w2)
            | (Raise e, w2) => (Raise e, w2)
            end
        | (Raise e, w1) =>
            match OVSBridge_exit self (Some e) w1 with
            | (Ok _, w2) => (Raise e, w2)
            | (Raise e', w2) => (Raise e', w2)
            end
        end
    end.

(** [count_flows].  [run_ofctl] returns [None] when the command failed,
    and [None.split] raises [AttributeError], which is the [None] of the
    result here. *)
Definition count_flows (self : OVSBridge) : world -> option Z * world :=
  fun w =>
    match run_ofctl execute_oracle self "dump-flows" [] None w with
    | (Ok (Some out), w1) =>
        let flow_list := skipn 1 (Py.split newline out) in
        (Some (Z.of_nat (length flow_list) - 1), w1)
    | (_, w1) => (None, w1)
    end.

Definition remove_all_flows (self : OVSBridge) : M unit :=
  let* _ := run_ofctl execute_oracle self "del-flows" [] None in ret tt.

Definition dump_flows_for_table (self : OVSBridge) (table : pyval)
  : M (option string) :=
  let flow_str := "table=" +:+ str table in
  let* flows := run_ofctl execute_oracle self "dump-flows" [flow_str] None in
  match flows with
  | Some out =>
      if truthy flows
      then ret (Some (Py.join newline
                        (List.filter
                           (fun item => negb (str_contains "NXST" item))
                           (splitlines out))))
      else ret None
  | None => ret None
  end.

(** [delete_ports]: the names are those of all the ports, or those of the
    VIF ports. *)
Definition delete_ports (self : OVSBridge) (all_ports : bool) : M unit :=
  let* port_names :=
    if all_ports then get_port_name_list execute_oracle self
    else let* ports := get_vif_ports execute_oracle self in
         ret (List.map port_name ports) in
  for_each port_names (delete_port execute_oracle self).

(** [get_bridges], a function of the module: the exception is logged and
    raised again. *)
Definition get_bridges (root_helper : string) : M (list string) :=
  let args := ["ovs-vsctl";
               "--timeout=" +:+ Py.str_of_int ovs_vsctl_timeout;
               "list-br"] in
  let* out := execute execute_oracle (Call args root_helper None) in
  ret (Py.split newline (Py.strip Py.whitespace out)).

End MoreBridge.

(** ** Notions used in the statements *)

(** A field of the rule as it appears in the expression. *)
Definition field_token (kv : string * pyval) : string :=
  if String.eqb (fst kv) "proto" then str (snd kv)
  else fst kv +:+ "=" +:+ str (snd kv).

(** The value of [proto], when the rule has one, is a string: [join]
    accepts nothing else. *)
Definition proto_is_str (d : pydict) : Prop :=
  forall v, In ("proto", v) d -> exists s, v = PStr s.

(** The same, as a test. *)
Definition proto_ok (d : pydict) : bool :=
  forallb (fun kv => if String.eqb (fst kv) "proto"
                     then match snd kv with PStr _ => true | PInt _ => false end
                     else true) d.

(** The text of a field of the rule, or of its default. *)
Definition field_or (k dflt : string) (d : pydict) : string :=
  match Dict.get k d with
  | Some v => str v
  | None => dflt
  end.

(** The rule without the keys that [add] consumes. *)
Definition other_fields (d : pydict) : pydict :=
  Dict.remove "actions"
    (Dict.remove "priority"
       (Dict.remove "idle_timeout" (Dict.remove "hard_timeout" d))).

(** The last token of a comma-joined expression is the actions token. *)
Definition actions_last (s : string) (a : pyval) : Prop :=
  List.last (Py.split "," s) "" = "actions=" +:+ str a.

(** What [_build_flow_expr_str] leaves of the dictionary, in every case. *)
Definition consumed (d : pydict) (cmd : string) : pydict :=
  if String.eqb cmd "add" then other_fields d
  else if Dict.contains "priority" d then d
  else if String.eqb cmd "del" then d
  else Dict.remove "actions" d.

(** The weight of a buffered operation under the default order. *)
Definition kind_weight (af : string * ref) : nat :=
  if String.eqb (fst af) "add" then 0
  else if String.eqb (fst af) "mod" then 1 else 2.

(** The actions that the buffering methods record. *)
Definition known_kind (af : string * ref) : Prop :=
  In (fst af) default_order.

(** A buffer with the sort key of each operation. *)
Definition keyed (b : list (string * ref)) : list (nat * (string * ref)) :=
  List.map (fun af => (kind_weight af, af)) b.

(** A block that buffers one addition and then fails. *)
Definition failing_block : D unit :=
  fun self w =>
    let '(_, self1, w1) := deferred_add_flow [("actions", PStr "drop")] self w in
    (Raise (RuntimeError "boom"), self1, w1).

(** The text before and the text after the first occurrence of the
    character [c], when there is one. *)
Fixpoint split_first (c : ascii) (s : string) : option (string * string) :=
  match s with
  | EmptyString => None
  | String a s' =>
      if Ascii.eqb a c then Some (EmptyString, s')
      else match split_first c s' with
           | Some (k, v) => Some (String a k, v)
           | None => None
           end
  end.

(** One surrounding pair of braces, stripped. *)
Definition strip_brace_pair (s : string) : string :=
  match s with
  | String "{" s' =>
      match rev (list_ascii_of_string s') with
      | "}"%char :: r => string_of_list_ascii (rev r)
      | _ => s
      end
  | _ => s
  end.

(** The map of a list of entries: an entry without [=] is skipped, any
    other is split on its first [=] and maps the key to the value without
    the double quotes around it. *)
Definition entries_to_map (entries : list string) : gmap string string :=
  fold_left (fun ret e =>
               match split_first "=" e with
               | Some (k, v) => <[k := Py.strip quote v]> ret
               | None => ret
               end) entries ∅.

(** The decoding as the specification words it: strip a single pair of
    braces, split on [", "], split each entry on the first [=], strip the
    quotes around the values, skip the entries without [=]. *)
Definition db_str_to_map_spec (full_str : string) : gmap string string :=
  entries_to_map (Py.split ", " (strip_brace_pair full_str)).

(** The text of [s] up to its first [=], or all of [s]. *)
Definition up_to_eq (s : string) : string :=
  match split_first "=" s with
  | Some (k, _) => k
  | None => s
  end.

(** An entry with at most one [=]. *)
Definition single_eq (e : string) : bool :=
  match split_first "=" e with
  | Some (_, v) => match split_first "=" v with
                   | Some _ => false
                   | None => true
                   end
  | None => true
  end.

(** What [db_get_val] makes of the answer of the executor when
    [check_error] is off. *)
Definition poll_value (r : result string) : option string :=
  match r with
  | Ok out =>
      if truthy (Some out)
      then Some (Py.rstrip (String "010" (String "013" "")) out)
      else None
  | Raise _ => None
  end.

(** The world after one more command [c] that took [dt] milliseconds. *)
Definition after_call (c : call) (dt : N) (w : world) : world :=
  {| trace := trace w ++ [c]; now := now w + Z.of_N dt; store := store w |}.

(** The two commands of [add_port] and [delete_port]. *)
Definition add_port_call (self : OVSBridge) (port_name : string)
           (interface_options : list (string * pyval)) : call :=
  vsctl_call self (add_port_args self port_name interface_options).

Definition del_port_call (self : OVSBridge) (port_name : string) : call :=
  vsctl_call self ["--"; "--if-exists"; "del-port"; br_name self; port_name].

(** The test that [get_vif_port_set] makes on the ofport of a row. *)
Definition ofport_ready (r : row) : bool :=
  match integral (row_ofport r) with
  | Some n => negb (n <? 1)
  | None => false
  end.

(** The metadata that makes an interface a VIF: a hardware address and an
    attachment identifier, its own or the one of XAPI. *)
Definition vif_metadata (external_ids : gmap string string) : bool :=
  has_key external_ids "attached-mac"
  && (has_key external_ids "iface-id" || has_key external_ids "xs-vif-uuid").

(** A rule that fails validation for the command [cmd]. *)
Definition invalid_rule (cmd : string) (d : pydict) : Prop :=
  (cmd <> "add" /\ Dict.contains "priority" d = true)
  \/ (cmd <> "del" /\ Dict.contains "actions" d = false).

(** The command that reads the ofport of a port, and the time allowed
    for the wait. *)
Definition ofport_call (self : OVSBridge) (port_name : string) : call :=
  vsctl_call self ["get"; "Interface"; port_name; "ofport"].

Definition deadline (self : OVSBridge) : Z := vsctl_timeout self * 1000.

(** The polls of a wait that starts in the world [w]: the [i]-th poll
    (counted from 0) finds [i] polls behind the trace of [w]. *)
Section Polling.

Variable execute_oracle : list call -> call -> result string * N.
Variable self : OVSBridge.
Variable port_name : string.
Variable w : world.

Definition answer (i : nat) : result string * N :=
  execute_oracle (trace w ++ repeat (ofport_call self port_name) i)
                 (ofport_call self port_name).

(** What the [i]-th poll returns. *)
Definition polled (i : nat) : option string := poll_value (fst (answer i)).

(** The time from the start of the wait to the [i]-th poll: the polls
    and the waits before it. *)
Fixpoint before (i : nat) : Z :=
  match i with
  | O => 0
  | S j => before j + Z.of_N (snd (answer j)) + exponential_sleep (S j)
  end.

(** The time from the start of the wait to the end of the [i]-th poll,
    which is what the loop compares with the deadline. *)
Definition elapsed (i : nat) : Z := before i + Z.of_N (snd (answer i)).

Definition state_before (i : nat) : world :=
  {| trace := trace w ++ repeat (ofport_call self port_name) i;
     now := now w + before i;
     store := store w |}.

Definition state_after (i : nat) : world :=
  after_call (ofport_call self port_name) (snd (answer i)) (state_before i).

End Polling.

(** Neighbouring groups have different actions. *)
Fixpoint runs_differ (gs : list (string * list (string * ref))) : Prop :=
  match gs with
  | g1 :: rest =>
      match rest with
      | g2 :: _ => fst g1 <> fst g2
      | [] => True
      end /\ runs_differ rest
  | [] => True
  end.

(** A group is a run: it is not empty and its operations have its
    action. *)
Definition is_run (g : string * list (string * ref)) : Prop :=
  snd g <> [] /\ Forall (fun af => fst af = fst g) (snd g).

(** The weight of a buffered operation whose action has one. *)
Definition weight_of (weights : gmap string nat) (af : string * ref) : nat :=
  default 0%nat (weights !! fst af).

(** The order on the keys of a sort. *)
Definition key_le {A} (x y : nat * A) : Prop := (fst x <= fst y)%nat.

(** What a flow method of [OVSBridge] does with its keyword arguments
    [kwargs] for the command [action]: the dictionaries that exist are
    left alone; when the rule renders, one command is run with the
    rendering as its input; when it does not, the error is raised and no
    command is run. *)
Definition fresh_flow_call (self : OVSBridge) (method : pydict -> M unit)
           (action : string) : Prop :=
  forall kwargs w,
    (forall r, (r < length (store w))%nat ->
               deref (snd (method kwargs w)) r = deref w r)
    /\ match fst (_build_flow_expr_str kwargs action) with
       | Ok s =>
           fst (method kwargs w) = Ok tt
           /\ exists c,
               trace (snd (method kwargs w)) = trace w ++ [c]
               /\ argv c = batch_argv self action
               /\ process_input c = Some s
       | Raise e =>
           fst (method kwargs w) = Raise e
           /\ trace (snd (method kwargs w)) = trace w
       end.

(** The commands of [create] and [destroy]. *)
Definition add_br_call (self : OVSBridge) : call :=
  vsctl_call self ["--"; "--may-exist"; "add-br"; br_name self].

Definition del_br_call (self : OVSBridge) : call :=
  vsctl_call self ["--"; "--if-exists"; "del-br"; br_name self].

(** The number of occurrences of the character [c] in [s]. *)
Fixpoint count_char (c : ascii) (s : string) : nat :=
  match s with
  | EmptyString => O
  | String a s' =>
      if Ascii.eqb a c then S (count_char c s') else count_char c s'
  end.

(** [s] holds none of the characters of [chars]. *)
Definition free_of (chars s : string) : bool :=
  forallb (fun a => negb (Py.chr_in a chars)) (list_ascii_of_string s).

(** [s] holds characters of [chars] only. *)
Definition made_of (chars s : string) : bool :=
  forallb (fun a => Py.chr_in a chars) (list_ascii_of_string s).

(** The last character of a string that has one. *)
Fixpoint last_char (s : string) : option ascii :=
  match s with
  | EmptyString => None
  | String a s' =>
      match last_char s' with
      | Some b => Some b
      | None => Some a
      end
  end.

(** [s] does not end with a character of [chars]. *)
Definition clean_end (chars s : string) : bool :=
  match last_char s with
  | Some a => negb (Py.chr_in a chars)
  | None => true
  end.

(** A text made of lines that a line feed ends, as the commands print
    it. *)
Fixpoint unlines (lines : list string) : string :=
  match lines with
  | [] => EmptyString
  | l :: lines' => l +:+ newline +:+ unlines lines'
  end.

(** The characters that end a line. *)
Definition line_ends : string := String "010" (String "013" "").

(** A name: not empty and without white space. *)
Definition is_word (s : string) : bool :=
  negb (String.eqb s "") && free_of Py.whitespace s.

(** The command of [get_bridges]. *)
Definition list_br_call (timeout : Z) (root_helper : string) : call :=
  Call ["ovs-vsctl"; "--timeout=" +:+ Py.str_of_int timeout; "list-br"]
       root_helper None.

(** The method of [OVSBridge] that a buffering method stands for. *)
Definition direct_call (oracle : list call -> call -> result string * N)
           (br : OVSBridge) (op : flow_op) : M unit :=
  match op with
  | AddFlow kw => add_flow oracle br kw
  | ModFlow kw => mod_flow oracle br kw
  | DeleteFlows kw => delete_flows oracle br kw
  end.

(** The rule [d] renders for the command [cmd]. *)
Definition renders (cmd : string) (d : pydict) : bool :=
  is_ok (fst (_build_flow_expr_str d cmd)).

(** The dictionaries of a group. *)
Definition group_refs (g : string * list (string * ref)) : list ref :=
  List.map snd (snd g).


Section VifNotions.

Variable oracle : list call -> call -> result string * N.
Variable self : OVSBridge.





End VifNotions.

(** The entry [e] gives a value to the key [k]: [k] is the text before
    its first [=]. *)
Definition entry_key (e k : string) : Prop :=
  exists v, split_first "=" e = Some (k, v).

(** ** Sample bridges, executors and worlds *)

Module Sample.

Definition br_int : OVSBridge := mkOVSBridge "br-int" "sudo" 10.

(** An executor whose commands all succeed at once and print nothing. *)
Definition quiet : list call -> call -> result string * N :=
  fun _ _ => (Ok "", 0%N).

(** An executor that prints the empty set for the first [k] commands
    and [v] afterwards, taking 3 ms each time. *)
Definition ofport_after (k : nat) (v : string)
  : list call -> call -> result string * N :=
  fun tr _ =>
    if (length tr <? k)%nat then (Ok ("[]" +:+ newline), 3%N)
    else (Ok (v +:+ newline), 3%N).


(** An executor whose commands all succeed and print [out]. *)
Definition prints (out : string) : list call -> call -> result string * N :=
  fun _ _ => (Ok out, 1%N).

(** A world whose store holds the given dictionaries. *)
Definition world_of (sigma : list pydict) : world := World [] 0 sigma.

End Sample.

(** * Properties *)

(** ** Flow dictionaries *)

Module DictFacts.
Import Dict.

Lemma get_contains k d : contains k d = true <-> exists v, get k d = Some v.
Proof.
  induction d as [|[k' v'] d IH]; simpl.
  - split; [discriminate | intros [v Hv]; discriminate].
  - destruct (String.eqb k k'); simpl.
    + split; eauto.
    + exact IH.
Qed.

Lemma get_None_contains k d : get k d = None <-> contains k d = false.
Proof.
  destruct (contains k d) eqn:Hc.
  - apply get_contains in Hc as [v Hv]. rewrite Hv. split; discriminate.
  - split; [reflexivity | intros _].
    destruct (get k d) as [v|] eqn:Hg; [|reflexivity].
    assert (contains k d = true) by (apply get_contains; eauto).
    congruence.
Qed.

Lemma contains_remove k d : contains k (remove k d) = false.
Proof.
  induction d as [|[k' v'] d IH]; simpl; [reflexivity|].
  destruct (String.eqb k k') eqn:E; simpl; [exact IH|].
  rewrite E. exact IH.
Qed.

Lemma contains_remove_ne k k' d :
  k <> k' -> contains k (remove k' d) = contains k d.
Proof.
  intros Hne. induction d as [|[k1 v1] d IH]; simpl; [reflexivity|].
  destruct (String.eqb k' k1) eqn:E; simpl.
  - apply String.eqb_eq in E. subst k1.
    destruct (String.eqb_spec k k'); [contradiction|]. exact IH.
  - rewrite IH. reflexivity.
Qed.

(** Removing keys never brings a key back. *)
Lemma contains_remove_false k k' d :
  contains k d = false -> contains k (remove k' d) = false.
Proof.
  intros H. destruct (String.eqb_spec k k') as [->|Hne].
  - apply contains_remove.
  - rewrite contains_remove_ne; assumption.
Qed.

Lemma get_remove_ne k k' d : k <> k' -> get k (remove k' d) = get k d.
Proof.
  intros Hne. induction d as [|[k1 v1] d IH]; simpl; [reflexivity|].
  destruct (String.eqb k' k1) eqn:E; simpl.
  - apply String.eqb_eq in E. subst k1.
    destruct (String.eqb_spec k k'); [contradiction|]. exact IH.
  - rewrite IH. reflexivity.
Qed.

Lemma remove_absent k d : contains k d = false -> remove k d = d.
Proof.
  induction d as [|[k1 v1] d IH]; simpl; [reflexivity|].
  destruct (String.eqb k k1); simpl; [discriminate|].
  intros H. rewrite IH; auto.
Qed.

Lemma pop_default_fst k dflt d :
  fst (pop_default k dflt d) = match get k d with Some v => v | None => dflt end.
Proof. unfold pop_default. destruct (get k d); reflexivity. Qed.

Lemma pop_default_snd k dflt d : snd (pop_default k dflt d) = remove k d.
Proof.
  unfold pop_default. destruct (get k d) eqn:E; simpl; [reflexivity|].
  symmetry. apply remove_absent, get_None_contains, E.
Qed.

Lemma pop_default_eq k dflt d :
  pop_default k dflt d
  = (match get k d with Some v => v | None => dflt end, remove k d).
Proof.
  rewrite (surjective_pairing (pop_default k dflt d)).
  now rewrite pop_default_fst, pop_default_snd.
Qed.

Lemma In_remove kv k d : In kv (remove k d) -> In kv d.
Proof. unfold remove. intros H. apply filter_In in H. tauto. Qed.

End DictFacts.

(** ** The flow expression *)

Lemma proto_ok_spec d : proto_ok d = true -> proto_is_str d.
Proof.
  unfold proto_ok. rewrite forallb_forall. intros H v Hin.
  specialize (H _ Hin). simpl in H. destruct v; [eauto | discriminate].
Qed.

Lemma strings_of_fields d :
  proto_is_str d ->
  strings_of (List.map flow_field d) = Some (List.map field_token d).
Proof.
  induction d as [|[k v] d IH]; intros Hp; simpl; [reflexivity|].
  assert (Hd : proto_is_str d) by (intros v' Hv'; apply Hp; right; exact Hv').
  assert (Hf : flow_field (k, v)
               = if String.eqb k "proto" then v
                 else PStr (k +:+ "=" +:+ str v)) by reflexivity.
  assert (Ht : field_token (k, v)
               = if String.eqb k "proto" then str v
                 else k +:+ "=" +:+ str v) by reflexivity.
  rewrite Hf, Ht, (IH Hd).
  destruct (String.eqb_spec k "proto") as [->|Hne].
  - destruct (Hp v) as [s ->]; [left; reflexivity|]. reflexivity.
  - reflexivity.
Qed.

Lemma strings_of_app l1 l2 s1 s2 :
  strings_of l1 = Some s1 -> strings_of l2 = Some s2 ->
  strings_of (l1 ++ l2) = Some (s1 ++ s2).
Proof.
  revert s1. induction l1 as [|[s|n] l1 IH]; intros s1 H1 H2; simpl in *.
  - injection H1 as <-. exact H2.
  - destruct (strings_of l1) as [t|] eqn:E; [|discriminate].
    injection H1 as <-. rewrite (IH t eq_refl H2). reflexivity.
  - discriminate.
Qed.

Lemma proto_is_str_remove k d : proto_is_str d -> proto_is_str (Dict.remove k d).
Proof. intros H v Hv. apply H. eapply DictFacts.In_remove, Hv. Qed.

(** The three cases of [_build_flow_expr_str] on a rule that passes the
    checks. *)
Lemma build_add d a :
  proto_is_str d -> Dict.get "actions" d = Some a ->
  _build_flow_expr_str d "add"
  = (Ok (Py.join ","
           (["hard_timeout=" +:+ field_or "hard_timeout" "0" d;
             "idle_timeout=" +:+ field_or "idle_timeout" "0" d;
             "priority=" +:+ field_or "priority" "1" d]
            ++ List.map field_token (other_fields d)
            ++ ["actions=" +:+ str a])),
     other_fields d).
Proof.
  intros Hp Ha. unfold _build_flow_expr_str.
  change (String.eqb "add" "add") with true. cbv iota.
  rewrite !DictFacts.pop_default_eq.
  rewrite !DictFacts.get_remove_ne by discriminate.
  set (d3 := Dict.remove "priority"
               (Dict.remove "idle_timeout" (Dict.remove "hard_timeout" d))).
  assert (Ha3 : Dict.get "actions" d3 = Some a).
  { unfold d3. rewrite !DictFacts.get_remove_ne by discriminate. exact Ha. }
  assert (Hc3 : Dict.contains "actions" d3 = true).
  { apply DictFacts.get_contains. eauto. }
  change (String.eqb "add" "del") with false.
  cbv iota. simpl negb. cbv iota. rewrite Hc3. simpl negb. cbv iota.
  unfold Dict.pop. rewrite Ha3.
  fold (other_fields d).
  assert (Hp' : proto_is_str (other_fields d)).
  { unfold other_fields. repeat apply proto_is_str_remove. exact Hp. }
  unfold join_values, field_or.
  rewrite <- app_assoc.
  erewrite strings_of_app.
  2: reflexivity.
  2: { erewrite strings_of_app;
       [reflexivity | apply strings_of_fields, Hp' | reflexivity]. }
  destruct (Dict.get "hard_timeout" d), (Dict.get "idle_timeout" d),
    (Dict.get "priority" d); reflexivity.
Qed.

Lemma build_other cmd d a :
  cmd <> "add" -> cmd <> "del" ->
  proto_is_str d ->
  Dict.contains "priority" d = false ->
  Dict.get "actions" d = Some a ->
  _build_flow_expr_str d cmd
  = (Ok (Py.join ","
           (List.map field_token (Dict.remove "actions" d)
            ++ ["actions=" +:+ str a])),
     Dict.remove "actions" d).
Proof.
  intros Hadd Hdel Hp Hprio Ha. unfold _build_flow_expr_str.
  destruct (String.eqb_spec cmd "add") as [?|_]; [contradiction|].
  rewrite Hprio.
  destruct (String.eqb_spec cmd "del") as [?|_]; [contradiction|].
  assert (Hc : Dict.contains "actions" d = true)
    by (apply DictFacts.get_contains; eauto).
  simpl negb. cbv iota. rewrite Hc. simpl negb. cbv iota.
  unfold Dict.pop. rewrite Ha. unfold join_values. simpl app.
  erewrite strings_of_app;
    [reflexivity
    | apply strings_of_fields, proto_is_str_remove, Hp
    | reflexivity].
Qed.

Lemma build_del d :
  proto_is_str d ->
  Dict.contains "priority" d = false ->
  _build_flow_expr_str d "del"
  = (Ok (Py.join "," (List.map field_token d)), d).
Proof.
  intros Hp Hprio. unfold _build_flow_expr_str.
  change (String.eqb "del" "add") with false.
  change (String.eqb "del" "del") with true.
  cbv iota. rewrite Hprio. simpl negb. cbv iota.
  unfold join_values. simpl app. rewrite strings_of_fields by exact Hp.
  reflexivity.
Qed.

(** The two validation errors. *)
Lemma build_priority_error cmd d :
  cmd <> "add" -> Dict.contains "priority" d = true ->
  _build_flow_expr_str d cmd = (Raise (InvalidInput msg_priority), d).
Proof.
  intros Hadd Hprio. unfold _build_flow_expr_str.
  destruct (String.eqb_spec cmd "add") as [?|_]; [contradiction|].
  rewrite Hprio. reflexivity.
Qed.

Lemma build_actions_error cmd d :
  cmd <> "del" -> Dict.contains "actions" d = false ->
  exists msg d', _build_flow_expr_str d cmd = (Raise (InvalidInput msg), d').
Proof.
  intros Hdel Hact. unfold _build_flow_expr_str.
  destruct (String.eqb_spec cmd "del") as [?|_]; [contradiction|].
  destruct (String.eqb_spec cmd "add") as [->|_].
  - rewrite !DictFacts.pop_default_eq. simpl negb. cbv iota.
    assert (H3 : Dict.contains "actions"
                   (Dict.remove "priority"
                      (Dict.remove "idle_timeout"
                         (Dict.remove "hard_timeout" d))) = false)
      by (repeat apply DictFacts.contains_remove_false; exact Hact).
    rewrite H3. simpl. eauto.
  - destruct (Dict.contains "priority" d); [eauto|].
    simpl negb. cbv iota. rewrite Hact. simpl. eauto.
Qed.

Lemma build_snd d cmd : snd (_build_flow_expr_str d cmd) = consumed d cmd.
Proof.
  unfold _build_flow_expr_str, consumed.
  destruct (String.eqb_spec cmd "add") as [->|Hadd].
  - rewrite !DictFacts.pop_default_eq.
    change (String.eqb "add" "del") with false. simpl negb. cbv iota.
    set (d3 := Dict.remove "priority" _).
    fold d3. unfold other_fields. fold d3.
    destruct (Dict.contains "actions" d3) eqn:Hc; simpl negb; cbv iota.
    + apply DictFacts.get_contains in Hc as [a Ha].
      unfold Dict.pop. rewrite Ha. reflexivity.
    + simpl. symmetry. apply DictFacts.remove_absent, Hc.
  - destruct (Dict.contains "priority" d); [reflexivity|].
    destruct (String.eqb cmd "del"); simpl negb; cbv iota; [reflexivity|].
    destruct (Dict.contains "actions" d) eqn:Hc; simpl negb; cbv iota.
    + apply DictFacts.get_contains in Hc as [a Ha].
      unfold Dict.pop. rewrite Ha. reflexivity.
    + simpl. symmetry. apply DictFacts.remove_absent, Hc.
Qed.

(** Rendering never adds a key. *)
Lemma consumed_absent k d cmd :
  Dict.contains k d = false -> Dict.contains k (consumed d cmd) = false.
Proof.
  intros H. unfold consumed, other_fields.
  destruct (String.eqb cmd "add"), (Dict.contains "priority" d),
    (String.eqb cmd "del");
    repeat apply DictFacts.contains_remove_false; exact H.
Qed.

(** Outside [add], rendering leaves the priority where it is. *)
Lemma consumed_priority d cmd :
  cmd <> "add" ->
  Dict.contains "priority" (consumed d cmd) = Dict.contains "priority" d.
Proof.
  intros Hadd. unfold consumed.
  destruct (String.eqb_spec cmd "add") as [?|_]; [contradiction|].
  destruct (Dict.contains "priority" d) eqn:E; [exact E|].
  destruct (String.eqb cmd "del"); [exact E|].
  rewrite DictFacts.contains_remove_ne by discriminate. exact E.
Qed.

(** A successful rendering has consumed the keys. *)
Lemma build_ok_actions d cmd s :
  fst (_build_flow_expr_str d cmd) = Ok s -> cmd <> "del" ->
  Dict.contains "actions" d = true
  /\ Dict.contains "actions" (consumed d cmd) = false.
Proof.
  intros Hok Hdel.
  destruct (Dict.contains "actions" d) eqn:Hc.
  - split; [reflexivity|]. unfold consumed, other_fields.
    destruct (String.eqb_spec cmd "add") as [->|Hadd].
    + apply DictFacts.contains_remove.
    + destruct (Dict.contains "priority" d) eqn:Hp.
      * rewrite build_priority_error in Hok by assumption. discriminate.
      * destruct (String.eqb_spec cmd "del") as [?|_]; [contradiction|].
        apply DictFacts.contains_remove.
  - destruct (build_actions_error cmd d Hdel Hc) as (msg & d' & E).
    rewrite E in Hok. discriminate.
Qed.

(** C3 (amended).  On a rule that passes the checks and whose [proto], if
    any, is a string, [_build_flow_expr_str] renders: for [add], the
    tokens [hard_timeout=], [idle_timeout=] and [priority=] (with the
    defaults 0, 0 and 1), then the other fields in the order of the
    dictionary, as [key=value] or as the bare value for [proto], then
    [actions=]; for [mod], the fields other than [actions], then
    [actions=]; for [del], every field of the rule in the order of the
    dictionary and nothing more, so that an [actions] key of a deleted
    rule is rendered where it stands, like any other field. *)
Theorem flow_expr_grammar (d : pydict) (Hproto : proto_ok d = true) :
  (forall a, Dict.get "actions" d = Some a ->
     fst (_build_flow_expr_str d "add")
     = Ok (Py.join ","
             (["hard_timeout=" +:+ field_or "hard_timeout" "0" d;
               "idle_timeout=" +:+ field_or "idle_timeout" "0" d;
               "priority=" +:+ field_or "priority" "1" d]
              ++ List.map field_token (other_fields d)
              ++ ["actions=" +:+ str a])))
  /\ (forall a, Dict.get "actions" d = Some a ->
        Dict.contains "priority" d = false ->
        fst (_build_flow_expr_str d "mod")
        = Ok (Py.join ","
                (List.map field_token (Dict.remove "actions" d)
                 ++ ["actions=" +:+ str a])))
  /\ (Dict.contains "priority" d = false ->
        fst (_build_flow_expr_str d "del")
        = Ok (Py.join "," (List.map field_token d))).
Proof.
  apply proto_ok_spec in Hproto. repeat split.
  - intros a Ha. rewrite (build_add d a Hproto Ha). reflexivity.
  - intros a Ha Hprio. rewrite (build_other "mod" d a); try discriminate;
      auto.
  - intros Hprio. rewrite (build_del d Hproto Hprio). reflexivity.
Qed.

Lemma flow_expr_grammar_witness :
  let d := [("priority", PInt 2); ("proto", PStr "arp");
            ("dl_vlan", PInt 7); ("actions", PStr "normal")] in
  proto_ok d = true
  /\ fst (_build_flow_expr_str d "add")
     = Ok "hard_timeout=0,idle_timeout=0,priority=2,arp,dl_vlan=7,actions=normal".
Proof.
  split; [reflexivity|].
  exact (proj1 (flow_expr_grammar
                  [("priority", PInt 2); ("proto", PStr "arp");
                   ("dl_vlan", PInt 7); ("actions", PStr "normal")]
                  eq_refl) (PStr "normal") eq_refl).
Defined.

(** C3, as stated, fails for [del]: the [actions] key of a deleted rule is
    not moved to the end of the expression. *)
Lemma flow_expr_del_actions_in_place :
  ~ (forall d s a,
        Dict.get "actions" d = Some a ->
        fst (_build_flow_expr_str d "del") = Ok s ->
        actions_last s a).
Proof.
  intros H.
  specialize (H [("actions", PStr "drop"); ("nw_dst", PStr "10.0.0.1")]
                "actions=drop,nw_dst=10.0.0.1" (PStr "drop")
                eq_refl eq_refl).
  vm_compute in H. discriminate H.
Qed.

(** ** Rendering through the store, and [do_action_flows] *)

Lemma consumed_nil cmd : consumed [] cmd = [].
Proof.
  unfold consumed, other_fields. simpl.
  destruct (String.eqb cmd "add"), (String.eqb cmd "del"); reflexivity.
Qed.

Lemma build_at_eq cmd kw w :
  build_flow_expr_at cmd kw w
  = (fst (_build_flow_expr_str (deref w kw) cmd),
     set_store (<[kw := consumed (deref w kw) cmd]> (store w)) w).
Proof.
  unfold build_flow_expr_at. rewrite <- build_snd.
  destruct (_build_flow_expr_str (deref w kw) cmd); reflexivity.
Qed.

Lemma deref_set_store_insert w kw d kw' :
  d = [] \/ (kw < length (store w))%nat ->
  deref (set_store (<[kw := d]> (store w)) w) kw'
  = if decide (kw' = kw) then d else deref w kw'.
Proof.
  intros Hd. unfold deref, set_store. simpl.
  destruct (decide (kw' = kw)) as [->|Hne].
  - destruct (decide (kw < length (store w))%nat) as [Hlt|Hge].
    + rewrite list_lookup_insert_eq by exact Hlt. reflexivity.
    + destruct Hd as [->|Hlt]; [|contradiction].
      assert (Hle : (length (store w) <= kw)%nat) by lia.
      rewrite list_insert_ge by exact Hle.
      rewrite lookup_ge_None_2 by exact Hle. reflexivity.
  - rewrite list_lookup_insert_ne by congruence. reflexivity.
Qed.

(** After rendering the rule behind [kw], that dictionary is what the
    rendering left of it and every other dictionary is as before. *)
Lemma deref_build_at cmd kw w kw' :
  deref (snd (build_flow_expr_at cmd kw w)) kw'
  = if decide (kw' = kw) then consumed (deref w kw) cmd else deref w kw'.
Proof.
  rewrite build_at_eq. simpl. apply deref_set_store_insert.
  destruct (decide (kw < length (store w))%nat) as [Hlt|Hge]; [right; exact Hlt|].
  left. assert (Hle : (length (store w) <= kw)%nat) by lia.
  unfold deref. rewrite lookup_ge_None_2 by exact Hle. apply consumed_nil.
Qed.

Lemma trace_build_at cmd kw w :
  trace (snd (build_flow_expr_at cmd kw w)) = trace w
  /\ now (snd (build_flow_expr_at cmd kw w)) = now w.
Proof. rewrite build_at_eq. split; reflexivity. Qed.

Section RenderAll.

Variable cmd : string.

Local Abbreviation render_all := (map_m (build_flow_expr_at cmd)).

Lemma render_all_cons kw l w :
  render_all (kw :: l) w
  = match build_flow_expr_at cmd kw w with
    | (Ok s, w1) => match render_all l w1 with
                    | (Ok ss, w2) => (Ok (s :: ss), w2)
                    | (Raise e, w2) => (Raise e, w2)
                    end
    | (Raise e, w1) => (Raise e, w1)
    end.
Proof.
  simpl. unfold bind.
  destruct (build_flow_expr_at cmd kw w) as [[s|e] w1]; [|reflexivity].
  destruct (map_m (build_flow_expr_at cmd) l w1) as [[ss|e] w2]; reflexivity.
Qed.

(** Rendering runs no command and takes no time. *)
Lemma render_all_trace l w :
  trace (snd (render_all l w)) = trace w
  /\ now (snd (render_all l w)) = now w.
Proof.
  revert w. induction l as [|kw l IH]; intros w; [split; reflexivity|].
  rewrite render_all_cons.
  destruct (trace_build_at cmd kw w) as [Ht Hn].
  destruct (build_flow_expr_at cmd kw w) as [[s|e] w1]; simpl in Ht, Hn.
  - destruct (IH w1) as [Ht1 Hn1].
    destruct (render_all l w1) as [[ss|e] w2]; simpl in *; split; congruence.
  - simpl. split; assumption.
Qed.

(** A key that a dictionary lacks stays away. *)
Lemma render_all_absent k r l w :
  Dict.contains k (deref w r) = false ->
  Dict.contains k (deref (snd (render_all l w)) r) = false.
Proof.
  revert w. induction l as [|kw l IH]; intros w H; [exact H|].
  rewrite render_all_cons.
  assert (H1 : Dict.contains k (deref (snd (build_flow_expr_at cmd kw w)) r)
               = false).
  { rewrite deref_build_at. destruct (decide (r = kw)) as [->|_];
      [apply consumed_absent|]; exact H. }
  destruct (build_flow_expr_at cmd kw w) as [[s|e] w1]; simpl in H1.
  - specialize (IH w1 H1).
    destruct (render_all l w1) as [[ss|e] w2]; exact IH.
  - exact H1.
Qed.

(** Outside [add], a priority stays. *)
Lemma render_all_priority r l w :
  cmd <> "add" ->
  Dict.contains "priority" (deref (snd (render_all l w)) r)
  = Dict.contains "priority" (deref w r).
Proof.
  intros Hadd. revert w. induction l as [|kw l IH]; intros w; [reflexivity|].
  rewrite render_all_cons.
  assert (H1 : Dict.contains "priority"
                 (deref (snd (build_flow_expr_at cmd kw w)) r)
               = Dict.contains "priority" (deref w r)).
  { rewrite deref_build_at. destruct (decide (r = kw)) as [->|_];
      [apply consumed_priority, Hadd | reflexivity]. }
  destruct (build_flow_expr_at cmd kw w) as [[s|e] w1]; simpl in H1.
  - specialize (IH w1).
    destruct (render_all l w1) as [[ss|e] w2]; simpl in *; congruence.
  - exact H1.
Qed.

Lemma invalid_rule_raises d :
  invalid_rule cmd d ->
  exists msg, fst (_build_flow_expr_str d cmd) = Raise (InvalidInput msg).
Proof.
  intros [[Hadd Hp]|[Hdel Ha]].
  - rewrite build_priority_error by assumption. eauto.
  - destruct (build_actions_error cmd d Hdel Ha) as (msg & d' & E).
    rewrite E. eauto.
Qed.

(** One invalid rule in the list and the rendering of the list raises. *)
Lemma render_all_invalid kw l w :
  In kw l -> invalid_rule cmd (deref w kw) ->
  exists e, fst (render_all l w) = Raise e.
Proof.
  revert w. induction l as [|x l IH]; intros w Hin Hbad; [destruct Hin|].
  rewrite render_all_cons.
  pose proof (deref_build_at cmd x w kw) as Hd.
  rewrite build_at_eq in Hd |- *. simpl in Hd.
  destruct (fst (_build_flow_expr_str (deref w x) cmd)) as [s|e] eqn:E;
    [|simpl; eauto].
  destruct (decide (kw = x)) as [->|Hne].
  - destruct (invalid_rule_raises _ Hbad) as [msg Hm]. congruence.
  - destruct Hin as [->|Hin]; [contradiction|].
    set (w1 := set_store _ w) in *.
    assert (Hbad1 : invalid_rule cmd (deref w1 kw)) by (rewrite Hd; exact Hbad).
    destruct (IH w1 Hin Hbad1) as [e He].
    destruct (render_all l w1) as [[ss|e'] w2]; simpl in *;
      [discriminate | eauto].
Qed.

(** A rendering of the whole list that succeeds has consumed
    [actions] in every dictionary of the list, which had it. *)
Lemma render_all_ok_actions l w ss kw :
  cmd <> "del" ->
  fst (render_all l w) = Ok ss -> In kw l ->
  Dict.contains "actions" (deref w kw) = true
  /\ Dict.contains "actions" (deref (snd (render_all l w)) kw) = false.
Proof.
  intros Hdel. revert w ss.
  induction l as [|x l IH]; intros w ss Hok Hin; [destruct Hin|].
  destruct (Dict.contains "actions" (deref w kw)) eqn:Hc.
  2: { destruct (render_all_invalid kw (x :: l) w Hin) as [e He];
         [right; split; assumption | congruence]. }
  split; [reflexivity|].
  rewrite render_all_cons in Hok |- *.
  pose proof (deref_build_at cmd x w kw) as Hd.
  rewrite build_at_eq in Hd, Hok |- *. simpl in Hd.
  destruct (fst (_build_flow_expr_str (deref w x) cmd)) as [s|e] eqn:E;
    [|discriminate].
  set (w1 := set_store _ w) in *.
  destruct (render_all l w1) as [[ss'|e'] w2] eqn:E1; [|discriminate].
  simpl.
  destruct (decide (kw = x)) as [->|Hne].
  - assert (H1 : Dict.contains "actions" (deref w1 x) = false).
    { rewrite Hd. eapply build_ok_actions; eassumption. }
    pose proof (render_all_absent "actions" x l w1 H1) as H2.
    rewrite E1 in H2. exact H2.
  - destruct Hin as [->|Hin]; [contradiction|].
    destruct (IH w1 ss') as [_ H2]; [rewrite E1; reflexivity | exact Hin |].
    rewrite E1 in H2. exact H2.
Qed.

End RenderAll.

Section Commands.

Variable oracle : list call -> call -> result string * N.

Lemma execute_eq c w :
  execute oracle c w
  = (fst (oracle (trace w) c),
     {| trace := trace w ++ [c];
        now := now w + Z.of_N (snd (oracle (trace w) c));
        store := store w |}).
Proof. unfold execute. destruct (oracle (trace w) c); reflexivity. Qed.

(** [run_ofctl] runs one command and never raises. *)
Lemma run_ofctl_eq self cmd args input w :
  let c := ofctl_call self cmd args input in
  run_ofctl oracle self cmd args input w
  = (Ok (match fst (oracle (trace w) c) with
         | Ok out => Some out
         | Raise _ => None
         end),
     {| trace := trace w ++ [c];
        now := now w + Z.of_N (snd (oracle (trace w) c));
        store := store w |}).
Proof.
  intros c. unfold run_ofctl, try_except, bind. fold c.
  rewrite execute_eq. destruct (fst (oracle (trace w) c)); reflexivity.
Qed.

(** [run_vsctl] runs one command; it raises only under [check_error]. *)
Lemma run_vsctl_eq self args check_error w :
  let c := vsctl_call self args in
  run_vsctl oracle self args check_error w
  = (match fst (oracle (trace w) c) with
     | Ok out => Ok (Some out)
     | Raise e => if check_error then Raise e else Ok None
     end,
     {| trace := trace w ++ [c];
        now := now w + Z.of_N (snd (oracle (trace w) c));
        store := store w |}).
Proof.
  intros c. unfold run_vsctl, try_except, bind.
  change (Call (vsctl_args self args) (root_helper self) None) with c.
  rewrite execute_eq.
  destruct (fst (oracle (trace w) c)); [reflexivity|].
  destruct check_error; reflexivity.
Qed.

(** [do_action_flows] renders every rule, then runs one command. *)
Lemma do_action_flows_eq self action l w :
  do_action_flows oracle self action l w
  = match map_m (build_flow_expr_at action) l w with
    | (Ok ss, w1) =>
        let c := ofctl_call self (action +:+ "-flows") ["-"]
                            (Some (Py.join newline ss)) in
        (Ok tt,
         {| trace := trace w1 ++ [c];
            now := now w1 + Z.of_N (snd (oracle (trace w1) c));
            store := store w1 |})
    | (Raise e, w1) => (Raise e, w1)
    end.
Proof.
  unfold do_action_flows, bind.
  destruct (map_m (build_flow_expr_at action) l w) as [[ss|e] w1];
    [|reflexivity].
  rewrite run_ofctl_eq. reflexivity.
Qed.

(** When [do_action_flows] raises, it has run no command; when it
    returns, it has run exactly one, [ovs-ofctl <action>-flows]. *)
Lemma do_action_flows_trace self action l w :
  match do_action_flows oracle self action l w with
  | (Ok _, w') =>
      exists input,
        trace w' = trace w
                   ++ [ofctl_call self (action +:+ "-flows") ["-"] input]
  | (Raise _, w') => trace w' = trace w
  end.
Proof.
  rewrite do_action_flows_eq.
  pose proof (render_all_trace action l w) as [Ht _].
  destruct (map_m (build_flow_expr_at action) l w) as [[ss|e] w1];
    simpl in *.
  - rewrite Ht. eauto.
  - exact Ht.
Qed.

Lemma deref_do_action_flows self action l w kw :
  deref (snd (do_action_flows oracle self action l w)) kw
  = deref (snd (map_m (build_flow_expr_at action) l w)) kw.
Proof.
  rewrite do_action_flows_eq.
  destruct (map_m (build_flow_expr_at action) l w) as [[ss|e] w1];
    reflexivity.
Qed.

(** C4.  A rule with a [priority] rendered for [del] or [mod], and a rule
    without [actions] rendered for [add] or [mod], raise the validation
    error [InvalidInput]; and [do_action_flows] on a list that holds such
    a rule raises without having run a command. *)
Theorem validation_before_command :
  (forall d cmd, cmd = "del" \/ cmd = "mod" ->
     Dict.contains "priority" d = true ->
     exists msg, fst (_build_flow_expr_str d cmd) = Raise (InvalidInput msg))
  /\ (forall d cmd, cmd = "add" \/ cmd = "mod" ->
        Dict.contains "actions" d = false ->
        exists msg,
          fst (_build_flow_expr_str d cmd) = Raise (InvalidInput msg))
  /\ (forall self cmd kwargs_list kw w,
        In kw kwargs_list ->
        ((cmd = "del" \/ cmd = "mod")
         /\ Dict.contains "priority" (deref w kw) = true)
        \/ ((cmd = "add" \/ cmd = "mod")
            /\ Dict.contains "actions" (deref w kw) = false) ->
        exists e,
          fst (do_action_flows oracle self cmd kwargs_list w) = Raise e
          /\ trace (snd (do_action_flows oracle self cmd kwargs_list w))
             = trace w).
Proof.
  assert (Hinv : forall cmd d,
             ((cmd = "del" \/ cmd = "mod")
              /\ Dict.contains "priority" d = true)
             \/ ((cmd = "add" \/ cmd = "mod")
                 /\ Dict.contains "actions" d = false) ->
             invalid_rule cmd d).
  { intros cmd d [[[->| ->] H]|[[->| ->] H]];
      [left|left|right|right]; (split; [discriminate | exact H]). }
  repeat split.
  - intros d cmd Hc Hp. apply invalid_rule_raises, Hinv. left. tauto.
  - intros d cmd Hc Ha. apply invalid_rule_raises, Hinv. right. tauto.
  - intros self cmd l kw w Hin Hbad.
    destruct (render_all_invalid cmd kw l w Hin (Hinv _ _ Hbad)) as [e He].
    pose proof (do_action_flows_trace self cmd l w) as Ht.
    rewrite do_action_flows_eq in Ht |- *.
    destruct (map_m (build_flow_expr_at cmd) l w) as [[ss|e'] w1];
      simpl in *; [discriminate|]. eauto.
Qed.

End Commands.

Lemma validation_before_command_witness :
  let w := Sample.world_of [[("priority", PInt 1); ("in_port", PInt 2)]] in
  exists e,
    fst (do_action_flows Sample.quiet Sample.br_int "del" [0%nat] w) = Raise e
    /\ trace (snd (do_action_flows Sample.quiet Sample.br_int "del" [0%nat] w))
       = trace w.
Proof.
  exact (proj2 (proj2 (validation_before_command Sample.quiet))
           Sample.br_int "del" [0%nat] 0%nat
           (Sample.world_of [[("priority", PInt 1); ("in_port", PInt 2)]])
           (or_introl eq_refl)
           (or_introl (conj (or_introl eq_refl) eq_refl))).
Defined.

(** A key that every successful rendering consumes is gone from every
    dictionary of a list that was rendered with success. *)
Lemma render_all_ok_consumed cmd k l w ss kw :
  (forall d s, fst (_build_flow_expr_str d cmd) = Ok s ->
               Dict.contains k (consumed d cmd) = false) ->
  fst (map_m (build_flow_expr_at cmd) l w) = Ok ss -> In kw l ->
  Dict.contains k (deref (snd (map_m (build_flow_expr_at cmd) l w)) kw) = false.
Proof.
  intros Hk. revert w ss.
  induction l as [|x l IH]; intros w ss Hok Hin; [destruct Hin|].
  rewrite render_all_cons in Hok |- *.
  pose proof (deref_build_at cmd x w kw) as Hd.
  rewrite build_at_eq in Hd, Hok |- *. simpl in Hd.
  destruct (fst (_build_flow_expr_str (deref w x) cmd)) as [s|e] eqn:E;
    [|discriminate].
  set (w1 := set_store _ w) in *.
  destruct (map_m (build_flow_expr_at cmd) l w1) as [[ss'|e'] w2] eqn:E1;
    [|discriminate].
  simpl.
  destruct (decide (kw = x)) as [->|Hne].
  - assert (H1 : Dict.contains k (deref w1 x) = false).
    { rewrite Hd. eapply Hk, E. }
    pose proof (render_all_absent cmd k x l w1 H1) as H2.
    rewrite E1 in H2. exact H2.
  - destruct Hin as [->|Hin]; [contradiction|].
    specialize (IH w1 ss'). rewrite E1 in IH. apply IH; [reflexivity|exact Hin].
Qed.

Lemma consumed_add_keys d k :
  In k ["hard_timeout"; "idle_timeout"; "priority"; "actions"] ->
  Dict.contains k (consumed d "add") = false.
Proof.
  unfold consumed, other_fields. change (String.eqb "add" "add") with true.
  cbv iota. intros [<-|[<-|[<-|[<-|[]]]]].
  - do 3 apply DictFacts.contains_remove_false. apply DictFacts.contains_remove.
  - do 2 apply DictFacts.contains_remove_false. apply DictFacts.contains_remove.
  - apply DictFacts.contains_remove_false, DictFacts.contains_remove.
  - apply DictFacts.contains_remove.
Qed.

(** C10.  [_build_flow_expr_str] changes the dictionary it is given.  For
    [add], the keys [hard_timeout], [idle_timeout] and [priority] are gone
    afterwards; for [add] and [mod], a rendering that succeeds has removed
    the key [actions], which was there.  Hence, once [do_action_flows] has
    returned, every dictionary of the list it was given has lost these
    keys and differs from what the caller passed. *)
Theorem build_flow_expr_consumes_keys :
  (forall d k, In k ["hard_timeout"; "idle_timeout"; "priority"] ->
     Dict.contains k (snd (_build_flow_expr_str d "add")) = false)
  /\ (forall d cmd s, cmd = "add" \/ cmd = "mod" ->
        fst (_build_flow_expr_str d cmd) = Ok s ->
        Dict.contains "actions" d = true
        /\ Dict.contains "actions" (snd (_build_flow_expr_str d cmd)) = false)
  /\ (forall oracle self cmd kwargs_list w kw,
        cmd = "add" \/ cmd = "mod" ->
        fst (do_action_flows oracle self cmd kwargs_list w) = Ok tt ->
        In kw kwargs_list ->
        let w' := snd (do_action_flows oracle self cmd kwargs_list w) in
        Dict.contains "actions" (deref w kw) = true
        /\ Dict.contains "actions" (deref w' kw) = false
        /\ deref w' kw <> deref w kw
        /\ (cmd = "add" ->
            forall k, In k ["hard_timeout"; "idle_timeout"; "priority"] ->
                      Dict.contains k (deref w' kw) = false)).
Proof.
  split; [|split].
  - intros d k Hk. rewrite build_snd. apply consumed_add_keys.
    simpl in *. tauto.
  - intros d cmd s Hcmd Hok. rewrite build_snd.
    apply (build_ok_actions d cmd s Hok).
    destruct Hcmd as [->| ->]; discriminate.
  - intros oracle self cmd kwargs_list w kw Hcmd Hok Hin w'.
    assert (Hdel : cmd <> "del") by (destruct Hcmd as [->| ->]; discriminate).
    subst w'. rewrite deref_do_action_flows.
    rewrite do_action_flows_eq in Hok.
    destruct (map_m (build_flow_expr_at cmd) kwargs_list w) as [[ss|e] w1] eqn:E;
      [|discriminate].
    pose proof (render_all_ok_actions cmd kwargs_list w ss kw Hdel) as H.
    rewrite E in H. destruct (H eq_refl Hin) as [H1 H2]. simpl in H2 |- *.
    repeat split; [exact H1 | exact H2 | congruence |].
    intros -> k Hk.
    pose proof (render_all_ok_consumed "add" k kwargs_list w ss kw) as Hc.
    rewrite E in Hc. apply Hc; [|reflexivity|exact Hin].
    intros d s _. apply consumed_add_keys. simpl in *. tauto.
Qed.

Lemma build_flow_expr_consumes_keys_witness :
  let w := Sample.world_of [[("priority", PInt 2); ("actions", PStr "drop")]] in
  let w' := snd (do_action_flows Sample.quiet Sample.br_int "add" [0%nat] w) in
  fst (do_action_flows Sample.quiet Sample.br_int "add" [0%nat] w) = Ok tt
  /\ Dict.contains "actions" (deref w 0%nat) = true
  /\ Dict.contains "actions" (deref w' 0%nat) = false
  /\ deref w' 0%nat <> deref w 0%nat
  /\ ("add" = "add" ->
      forall k, In k ["hard_timeout"; "idle_timeout"; "priority"] ->
                Dict.contains k (deref w' 0%nat) = false).
Proof.
  split; [reflexivity|].
  exact (proj2 (proj2 build_flow_expr_consumes_keys)
           Sample.quiet Sample.br_int "add" [0%nat]
           (Sample.world_of [[("priority", PInt 2); ("actions", PStr "drop")]])
           0%nat (or_introl eq_refl) eq_refl (or_introl eq_refl)).
Defined.

(** ** The deferred bridge: ordering *)

Lemma default_weights af :
  known_kind af ->
  sort_key (weights_of default_order) af = Ok (kind_weight af).
Proof.
  destruct af as [k r]. unfold known_kind, sort_key, kind_weight. simpl.
  intros [<-|[<-|[<-|[]]]]; reflexivity.
Qed.

Lemma default_sort_keys b :
  Forall known_kind b ->
  sort_keys (weights_of default_order) b
  = Ok (List.map (fun af => (kind_weight af, af)) b).
Proof.
  induction 1 as [|af b Haf _ IH]; [reflexivity|].
  cbn [sort_keys List.map]. rewrite (default_weights af Haf), IH. reflexivity.
Qed.

(** Where the insertion of a stable sort puts an element: behind the
    smaller keys and in front of the others. *)
Lemma insert_by_key_app {A} (x : nat * A) l1 l2 :
  Forall (fun y => (fst y < fst x)%nat) l1 ->
  Forall (fun y => (fst x <= fst y)%nat) l2 ->
  insert_by_key x (l1 ++ l2) = l1 ++ x :: l2.
Proof.
  intros H1 H2. induction H1 as [|y l1 Hy _ IH]; simpl.
  - destruct H2 as [|y l2 Hy _]; simpl; [reflexivity|].
    destruct (Nat.leb_spec (fst x) (fst y)); [reflexivity|lia].
  - destruct (Nat.leb_spec (fst x) (fst y)); [lia|]. rewrite IH. reflexivity.
Qed.

Lemma keyed_of_kind_weight k b y :
  In y (keyed (of_kind k b)) ->
  fst y = kind_weight (k, 0%nat).
Proof.
  unfold keyed, of_kind. rewrite in_map_iff.
  intros (af & <- & Hin). apply filter_In in Hin as [_ Hk].
  apply String.eqb_eq in Hk. simpl. unfold kind_weight. simpl.
  rewrite Hk. reflexivity.
Qed.

Lemma of_kind_cons k af b :
  of_kind k (af :: b)
  = if String.eqb (fst af) k then af :: of_kind k b else of_kind k b.
Proof. reflexivity. Qed.

(** The stable sort of a buffer by the default weights: the additions,
    then the modifications, then the deletions, each in buffer order. *)
Lemma stable_sort_default b :
  Forall known_kind b ->
  stable_sort (keyed b)
  = keyed (of_kind "add" b) ++ keyed (of_kind "mod" b)
    ++ keyed (of_kind "del" b).
Proof.
  induction 1 as [|af b Haf _ IH]; [reflexivity|].
  change (keyed (af :: b)) with ((kind_weight af, af) :: keyed b).
  cbn [stable_sort]. rewrite IH. clear IH.
  assert (Hw : forall k y, In y (keyed (of_kind k b)) ->
                           fst y = kind_weight (k, 0%nat))
    by (intros; eapply keyed_of_kind_weight; eassumption).
  pose proof (Hw "add") as Ha. pose proof (Hw "mod") as Hm.
  pose proof (Hw "del") as Hd. clear Hw.
  change (kind_weight ("add", 0%nat)) with 0%nat in Ha.
  change (kind_weight ("mod", 0%nat)) with 1%nat in Hm.
  change (kind_weight ("del", 0%nat)) with 2%nat in Hd.
  rewrite !of_kind_cons.
  destruct af as [k r]. unfold known_kind in Haf. simpl in Haf.
  destruct Haf as [<-|[<-|[<-|[]]]]; simpl String.eqb; cbv iota;
    unfold kind_weight at 1; simpl String.eqb; cbv iota.
  - apply (insert_by_key_app _ []); [constructor|].
    apply List.Forall_forall. intros y Hy. simpl. lia.
  - change (keyed (("mod", r) :: of_kind "mod" b))
      with ((1%nat, ("mod", r)) :: keyed (of_kind "mod" b)).
    apply insert_by_key_app.
    + apply List.Forall_forall. intros y Hy. rewrite (Ha y Hy). simpl. lia.
    + apply List.Forall_forall. intros y Hy. simpl.
      apply in_app_or in Hy as [Hy|Hy]; [rewrite (Hm y Hy)|rewrite (Hd y Hy)];
        lia.
  - change (keyed (("del", r) :: of_kind "del" b))
      with ((2%nat, ("del", r)) :: keyed (of_kind "del" b)).
    rewrite !app_assoc. apply insert_by_key_app.
    + apply List.Forall_forall. intros y Hy.
      apply in_app_or in Hy as [Hy|Hy]; [rewrite (Ha y Hy)|rewrite (Hm y Hy)];
        simpl; lia.
    + apply List.Forall_forall. intros y Hy. rewrite (Hd y Hy). simpl. lia.
Qed.

Lemma map_snd_keyed b : List.map snd (keyed b) = b.
Proof.
  unfold keyed. rewrite List.map_map. simpl. apply List.map_id.
Qed.

Lemma sort_by_weight_default b :
  Forall known_kind b ->
  sort_by_weight (weights_of default_order) b
  = Ok (of_kind "add" b ++ of_kind "mod" b ++ of_kind "del" b).
Proof.
  intros H. unfold sort_by_weight. rewrite (default_sort_keys b H).
  fold (keyed b). rewrite (stable_sort_default b H).
  rewrite !List.map_app, !map_snd_keyed. reflexivity.
Qed.

Lemma groupby_head af l :
  exists g gs, groupby (af :: l) = (fst af, g) :: gs.
Proof.
  simpl. destruct (groupby l) as [|[k g] gs]; [eauto|].
  destruct (String.eqb_spec (fst af) k) as [->|_]; eauto.
Qed.

(** A run of one kind, followed by something of another kind, is a group
    of its own. *)
Lemma groupby_run k l1 l2 :
  l1 <> [] ->
  Forall (fun af => fst af = k) l1 ->
  match l2 with [] => True | af :: _ => fst af <> k end ->
  groupby (l1 ++ l2) = (k, l1) :: groupby l2.
Proof.
  intros Hne H1 H2. induction H1 as [|x l1 Hx H1 IH]; [contradiction|].
  destruct l1 as [|x' l1].
  - clear IH. simpl app. destruct l2 as [|y l2]; [simpl; congruence|].
    destruct (groupby_head y l2) as (g & gs & E).
    cbn [groupby] in E |- *. rewrite E.
    destruct (String.eqb_spec (fst x) (fst y)) as [Heq|_]; [congruence|].
    rewrite Hx. reflexivity.
  - change ((x :: x' :: l1) ++ l2) with (x :: ((x' :: l1) ++ l2)).
    cbn [groupby]. rewrite IH by discriminate.
    rewrite Hx, String.eqb_refl. reflexivity.
Qed.

Lemma of_kind_kind k b : Forall (fun af => fst af = k) (of_kind k b).
Proof.
  apply List.Forall_forall. intros af Hin. apply filter_In in Hin as [_ H].
  apply String.eqb_eq, H.
Qed.

Lemma groupby_kinds a m d :
  Forall (fun af => fst af = "add") a ->
  Forall (fun af => fst af = "mod") m ->
  Forall (fun af => fst af = "del") d ->
  groupby (a ++ m ++ d)
  = List.filter (fun g => match snd g with [] => false | _ => true end)
                [("add", a); ("mod", m); ("del", d)].
Proof.
  intros Ha Hm Hd.
  assert (Hd' : groupby d = match d with [] => [] | _ => [("del", d)] end).
  { destruct d as [|y d]; [reflexivity|].
    rewrite <- (app_nil_r (y :: d)) at 1.
    apply groupby_run; [discriminate | exact Hd | exact I]. }
  assert (Hmd : groupby (m ++ d)
                = match m with [] => [] | _ => [("mod", m)] end ++ groupby d).
  { destruct m as [|y m]; [reflexivity|].
    apply groupby_run; [discriminate | exact Hm |].
    destruct d as [|z d]; [exact I|]. inversion Hd; subst. congruence. }
  assert (Hamd : groupby (a ++ m ++ d)
                 = match a with [] => [] | _ => [("add", a)] end
                   ++ groupby (m ++ d)).
  { destruct a as [|y a]; [reflexivity|].
    apply groupby_run; [discriminate | exact Ha |].
    destruct m as [|z m]; simpl.
    - destruct d as [|z d]; [exact I|]. inversion Hd; subst. congruence.
    - inversion Hm; subst. congruence. }
  rewrite Hamd, Hmd, Hd'.
  destruct a, m, d; reflexivity.
Qed.

(** The groups that [apply_flows] forms under the default policy. *)
Lemma default_groups b :
  Forall known_kind b ->
  match sort_by_weight (weights_of default_order) b with
  | Ok sorted => groupby sorted = kind_groups b
  | Raise _ => False
  end.
Proof.
  intros H. rewrite (sort_by_weight_default b H).
  apply groupby_kinds; apply of_kind_kind.
Qed.

Section Flush.

Variable oracle : list call -> call -> result string * N.

Lemma apply_groups_cons br action l groups w :
  apply_groups oracle br ((action, l) :: groups) w
  = match do_action_flows oracle br action (List.map snd l) w with
    | (Ok _, w1) => apply_groups oracle br groups w1
    | (Raise e, w1) => (Raise e, w1)
    end.
Proof. reflexivity. Qed.

(** The commands of a loop over groups: one per group, in the order of
    the groups, up to the group whose rendering raised, if any. *)
Lemma apply_groups_trace br groups w :
  exists n cmds,
    trace (snd (apply_groups oracle br groups w)) = trace w ++ cmds
    /\ List.map argv cmds
       = firstn n (List.map (fun g => batch_argv br (fst g)) groups)
    /\ (n <= length groups)%nat
    /\ (is_ok (fst (apply_groups oracle br groups w)) = true ->
        n = length groups).
Proof.
  revert w. induction groups as [|[action l] groups IH]; intros w.
  - exists 0%nat, []. simpl. rewrite app_nil_r. auto.
  - rewrite apply_groups_cons.
    pose proof (do_action_flows_trace oracle br action (List.map snd l) w)
      as Ht.
    destruct (do_action_flows oracle br action (List.map snd l) w)
      as [[[]|e] w1].
    + destruct Ht as [input Ht].
      destruct (IH w1) as (n & cmds & Hc & Hm & Hn & Hok).
      exists (S n), (ofctl_call br (action +:+ "-flows") ["-"] input :: cmds).
      rewrite Hc, Ht, <- app_assoc. simpl. rewrite Hm.
      repeat split; [lia|]. intros H. rewrite (Hok H). reflexivity.
    + exists 0%nat, []. simpl. rewrite app_nil_r.
      repeat split; [exact Ht | lia | discriminate].
Qed.

End Flush.

(** What a sequence of buffering calls leaves: the policy is untouched,
    nothing was run, and the buffer holds the actions of the calls in
    their order, each with a dictionary of its own. *)
Lemma submit_all_spec ops self w :
  let res := submit_all ops self w in
  let self' := snd (fst res) in
  let w' := snd res in
  fst (fst res) = Ok tt
  /\ br self' = br self
  /\ full_ordered self' = full_ordered self
  /\ weights self' = weights self
  /\ action_flow_tuples self'
     = action_flow_tuples self
       ++ combine (List.map op_action ops)
                  (seq (length (store w)) (length ops))
  /\ store w' = store w ++ List.map op_kwargs ops
  /\ trace w' = trace w.
Proof.
  revert self w. induction ops as [|op ops IH]; intros self w; cbn zeta.
  - simpl. rewrite !app_nil_r. auto 10.
  - cbn [submit_all].
    assert (E : submit op self w
                = (Ok tt,
                   set_action_flow_tuples
                     (action_flow_tuples self
                      ++ [(op_action op, length (store w))]) self,
                   set_store (store w ++ [op_kwargs op]) w))
      by (destruct op; reflexivity).
    rewrite E. cbv iota beta.
    specialize (IH (set_action_flow_tuples
                      (action_flow_tuples self
                       ++ [(op_action op, length (store w))]) self)
                   (set_store (store w ++ [op_kwargs op]) w)).
    cbn zeta in IH. destruct IH as (H1 & H2 & H3 & H4 & H5 & H6 & H7).
    repeat split; try assumption.
    + rewrite H5. simpl. rewrite <- app_assoc. simpl.
      rewrite length_app. simpl. rewrite Nat.add_1_r. reflexivity.
    + rewrite H6. simpl. rewrite <- app_assoc. reflexivity.
Qed.

Lemma known_kind_combine ops (refs : list nat) :
  Forall known_kind (combine (List.map op_action ops) refs).
Proof.
  revert refs. induction ops as [|op ops IH]; intros [|r refs]; simpl;
    try constructor; [|apply IH].
  unfold known_kind. destruct op; simpl; tauto.
Qed.

Section Batches.

Variable oracle : list call -> call -> result string * N.

(** Under the default policy, [apply_flows] empties the buffer and runs
    the loop over the groups [add], [mod], [del]. *)
Lemma apply_flows_default self w :
  full_ordered self = false ->
  weights self = weights_of default_order ->
  Forall known_kind (action_flow_tuples self) ->
  apply_flows oracle self w
  = (fst (apply_groups oracle (br self)
                       (kind_groups (action_flow_tuples self)) w),
     set_action_flow_tuples [] self,
     snd (apply_groups oracle (br self)
                       (kind_groups (action_flow_tuples self)) w)).
Proof.
  intros Hf Hw Hk. unfold apply_flows.
  destruct (action_flow_tuples self) as [|af b] eqn:Eb; [reflexivity|].
  cbn [full_ordered weights br set_action_flow_tuples].
  rewrite Hf, Hw. simpl negb. cbv iota.
  pose proof (default_groups (af :: b) Hk) as Hg.
  destruct (sort_by_weight (weights_of default_order) (af :: b))
    as [sorted|e]; [|contradiction].
  rewrite Hg.
  destruct (apply_groups oracle (br self) (kind_groups (af :: b)) w);
    reflexivity.
Qed.

(** C1.  Whatever the calls of [add_flow], [mod_flow] and [delete_flows]
    on a deferred bridge with the default policy, and whatever their
    order, [apply_flows] calls [do_action_flows] once per kind that the
    buffer holds, in the order [add], [mod], [del], each time with the
    dictionaries of that kind in the order of their submission; the
    commands it runs are the batches of these groups in that order, all
    of them when it returns. *)
Theorem apply_flows_default_order (br0 : OVSBridge) (ops : list flow_op)
        (w : world) :
  let self := snd (fst (submit_all ops (deferred br0) w)) in
  let w1 := snd (submit_all ops (deferred br0) w) in
  let buffer := action_flow_tuples self in
  let groups := kind_groups buffer in
  buffer = combine (List.map op_action ops)
                   (seq (length (store w)) (length ops))
  /\ groups
     = List.filter (fun g => match snd g with [] => false | _ => true end)
         [("add", List.filter (fun af => String.eqb (fst af) "add") buffer);
          ("mod", List.filter (fun af => String.eqb (fst af) "mod") buffer);
          ("del", List.filter (fun af => String.eqb (fst af) "del") buffer)]
  /\ apply_flows oracle self w1
     = (fst (for_each groups
               (fun g => do_action_flows oracle br0 (fst g)
                                         (List.map snd (snd g))) w1),
        set_action_flow_tuples [] self,
        snd (for_each groups
               (fun g => do_action_flows oracle br0 (fst g)
                                         (List.map snd (snd g))) w1))
  /\ exists n cmds,
       trace (snd (apply_flows oracle self w1)) = trace w ++ cmds
       /\ List.map argv cmds
          = firstn n (List.map (fun g => batch_argv br0 (fst g)) groups)
       /\ (is_ok (fst (fst (apply_flows oracle self w1))) = true ->
           n = length groups).
Proof.
  cbn zeta.
  destruct (submit_all_spec ops (deferred br0) w)
    as (_ & Hbr & Hf & Hw & Hb & _ & Ht).
  cbn zeta in *. simpl in Hbr, Hf, Hw, Hb.
  set (self := snd (fst (submit_all ops (deferred br0) w))) in *.
  set (w1 := snd (submit_all ops (deferred br0) w)) in *.
  assert (Hk : Forall known_kind (action_flow_tuples self))
    by (rewrite Hb; apply known_kind_combine).
  split; [exact Hb|]. split; [reflexivity|].
  assert (Hloop : forall groups v,
             for_each groups
               (fun g => do_action_flows oracle br0 (fst g)
                                         (List.map snd (snd g))) v
             = apply_groups oracle br0 groups v).
  { induction groups as [|[a l] groups IH]; intros v; [reflexivity|].
    rewrite apply_groups_cons. cbn [for_each]. unfold bind. simpl.
    destruct (do_action_flows oracle br0 a (List.map snd l) v)
      as [[[]|e] v1]; [apply IH | reflexivity]. }
  rewrite Hloop, (apply_flows_default self w1 Hf Hw Hk), Hbr.
  split; [reflexivity|]. simpl.
  destruct (apply_groups_trace oracle br0
              (kind_groups (action_flow_tuples self)) w1)
    as (n & cmds & Hc & Hm & _ & Hok).
  exists n, cmds. rewrite Hc, Ht. auto.
Qed.

End Batches.

Lemma apply_flows_default_order_witness :
  let ops := [DeleteFlows [("in_port", PInt 1)];
              AddFlow [("actions", PStr "drop")];
              ModFlow [("actions", PStr "normal")];
              AddFlow [("priority", PInt 3); ("actions", PStr "normal")]] in
  let self := snd (fst (submit_all ops (deferred Sample.br_int)
                                   (Sample.world_of []))) in
  let w1 := snd (submit_all ops (deferred Sample.br_int) (Sample.world_of [])) in
  apply_flows Sample.quiet self w1
  = (fst (for_each
            [("add", [("add", 1%nat); ("add", 3%nat)]);
             ("mod", [("mod", 2%nat)]);
             ("del", [("del", 0%nat)])]
            (fun g => do_action_flows Sample.quiet Sample.br_int (fst g)
                                      (List.map snd (snd g))) w1),
     set_action_flow_tuples [] self,
     snd (for_each
            [("add", [("add", 1%nat); ("add", 3%nat)]);
             ("mod", [("mod", 2%nat)]);
             ("del", [("del", 0%nat)])]
            (fun g => do_action_flows Sample.quiet Sample.br_int (fst g)
                                      (List.map snd (snd g))) w1)).
Proof.
  exact (proj1 (proj2 (proj2
           (apply_flows_default_order Sample.quiet Sample.br_int
              [DeleteFlows [("in_port", PInt 1)];
               AddFlow [("actions", PStr "drop")];
               ModFlow [("actions", PStr "normal")];
               AddFlow [("priority", PInt 3); ("actions", PStr "normal")]]
              (Sample.world_of []))))).
Defined.

(** ** The deferred bridge: the buffer and the context manager *)

Lemma set_action_flow_tuples_id self :
  action_flow_tuples self = [] -> set_action_flow_tuples [] self = self.
Proof. destruct self; simpl; intros ->; reflexivity. Qed.

Section Buffer.

Variable oracle : list call -> call -> result string * N.

Lemma apply_flows_self self w :
  snd (fst (apply_flows oracle self w)) = set_action_flow_tuples [] self.
Proof.
  unfold apply_flows.
  destruct (action_flow_tuples self) as [|af b]; [reflexivity|].
  destruct (if negb (full_ordered (set_action_flow_tuples [] self))
            then sort_by_weight (weights (set_action_flow_tuples [] self))
                                (af :: b)
            else Ok (af :: b)) as [sorted|e]; [|reflexivity].
  destruct (apply_groups oracle (br (set_action_flow_tuples [] self))
                         (groupby sorted) w); reflexivity.
Qed.

Lemma apply_flows_empty self w :
  action_flow_tuples self = [] -> apply_flows oracle self w = (Ok tt, self, w).
Proof.
  intros H. unfold apply_flows. rewrite H.
  rewrite (set_action_flow_tuples_id self H). reflexivity.
Qed.

(** C2.  With an empty buffer [apply_flows] returns at once: the world,
    and so the list of the commands run, is as before.  Whatever the
    buffer, and whether [apply_flows] returns or raises, the object it
    leaves has an empty buffer: the buffer was taken and replaced before
    the loop that runs the commands, which works on the taken list.  So a
    second [apply_flows] runs nothing. *)
Theorem apply_flows_clears_buffer (self : DeferredOVSBridge) (w : world) :
  (action_flow_tuples self = [] ->
   apply_flows oracle self w = (Ok tt, self, w))
  /\ action_flow_tuples (snd (fst (apply_flows oracle self w))) = []
  /\ (let self' := snd (fst (apply_flows oracle self w)) in
      let w' := snd (apply_flows oracle self w) in
      apply_flows oracle self' w' = (Ok tt, self', w')
      /\ trace (snd (apply_flows oracle self' w')) = trace w').
Proof.
  split; [apply apply_flows_empty|].
  assert (H : action_flow_tuples (snd (fst (apply_flows oracle self w))) = [])
    by (rewrite apply_flows_self; reflexivity).
  split; [exact H|]. cbn zeta.
  rewrite (apply_flows_empty _ _ H). split; reflexivity.
Qed.

(** C5 (amended).  Leaving the block without an exception, [__exit__] is
    [apply_flows].  Leaving it with an exception, [__exit__] runs no
    command and leaves the object as it is, the buffered operations
    still in its buffer; it returns [None], so the [with] statement
    raises the exception of the block again. *)
Theorem deferred_exit (self : DeferredOVSBridge) (w : world) :
  DeferredOVSBridge_exit oracle None self w = apply_flows oracle self w
  /\ (forall e,
        DeferredOVSBridge_exit oracle (Some e) self w = (Ok tt, self, w))
  /\ (forall (A : Type) (body : D A) e self1 w1,
        body self w = (Raise e, self1, w1) ->
        with_deferred oracle body self w = (Raise e, self1, w1))
  /\ (forall (A : Type) (body : D A) a self1 w1,
        body self w = (Ok a, self1, w1) ->
        with_deferred oracle body self w
        = (match fst (fst (apply_flows oracle self1 w1)) with
           | Ok _ => Ok a
           | Raise e => Raise e
           end,
           snd (fst (apply_flows oracle self1 w1)),
           snd (apply_flows oracle self1 w1))).
Proof.
  repeat split.
  - intros A body e self1 w1 H. unfold with_deferred. simpl. rewrite H.
    reflexivity.
  - intros A body a self1 w1 H. unfold with_deferred. simpl. rewrite H.
    destruct (apply_flows oracle self1 w1) as [[[u|e] self2] w2];
      reflexivity.
Qed.

End Buffer.

Lemma apply_flows_clears_buffer_witness :
  apply_flows Sample.quiet (deferred Sample.br_int) (Sample.world_of [])
  = (Ok tt, deferred Sample.br_int, Sample.world_of []).
Proof.
  exact (proj1 (apply_flows_clears_buffer Sample.quiet
                  (deferred Sample.br_int) (Sample.world_of [])) eq_refl).
Defined.

Lemma deferred_exit_witness :
  with_deferred Sample.quiet failing_block (deferred Sample.br_int)
                (Sample.world_of [])
  = (Raise (RuntimeError "boom"),
     set_action_flow_tuples [("add", 0%nat)] (deferred Sample.br_int),
     Sample.world_of [[("actions", PStr "drop")]]).
Proof.
  exact (proj1 (proj2 (proj2
           (deferred_exit Sample.quiet (deferred Sample.br_int)
                          (Sample.world_of []))))
           unit failing_block (RuntimeError "boom") _ _ eq_refl).
Defined.

(** C5, as stated, fails on "the pending operations are discarded": were
    they discarded, an [apply_flows] after a block that failed would run
    nothing.  After [failing_block] the addition it had buffered is still
    in the buffer, and the next [apply_flows] on the object runs it. *)
Lemma deferred_exit_keeps_buffer :
  ~ (forall (body : D unit) self w,
        is_ok (fst (fst (body self w))) = false ->
        let res := with_deferred Sample.quiet body self w in
        trace (snd (apply_flows Sample.quiet (snd (fst res)) (snd res)))
        = trace (snd res)).
Proof.
  intros H.
  specialize (H failing_block (deferred Sample.br_int) (Sample.world_of [])
                eq_refl).
  vm_compute in H. discriminate H.
Qed.

(** ** [db_str_to_map] *)

Lemma string_of_list_ascii_snoc l c :
  string_of_list_ascii (l ++ [c])
  = string_of_list_ascii l +:+ String c EmptyString.
Proof. induction l as [|a l IH]; simpl; [reflexivity|]. now rewrite IH. Qed.

Lemma append_assoc_snoc (s : string) c t :
  (s +:+ String c EmptyString) +:+ t = s +:+ String c t.
Proof.
  induction s as [|a s IH]; [reflexivity|].
  change (String a ((s +:+ String c EmptyString) +:+ t)
          = String a (s +:+ String c t)).
  f_equal. exact IH.
Qed.

Lemma append_nil_r (s : string) : s +:+ EmptyString = s.
Proof.
  induction s as [|a s IH]; [reflexivity|].
  change (String a (s +:+ EmptyString) = String a s). f_equal. exact IH.
Qed.

Lemma prefix_eq_char c s :
  String.prefix "=" (String c s) = Ascii.eqb c "=".
Proof.
  change (String.prefix "=" (String c s))
    with (if ascii_dec "=" c then String.prefix EmptyString s else false).
  destruct (ascii_dec "=" c) as [<-|Hne].
  - destruct s; reflexivity.
  - symmetry. apply Ascii.eqb_neq. congruence.
Qed.

(** [split("=")] in terms of the first [=]: the text before it, then the
    split of the text after it. *)
Lemma split_aux_eq acc s :
  Py.split_aux "=" 0 acc s
  = match split_first "=" s with
    | Some (k, v) =>
        (string_of_list_ascii (rev acc) +:+ k) :: Py.split_aux "=" 0 [] v
    | None => [string_of_list_ascii (rev acc) +:+ s]
    end.
Proof.
  revert acc. induction s as [|c s IH]; intros acc.
  - simpl. rewrite append_nil_r. reflexivity.
  - cbn [Py.split_aux split_first]. rewrite prefix_eq_char.
    destruct (Ascii.eqb c "=") eqn:E.
    + simpl. rewrite append_nil_r. reflexivity.
    + rewrite IH. simpl rev. rewrite string_of_list_ascii_snoc.
      destruct (split_first "=" s) as [[k v]|];
        rewrite append_assoc_snoc; reflexivity.
Qed.

Lemma split_eq s :
  Py.split "=" s
  = match split_first "=" s with
    | Some (k, v) => k :: Py.split "=" v
    | None => [s]
    end.
Proof. unfold Py.split. rewrite split_aux_eq. reflexivity. Qed.

Lemma find_from_eq s i :
  0 <= i ->
  match split_first "=" s with
  | Some _ => 0 <= Py.find_from "=" s i
  | None => Py.find_from "=" s i = -1
  end.
Proof.
  revert i. induction s as [|c s IH]; intros i Hi; [reflexivity|].
  cbn [Py.find_from split_first]. rewrite prefix_eq_char.
  destruct (Ascii.eqb c "=") eqn:E; [exact Hi|].
  specialize (IH (i + 1) ltac:(lia)).
  destruct (split_first "=" s) as [[k v]|]; exact IH.
Qed.

(** An entry of the map string, decoded: nothing without [=]; otherwise
    the key is the text before the first [=] and the value is what
    [split] puts in second place. *)
Lemma db_str_to_map_entry_eq ret e :
  db_str_to_map_entry ret e
  = Ok (match split_first "=" e with
        | Some (k, v) => <[k := Py.strip quote (up_to_eq v)]> ret
        | None => ret
        end).
Proof.
  unfold db_str_to_map_entry, Py.find.
  pose proof (find_from_eq e 0 ltac:(lia)) as Hf.
  rewrite split_eq.
  destruct (split_first "=" e) as [[k v]|].
  - destruct (Z.eqb_spec (Py.find_from "=" e 0) (-1)) as [E|_]; [lia|].
    rewrite split_eq. unfold up_to_eq.
    destruct (split_first "=" v) as [[v1 v2]|]; reflexivity.
  - rewrite Hf. reflexivity.
Qed.

Lemma db_str_to_map_loop_eq ret l :
  db_str_to_map_loop ret l
  = Ok (fold_left (fun ret e =>
                     match split_first "=" e with
                     | Some (k, v) => <[k := Py.strip quote (up_to_eq v)]> ret
                     | None => ret
                     end) l ret).
Proof.
  revert ret. induction l as [|e l IH]; intros ret; [reflexivity|].
  cbn [db_str_to_map_loop fold_left]. rewrite db_str_to_map_entry_eq.
  apply IH.
Qed.

Lemma decode_lookup_absent (k : string) l :
  forall ret : gmap string string,
    (forall e, In e l -> ~ entry_key e k) ->
    fold_left (fun ret e =>
                 match split_first "=" e with
                 | Some (k, v) => <[k := Py.strip quote (up_to_eq v)]> ret
                 | None => ret
                 end) l ret !! k
    = ret !! k.
Proof.
  induction l as [|e l IH]; intros ret H; [reflexivity|].
  cbn [fold_left]. rewrite IH by (intros e' He'; apply H; right; exact He').
  destruct (split_first "=" e) as [[k' v]|] eqn:E; [|reflexivity].
  apply lookup_insert_ne. intros ->. apply (H e); [left; reflexivity|].
  exists v. exact E.
Qed.

Lemma decode_lookup_last (k v e : string) l1 l2 :
  forall ret : gmap string string,
    split_first "=" e = Some (k, v) ->
    (forall e', In e' l2 -> ~ entry_key e' k) ->
    fold_left (fun ret e =>
                 match split_first "=" e with
                 | Some (k, v) => <[k := Py.strip quote (up_to_eq v)]> ret
                 | None => ret
                 end) (l1 ++ e :: l2) ret !! k
    = Some (Py.strip quote (up_to_eq v)).
Proof.
  intros ret E H. rewrite fold_left_app. cbn [fold_left].
  rewrite (decode_lookup_absent k l2 _ H), E. apply lookup_insert_eq.
Qed.

(** C9 (amended).  [db_str_to_map] never raises.  It strips every leading
    and every trailing brace of the string, splits the rest on [", "] and
    skips the entries without [=].  Whatever the other entries are, the
    last entry whose text before the first [=] is a given key maps that
    key to the text between its first [=] and its second, or to all the
    text after its first [=] when it has a single one, with the double
    quotes at both ends stripped; a key that no entry has is not in the
    map.  So when every entry has at most one [=] the map is the one of
    the entries split on their first [=]; in particular the string
    [{a="1", b="2"}] decodes to the map of [a] to [1] and [b] to [2]. *)
Theorem db_str_to_map_decodes (full_str : string) :
  (exists m, db_str_to_map full_str = Ok m)
  /\ (forallb single_eq (Py.split ", " (Py.strip "{}" full_str)) = true ->
      db_str_to_map full_str
      = Ok (entries_to_map (Py.split ", " (Py.strip "{}" full_str))))
  /\ db_str_to_map ("{a=" +:+ quote +:+ "1" +:+ quote
                    +:+ ", b=" +:+ quote +:+ "2" +:+ quote +:+ "}")
     = Ok (<["a" := "1"]> (<["b" := "2"]> ∅))
  /\ (forall m l1 e l2 k v,
        db_str_to_map full_str = Ok m ->
        Py.split ", " (Py.strip "{}" full_str) = l1 ++ e :: l2 ->
        split_first "=" e = Some (k, v) ->
        (forall e', In e' l2 -> ~ entry_key e' k) ->
        m !! k = Some (Py.strip quote (up_to_eq v))
        /\ (split_first "=" v = None -> m !! k = Some (Py.strip quote v)))
  /\ (forall m k,
        db_str_to_map full_str = Ok m ->
        (forall e, In e (Py.split ", " (Py.strip "{}" full_str)) ->
                   ~ entry_key e k) ->
        m !! k = None).
Proof.
  unfold db_str_to_map. rewrite db_str_to_map_loop_eq.
  split; [eauto|]. split; [|split; [vm_compute; reflexivity|split]].
  - intros Hs. f_equal. unfold entries_to_map.
    generalize (∅ : gmap string string).
    induction (Py.split ", " (Py.strip "{}" full_str)) as [|e l IH];
      intros ret; [reflexivity|].
    simpl in Hs. apply andb_true_iff in Hs as [He Hl].
    cbn [fold_left]. rewrite (IH Hl). f_equal.
    unfold single_eq in He. unfold up_to_eq.
    destruct (split_first "=" e) as [[k v]|]; [|reflexivity].
    destruct (split_first "=" v); [discriminate|reflexivity].
  - intros m l1 e l2 k v Hm Hl He Hlast. injection Hm as <-. rewrite Hl.
    rewrite (decode_lookup_last k v e l1 l2 _ He Hlast).
    split; [reflexivity|]. intros Hv. unfold up_to_eq. rewrite Hv.
    reflexivity.
  - intros m k Hm Hnone. injection Hm as <-.
    rewrite (decode_lookup_absent k _ _ Hnone). apply lookup_empty.
Qed.

Lemma db_str_to_map_decodes_witness :
  (forallb single_eq
           (Py.split ", " (Py.strip "{}" "{rx_bytes=12, rx_errors=0}"))
   = true
   /\ db_str_to_map "{rx_bytes=12, rx_errors=0}"
      = Ok (entries_to_map ["rx_bytes=12"; "rx_errors=0"]))
  /\ (db_str_to_map "{a=1, k=x=y}" = Ok (<["k" := "x"]> {["a" := "1"]})
      /\ (<["k" := "x"]> {["a" := "1"]} : gmap string string) !! "a"
         = Some "1").
Proof.
  split.
  - split; [reflexivity|].
    exact (proj1 (proj2 (db_str_to_map_decodes "{rx_bytes=12, rx_errors=0}"))
             eq_refl).
  - split; [vm_compute; reflexivity|].
    refine (proj2 (proj1 (proj2 (proj2 (proj2
              (db_str_to_map_decodes "{a=1, k=x=y}"))))
              _ [] "a=1" ["k=x=y"] "a" "1" _ eq_refl eq_refl _) eq_refl).
    + vm_compute. reflexivity.
    + intros e' [<-|[]] [v Hv]. discriminate Hv.
Defined.

(** C9, as stated, fails twice: [split("=")] cuts the value at a second
    [=] of the entry, while a split on the first [=] keeps it whole; and
    [strip("{}")] removes all the braces at both ends, not one pair. *)
Lemma db_str_to_map_not_first_eq :
  ~ (forall full_str,
        db_str_to_map full_str = Ok (db_str_to_map_spec full_str))
  /\ db_str_to_map "{k=a=b}" = Ok {["k" := "a"]}
  /\ db_str_to_map_spec "{k=a=b}" = {["k" := "a=b"]}
  /\ db_str_to_map "{{a=1}}" = Ok {["a" := "1"]}
  /\ db_str_to_map_spec "{{a=1}}" = {["{a" := "1}"]}.
Proof.
  split; [|vm_compute; repeat split].
  intros H. specialize (H "{k=a=b}"). vm_compute in H. discriminate H.
Qed.

(** ** Waiting for the ofport *)

Lemma exponential_sleep_pos k : 10 <= exponential_sleep k.
Proof.
  unfold exponential_sleep, wait_exponential_multiplier, wait_exponential_max.
  assert (0 < 2 ^ Z.of_nat (Nat.pred k)) by (apply Z.pow_pos_nonneg; lia).
  lia.
Qed.

Section Poll.

Variable oracle : list call -> call -> result string * N.
Variable self : OVSBridge.
Variable port_name : string.

Local Abbreviation poll :=
  (db_get_val oracle self "Interface" port_name "ofport" false).

Lemma poll_eq w :
  poll w
  = (Ok (poll_value (fst (oracle (trace w) (ofport_call self port_name)))),
     after_call (ofport_call self port_name)
                (snd (oracle (trace w) (ofport_call self port_name))) w).
Proof.
  unfold db_get_val, bind. rewrite run_vsctl_eq. cbv zeta.
  fold (ofport_call self port_name). unfold poll_value, after_call.
  destruct (fst (oracle (trace w) (ofport_call self port_name))) as [out|e];
    [|reflexivity].
  destruct (truthy (Some out)); reflexivity.
Qed.

(** The retry loop on the poll only adds polls to the trace, and never
    lets an exception other than [RetryError] out. *)
Lemma retry_poll_shape fuel start a w r w' :
  retry_call fuel _ofport_result_pending (deadline self) poll start a w
  = Some (r, w') ->
  (exists n, trace w' = trace w ++ repeat (ofport_call self port_name) n)
  /\ store w' = store w
  /\ match r with
     | Ok v => _ofport_result_pending v = false
     | Raise e => e = RetryError /\ deadline self < now w' - start
     end.
Proof.
  revert a w. induction fuel as [|fuel IH]; intros a w H; [discriminate|].
  cbn [retry_call] in H. rewrite poll_eq in H.
  set (v := poll_value _) in H. set (w1 := after_call _ _ w) in H.
  assert (Ht : trace w1 = trace w ++ repeat (ofport_call self port_name) 1)
    by reflexivity.
  destruct (_ofport_result_pending v) eqn:Hp; simpl negb in H; cbv iota in H.
  - destruct (Z.ltb_spec (deadline self) (now w1 - start)) as [Hlt|Hge].
    + injection H as <- <-. split; [eauto|]. split; [reflexivity|]. auto.
    + apply IH in H as ([n Hn] & Hs & Hr). simpl in Hn, Hs.
      split; [|split; [exact Hs | exact Hr]].
      exists (S n). rewrite Hn, <- app_assoc. reflexivity.
  - injection H as <- <-. split; [eauto|]. split; [reflexivity|exact Hp].
Qed.

(** The loop ends: a wait lasts at least a millisecond and the clock
    does not go back, so the (deadline self) is exceeded after a number of
    attempts that the time left bounds. *)
Lemma retry_poll_total fuel start a w :
  (Z.to_nat ((deadline self) - (now w - start) + 1) < fuel)%nat ->
  exists r, retry_call fuel _ofport_result_pending (deadline self) poll start a w
            = Some r.
Proof.
  revert a w. induction fuel as [|fuel IH]; intros a w Hf; [lia|].
  cbn [retry_call]. rewrite poll_eq.
  set (v := poll_value _). set (w1 := after_call _ _ w).
  assert (Hn : now w <= now w1) by (unfold w1, after_call; simpl; lia).
  destruct (negb (_ofport_result_pending v)); [eauto|].
  destruct (Z.ltb_spec (deadline self) (now w1 - start)) as [Hlt|Hge]; [eauto|].
  apply IH. simpl now.
  pose proof (exponential_sleep_pos a). lia.
Qed.

Lemma _get_port_ofport_total w :
  exists r, _get_port_ofport oracle self port_name w = Some r.
Proof.
  unfold _get_port_ofport. fold (deadline self).
  apply retry_poll_total. unfold retry_fuel. lia.
Qed.

(** [get_port_ofport] always returns: a value that is not pending, or
    the invalid ofport once the time is over. *)
Lemma get_port_ofport_returns w :
  exists v w',
    get_port_ofport oracle self port_name w = Some (Ok v, w')
    /\ (exists n, trace w' = trace w ++ repeat (ofport_call self port_name) n)
    /\ store w' = store w
    /\ _ofport_result_pending v = false
    /\ match _get_port_ofport oracle self port_name w with
       | Some (Ok v', _) => v = v'
       | Some (Raise _, _) =>
           v = Some INVALID_OFPORT /\ (deadline self) < now w' - now w
       | None => False
       end.
Proof.
  destruct (_get_port_ofport_total w) as [[r w'] E].
  unfold get_port_ofport. rewrite E.
  unfold _get_port_ofport in E. fold (deadline self) in E.
  apply retry_poll_shape in E as (Hn & Hs & Hr).
  destruct r as [v|e].
  - exists v, w'. auto.
  - destruct Hr as [-> Hd]. exists (Some INVALID_OFPORT), w'. auto 10.
Qed.

End Poll.

(** The polls of a wait that starts in the world [w]: the [i]-th poll
    (counted from 0) finds [i] polls behind the trace of [w]. *)
Section Polls.

Variable oracle : list call -> call -> result string * N.
Variable self : OVSBridge.
Variable port_name : string.
Variable w : world.

Lemma before_ge i : Z.of_nat i <= before oracle self port_name w i.
Proof.
  induction i as [|i IH]; [reflexivity|]. cbn [before].
  pose proof (exponential_sleep_pos (S i)). lia.
Qed.

Lemma poll_at i :
  db_get_val oracle self "Interface" port_name "ofport" false
             (state_before oracle self port_name w i)
  = (Ok (polled oracle self port_name w i),
     state_after oracle self port_name w i).
Proof. rewrite poll_eq. reflexivity. Qed.

Lemma state_before_S i :
  sleep (exponential_sleep (S i)) (state_after oracle self port_name w i)
  = state_before oracle self port_name w (S i).
Proof.
  unfold sleep, state_after, after_call, state_before. simpl.
  f_equal; [|lia].
  rewrite <- app_assoc. f_equal. symmetry. apply repeat_cons.
Qed.

Lemma retry_converges K n :
  forall j fuel,
    (j + n = K)%nat -> (n < fuel)%nat ->
    (forall i, (i < K)%nat ->
               _ofport_result_pending (polled oracle self port_name w i) = true
               /\ elapsed oracle self port_name w i < deadline self) ->
    _ofport_result_pending (polled oracle self port_name w K) = false ->
    retry_call fuel _ofport_result_pending (deadline self)
               (db_get_val oracle self "Interface" port_name "ofport" false)
               (now w) (S j) (state_before oracle self port_name w j)
    = Some (Ok (polled oracle self port_name w K),
            state_after oracle self port_name w K).
Proof.
  induction n as [|n IH]; intros j fuel Hj Hf Hpend Hres;
    (destruct fuel as [|fuel]; [lia|]); cbn [retry_call]; rewrite poll_at.
  - replace j with K by lia. rewrite Hres. reflexivity.
  - destruct (Hpend j ltac:(lia)) as [Hp Hd]. rewrite Hp.
    simpl negb. cbv iota.
    assert (Hn : now (state_after oracle self port_name w j) - now w
                 = elapsed oracle self port_name w j)
      by (unfold state_after, after_call, state_before, elapsed; simpl; lia).
    rewrite Hn.
    destruct (Z.ltb_spec (deadline self) (elapsed oracle self port_name w j))
      as [Hlt|_]; [lia|].
    rewrite state_before_S. apply IH; try assumption; lia.
Qed.

Lemma get_port_ofport_converges K :
  (forall i, (i < K)%nat ->
             _ofport_result_pending (polled oracle self port_name w i) = true
             /\ elapsed oracle self port_name w i < deadline self) ->
  _ofport_result_pending (polled oracle self port_name w K) = false ->
  get_port_ofport oracle self port_name w
  = Some (Ok (polled oracle self port_name w K),
          state_after oracle self port_name w K).
Proof.
  intros Hpend Hres. unfold get_port_ofport, _get_port_ofport.
  fold (deadline self).
  assert (Hw : w = state_before oracle self port_name w 0).
  { unfold state_before. simpl. rewrite app_nil_r, Z.add_0_r.
    destruct w; reflexivity. }
  assert (Hf : (K < retry_fuel (deadline self))%nat).
  { unfold retry_fuel. destruct K as [|K]; [lia|].
    destruct (Hpend K ltac:(lia)) as [_ Hd].
    pose proof (before_ge K). unfold elapsed in Hd. lia. }
  pose proof (retry_converges K K 0%nat (retry_fuel (deadline self))
                eq_refl Hf Hpend Hres) as H.
  rewrite <- Hw in H. rewrite H. reflexivity.
Qed.

End Polls.

Lemma retry_poll_value oracle self port_name fuel start a w v w' :
  retry_call fuel _ofport_result_pending (deadline self)
             (db_get_val oracle self "Interface" port_name "ofport" false)
             start a w
  = Some (Ok v, w') ->
  exists tr, v = poll_value (fst (oracle tr (ofport_call self port_name))).
Proof.
  revert a w. induction fuel as [|fuel IH]; intros a w H; [discriminate|].
  cbn [retry_call] in H. rewrite poll_eq in H.
  destruct (negb (_ofport_result_pending
                    (poll_value
                       (fst (oracle (trace w) (ofport_call self port_name))))));
    [injection H as <- <-; eauto|].
  match type of H with
  | (if ?b then _ else _) = _ => destruct b; [discriminate|]
  end.
  eapply IH, H.
Qed.

(** C6.  A polled value is pending exactly when [int] does not accept it:
    it is [None] or a string that is not an integer literal.  When the
    first [K] polls are pending, each ending before the deadline of
    [vsctl_timeout * 1000] milliseconds has passed since the start, and
    the next poll is not pending, [get_port_ofport] returns the value of
    that poll.  When no poll ever answers an integer, [get_port_ofport]
    returns [INVALID_OFPORT], without raising, once the deadline has
    passed.  The retry loop is the model of the [retrying] library that
    [retry_call] gives. *)
Theorem ofport_wait oracle (self : OVSBridge) (port_name : string) (w : world) :
  (forall r,
      _ofport_result_pending r = true
      <-> match r with
          | Some s => Py.int_of_str s = None
          | None => True
          end)
  /\ (forall K,
        (forall i, (i < K)%nat ->
                   _ofport_result_pending (polled oracle self port_name w i)
                   = true
                   /\ elapsed oracle self port_name w i < deadline self) ->
        _ofport_result_pending (polled oracle self port_name w K) = false ->
        get_port_ofport oracle self port_name w
        = Some (Ok (polled oracle self port_name w K),
                state_after oracle self port_name w K))
  /\ ((forall tr,
          _ofport_result_pending
            (poll_value (fst (oracle tr (ofport_call self port_name))))
          = true) ->
      exists w',
        get_port_ofport oracle self port_name w
        = Some (Ok (Some INVALID_OFPORT), w')
        /\ deadline self <= now w' - now w).
Proof.
  split; [|split].
  - intros [s|]; simpl; [|tauto].
    destruct (Py.int_of_str s); split; congruence.
  - apply get_port_ofport_converges.
  - intros Hnever.
    destruct (get_port_ofport_returns oracle self port_name w)
      as (v & w' & E & _ & _ & _ & Hv).
    destruct (_get_port_ofport oracle self port_name w) as [[[v'|e] w1]|] eqn:E1;
      [|destruct Hv as [-> Hd]; exists w'; split; [exact E | lia]|contradiction].
    unfold _get_port_ofport in E1. fold (deadline self) in E1.
    pose proof (retry_poll_shape _ _ _ _ _ _ _ _ _ E1) as (_ & _ & Hp).
    apply retry_poll_value in E1 as [tr ->].
    rewrite Hnever in Hp. discriminate.
Qed.

Lemma ofport_wait_witness :
  get_port_ofport (Sample.ofport_after 2 "5") Sample.br_int "tap0"
                  (Sample.world_of [])
  = Some (Ok (Some "5"),
          state_after (Sample.ofport_after 2 "5") Sample.br_int "tap0"
                      (Sample.world_of []) 2).
Proof.
  refine (proj1 (proj2 (ofport_wait (Sample.ofport_after 2 "5") Sample.br_int
                                    "tap0" (Sample.world_of [])))
            2%nat _ eq_refl).
  intros i Hi. destruct i as [|[|i]]; [split; reflexivity .. | lia].
Defined.

(** ** [add_port] *)

Lemma is_invalid_ofport_spec ofport :
  is_invalid_ofport ofport = true <-> ofport = Some INVALID_OFPORT.
Proof.
  destruct ofport as [s|]; simpl; [|split; discriminate].
  rewrite String.eqb_eq. split; congruence.
Qed.

Lemma del_port_call_fresh self port_name interface_options n :
  ~ In (del_port_call self port_name)
       (add_port_call self port_name interface_options
        :: repeat (ofport_call self port_name) n).
Proof.
  intros [H|H].
  - unfold add_port_call, del_port_call, vsctl_call, vsctl_args,
      add_port_args in H.
    destruct interface_options; simpl in H; congruence.
  - apply repeat_spec in H. discriminate H.
Qed.

Section AddPort.

Variable oracle : list call -> call -> result string * N.

Lemma delete_port_eq self port_name w :
  delete_port oracle self port_name w
  = (Ok tt,
     after_call (del_port_call self port_name)
                (snd (oracle (trace w) (del_port_call self port_name))) w).
Proof.
  unfold delete_port, bind. rewrite run_vsctl_eq. cbv zeta.
  fold (del_port_call self port_name).
  destruct (fst (oracle (trace w) (del_port_call self port_name)));
    reflexivity.
Qed.

(** C7.  [add_port] runs the [add-port] command and waits for the
    ofport, which only polls.  When the ofport it gets is
    [INVALID_OFPORT], it then runs [del-port] on the port and returns
    [INVALID_OFPORT]; otherwise it returns the ofport, and no [del-port]
    is among the commands it has run. *)
Theorem add_port_invalid_ofport (self : OVSBridge) (port_name : string)
        (interface_options : list (string * pyval)) (w : world) :
  let add_call := add_port_call self port_name interface_options in
  let del_call := del_port_call self port_name in
  let w1 := after_call add_call (snd (oracle (trace w) add_call)) w in
  exists ofport n w2,
    get_port_ofport oracle self port_name w1 = Some (Ok ofport, w2)
    /\ trace w2
       = trace w ++ add_call :: repeat (ofport_call self port_name) n
    /\ ~ In del_call (add_call :: repeat (ofport_call self port_name) n)
    /\ (ofport = Some INVALID_OFPORT ->
        add_port oracle self port_name interface_options w
        = Some (Ok (Some INVALID_OFPORT),
                after_call del_call (snd (oracle (trace w2) del_call)) w2))
    /\ (ofport <> Some INVALID_OFPORT ->
        add_port oracle self port_name interface_options w
        = Some (Ok ofport, w2)).
Proof.
  cbv zeta.
  set (add_call := add_port_call self port_name interface_options).
  set (w1 := after_call add_call (snd (oracle (trace w) add_call)) w).
  destruct (get_port_ofport_returns oracle self port_name w1)
    as (ofport & w2 & E & [n Hn] & _).
  exists ofport, n, w2.
  assert (Hrun : run_vsctl oracle self
                   (add_port_args self port_name interface_options) false w
                 = (match fst (oracle (trace w) add_call) with
                    | Ok out => Ok (Some out)
                    | Raise _ => Ok None
                    end, w1)) by (rewrite run_vsctl_eq; reflexivity).
  assert (Hadd : add_port oracle self port_name interface_options w
                 = if is_invalid_ofport ofport
                   then Some (Ok ofport,
                              after_call (del_port_call self port_name)
                                (snd (oracle (trace w2)
                                             (del_port_call self port_name)))
                                w2)
                   else Some (Ok ofport, w2)).
  { unfold add_port. rewrite Hrun.
    destruct (fst (oracle (trace w) add_call)); rewrite E;
      (destruct (is_invalid_ofport ofport);
       [rewrite delete_port_eq|]; reflexivity). }
  split; [exact E|]. split.
  { rewrite Hn. unfold w1, after_call. simpl. rewrite <- app_assoc.
    reflexivity. }
  split; [apply del_port_call_fresh|]. split.
  - intros ->. rewrite Hadd. reflexivity.
  - intros Hne. rewrite Hadd.
    destruct (is_invalid_ofport ofport) eqn:Ei; [|reflexivity].
    apply is_invalid_ofport_spec in Ei. contradiction.
Qed.

End AddPort.

Lemma add_port_invalid_ofport_witness :
  let oracle := Sample.ofport_after 1 "-1" in
  let self := Sample.br_int in
  let w := Sample.world_of [] in
  let add_call := add_port_call self "tap0" [] in
  let del_call := del_port_call self "tap0" in
  let w1 := after_call add_call (snd (oracle (trace w) add_call)) w in
  exists ofport n w2,
    get_port_ofport oracle self "tap0" w1 = Some (Ok ofport, w2)
    /\ trace w2 = trace w ++ add_call :: repeat (ofport_call self "tap0") n
    /\ ~ In del_call (add_call :: repeat (ofport_call self "tap0") n)
    /\ (ofport = Some INVALID_OFPORT ->
        add_port oracle self "tap0" [] w
        = Some (Ok (Some INVALID_OFPORT),
                after_call del_call (snd (oracle (trace w2) del_call)) w2))
    /\ (ofport <> Some INVALID_OFPORT ->
        add_port oracle self "tap0" [] w = Some (Ok ofport, w2)).
Proof.
  exact (add_port_invalid_ofport (Sample.ofport_after 1 "-1") Sample.br_int
                                 "tap0" [] (Sample.world_of [])).
Defined.

(** ** The VIF ports *)

Lemma has_key_getitem d k :
  has_key d k = true -> exists v, d !! k = Some v /\ getitem d k = ret v.
Proof.
  unfold has_key, getitem. intros H. apply bool_decide_eq_true in H as [v Hv].
  exists v. rewrite Hv. auto.
Qed.


Section Vif.

Variable oracle : list call -> call -> result string * N.
Variable loads_data : string -> result (list row).
Variable self : OVSBridge.


(** A row that adds to the set has a ready ofport and the metadata. *)
Lemma get_vif_port_set_step_ok edge_ports r w edge_ports' w' :
  get_vif_port_set_step oracle self edge_ports r w = (Ok edge_ports', w') ->
  edge_ports' = edge_ports
  \/ (ofport_ready r = true
      /\ vif_metadata (dict_of_pairs (row_external_ids r)) = true
      /\ exists x, edge_ports' = {[x]} ∪ edge_ports
                   /\ (has_key (dict_of_pairs (row_external_ids r)) "iface-id"
                       = true ->
                       dict_of_pairs (row_external_ids r) !! "iface-id"
                       = Some x)).
Proof.
  unfold ofport_ready, vif_metadata, get_vif_port_set_step.
  set (ids := dict_of_pairs (row_external_ids r)).
  destruct (integral (row_ofport r)) as [n|];
    [|intros [= <- <-]; left; reflexivity].
  destruct (n <? 1); [intros [= <- <-]; left; reflexivity|].
  destruct (has_key ids "attached-mac");
    [|intros [= <- <-]; left; reflexivity].
  destruct (has_key ids "iface-id") eqn:Hi.
  - destruct (has_key_getitem ids "iface-id" Hi) as (v & Hv & ->).
    intros [= <- <-]. right. repeat split. exists v. auto.
  - destruct (has_key ids "xs-vif-uuid") eqn:Hx;
      [|intros [= <- <-]; left; reflexivity].
    destruct (has_key_getitem ids "xs-vif-uuid" Hx) as (u & Hu & ->).
    unfold bind, ret.
    destruct (get_xapi_iface_id oracle self u w) as [[x|e] w1];
      [|discriminate].
    intros [= <- <-]. right. repeat split. exists x.
    split; [reflexivity|discriminate].
Qed.


Lemma get_vif_port_set_loop_members rows :
  forall edge_ports w edge_ports' w' x,
    get_vif_port_set_loop oracle self edge_ports rows w
    = (Ok edge_ports', w') ->
    x ∈ edge_ports' ->
    x ∈ edge_ports
    \/ exists r, In r rows
                 /\ ofport_ready r = true
                 /\ vif_metadata (dict_of_pairs (row_external_ids r)) = true.
Proof.
  induction rows as [|r rows IH]; intros edge_ports w edge_ports' w' x H Hx.
  - injection H as <- <-. left. exact Hx.
  - cbn [get_vif_port_set_loop] in H. unfold bind in H.
    destruct (get_vif_port_set_step oracle self edge_ports r w)
      as [[s|e] w1] eqn:E; [|discriminate].
    destruct (IH _ _ _ _ _ H Hx) as [Hs|(r' & Hin & Hr)].
    + apply get_vif_port_set_step_ok in E
        as [->|(Hready & Hmeta & y & -> & _)]; [left; exact Hs|].
      apply elem_of_union in Hs as [Hs|Hs]; [|left; exact Hs].
      right. exists r. split; [left; reflexivity | split; assumption].
    + right. exists r'. split; [right; exact Hin | exact Hr].
Qed.










End Vif.



(** * Further properties *)

(** ** The deferred bridge under other policies *)

Lemma groupby_concat l : concat (List.map snd (groupby l)) = l.
Proof.
  induction l as [|af l IH]; [reflexivity|].
  cbn [groupby]. destruct (groupby l) as [|[k g] gs]; simpl in *.
  - rewrite <- IH. reflexivity.
  - destruct (String.eqb (fst af) k); simpl; rewrite <- IH; reflexivity.
Qed.

Lemma groupby_runs l : Forall is_run (groupby l).
Proof.
  induction l as [|af l IH]; [constructor|].
  cbn [groupby]. destruct (groupby l) as [|[k g] gs].
  - repeat constructor. discriminate.
  - inversion IH as [|? ? [Hne Hall] Hgs]; subst.
    destruct (String.eqb_spec (fst af) k) as [Hk|Hk].
    + constructor; [|exact Hgs]. split; [discriminate|].
      constructor; [exact Hk | exact Hall].
    + constructor; [|exact IH]. split; [discriminate|].
      repeat constructor.
Qed.

Lemma groupby_runs_differ l : runs_differ (groupby l).
Proof.
  induction l as [|af l IH]; [exact I|].
  cbn [groupby]. destruct (groupby l) as [|[k g] gs].
  - simpl. auto.
  - destruct (String.eqb_spec (fst af) k) as [Hk|Hk].
    + exact IH.
    + split; [exact Hk | exact IH].
Qed.

Section Policies.

Variable oracle : list call -> call -> result string * N.

(** X1.  With [full_ordered] set, [apply_flows] does not reorder: it calls
    [do_action_flows] once per maximal run of neighbours with the same
    action, and the runs, put end to end, are the buffer in its
    submission order. *)
Theorem apply_flows_full_ordered (self : DeferredOVSBridge) (w : world) :
  full_ordered self = true ->
  let groups := groupby (action_flow_tuples self) in
  apply_flows oracle self w
  = (fst (apply_groups oracle (br self) groups w),
     set_action_flow_tuples [] self,
     snd (apply_groups oracle (br self) groups w))
  /\ concat (List.map snd groups) = action_flow_tuples self
  /\ Forall is_run groups
  /\ runs_differ groups.
Proof.
  intros Hf groups. subst groups.
  split; [|split; [apply groupby_concat
                  |split; [apply groupby_runs|apply groupby_runs_differ]]].
  unfold apply_flows.
  destruct (action_flow_tuples self) as [|af b]; [reflexivity|].
  cbn [full_ordered br set_action_flow_tuples]. rewrite Hf. simpl negb.
  cbv iota.
  destruct (apply_groups oracle (br self) (groupby (af :: b)) w); reflexivity.
Qed.

Lemma sort_keys_unknown weights b af :
  In af b -> weights !! fst af = None ->
  exists k, sort_keys weights b = Raise (KeyError k) /\ weights !! k = None.
Proof.
  intros Hin Hnone. induction b as [|x b IH]; [destruct Hin|].
  cbn [sort_keys]. unfold sort_key at 1.
  destruct (weights !! fst x) as [n|] eqn:Ex; [|eauto].
  destruct Hin as [->|Hin]; [congruence|].
  destruct (IH Hin) as (k & -> & Hk). eauto.
Qed.

(** X2.  Without [full_ordered], a buffered operation whose action is not
    in [order] makes [apply_flows] raise [KeyError] while it sorts: no
    command has been run, and the buffer is already empty, so the
    buffered operations are lost. *)
Theorem apply_flows_unknown_action (self : DeferredOVSBridge) (w : world)
        (af : string * ref) :
  full_ordered self = false ->
  In af (action_flow_tuples self) ->
  weights self !! fst af = None ->
  exists k,
    apply_flows oracle self w
    = (Raise (KeyError k), set_action_flow_tuples [] self, w)
    /\ weights self !! k = None.
Proof.
  intros Hf Hin Hnone. unfold apply_flows.
  destruct (action_flow_tuples self) as [|x b] eqn:Eb; [destruct Hin|].
  cbn [full_ordered weights set_action_flow_tuples]. rewrite Hf.
  simpl negb. cbv iota. unfold sort_by_weight.
  destruct (sort_keys_unknown (weights self) (x :: b) af Hin Hnone)
    as (k & -> & Hk).
  eauto.
Qed.

End Policies.

Lemma apply_flows_full_ordered_witness :
  let self := set_action_flow_tuples
                [("del", 0%nat); ("add", 1%nat); ("add", 2%nat); ("del", 3%nat)]
                (DeferredOVSBridge_init Sample.br_int true default_order) in
  groupby (action_flow_tuples self)
  = [("del", [("del", 0%nat)]);
     ("add", [("add", 1%nat); ("add", 2%nat)]);
     ("del", [("del", 3%nat)])]
  /\ runs_differ (groupby (action_flow_tuples self)).
Proof.
  split; [reflexivity|].
  exact (proj2 (proj2 (proj2
           (apply_flows_full_ordered Sample.quiet
              (set_action_flow_tuples
                 [("del", 0%nat); ("add", 1%nat); ("add", 2%nat);
                  ("del", 3%nat)]
                 (DeferredOVSBridge_init Sample.br_int true default_order))
              (Sample.world_of []) eq_refl)))).
Defined.

Lemma apply_flows_unknown_action_witness :
  let self := set_action_flow_tuples
                [("add", 0%nat); ("del", 1%nat)]
                (DeferredOVSBridge_init Sample.br_int false ["add"; "mod"]) in
  exists k,
    apply_flows Sample.quiet self (Sample.world_of [[]; []])
    = (Raise (KeyError k), set_action_flow_tuples [] self,
       Sample.world_of [[]; []])
    /\ weights self !! k = None.
Proof.
  exact (apply_flows_unknown_action Sample.quiet
           (set_action_flow_tuples
              [("add", 0%nat); ("del", 1%nat)]
              (DeferredOVSBridge_init Sample.br_int false ["add"; "mod"]))
           (Sample.world_of [[]; []]) ("del", 1%nat)
           eq_refl (or_intror (or_introl eq_refl)) eq_refl).
Defined.

(** ** The sort of [apply_flows], whatever the weights *)

Lemma insert_by_key_perm {A} (x : nat * A) l :
  Permutation (insert_by_key x l) (x :: l).
Proof.
  induction l as [|y l IH]; simpl; [reflexivity|].
  destruct (fst x <=? fst y)%nat; [reflexivity|].
  rewrite IH. apply perm_swap.
Qed.

Lemma stable_sort_perm {A} (l : list (nat * A)) :
  Permutation (stable_sort l) l.
Proof.
  induction l as [|x l IH]; simpl; [reflexivity|].
  rewrite insert_by_key_perm, IH. reflexivity.
Qed.

Lemma insert_by_key_sorted {A} (x : nat * A) l :
  StronglySorted key_le l -> StronglySorted key_le (insert_by_key x l).
Proof.
  induction 1 as [|y l Hs IH Hy]; simpl; [repeat constructor|].
  destruct (Nat.leb_spec (fst x) (fst y)) as [Hle|Hlt].
  - constructor; [constructor; assumption|].
    constructor; [exact Hle|].
    eapply List.Forall_impl; [|exact Hy]. unfold key_le. intros z Hz.
    simpl in *. lia.
  - constructor; [exact IH|].
    apply List.Forall_forall. intros z Hz.
    apply (Permutation_in _ (insert_by_key_perm x l)) in Hz.
    destruct Hz as [<-|Hz]; [unfold key_le; lia|].
    rewrite List.Forall_forall in Hy. apply Hy, Hz.
Qed.

Lemma stable_sort_sorted {A} (l : list (nat * A)) :
  StronglySorted key_le (stable_sort l).
Proof.
  induction l as [|x l IH]; simpl; [constructor|].
  apply insert_by_key_sorted, IH.
Qed.

(** The insertion goes in front of the elements with the same key. *)
Lemma insert_by_key_filter {A} (x : nat * A) l n :
  List.filter (fun y => Nat.eqb (fst y) n) (insert_by_key x l)
  = List.filter (fun y => Nat.eqb (fst y) n) (x :: l).
Proof.
  induction l as [|y l IH]; [reflexivity|].
  cbn [insert_by_key]. destruct (Nat.leb_spec (fst x) (fst y)) as [Hle|Hlt];
    [reflexivity|].
  cbn [List.filter] in *. rewrite IH.
  destruct (Nat.eqb_spec (fst x) n) as [Hx|Hx],
    (Nat.eqb_spec (fst y) n) as [Hy|Hy]; try reflexivity.
  lia.
Qed.

Lemma stable_sort_filter {A} (l : list (nat * A)) n :
  List.filter (fun y => Nat.eqb (fst y) n) (stable_sort l)
  = List.filter (fun y => Nat.eqb (fst y) n) l.
Proof.
  induction l as [|x l IH]; [reflexivity|].
  cbn [stable_sort]. rewrite insert_by_key_filter.
  cbn [List.filter]. rewrite IH. reflexivity.
Qed.

Lemma sort_keys_known weights b :
  Forall (fun af => is_Some (weights !! fst af)) b ->
  sort_keys weights b
  = Ok (List.map (fun af => (weight_of weights af, af)) b).
Proof.
  induction 1 as [|af b [n Hn] _ IH]; [reflexivity|].
  cbn [sort_keys List.map]. unfold sort_key, weight_of at 1.
  rewrite Hn, IH. reflexivity.
Qed.

Section AnyWeights.

Variable weights : gmap string nat.

Local Abbreviation tag := (fun af : string * nat => (weight_of weights af, af)).

Lemma tagged_perm ks b :
  Permutation ks (List.map tag b) ->
  Forall (fun p => fst p = weight_of weights (snd p)) ks.
Proof.
  intros Hp. apply List.Forall_forall. intros p Hin.
  apply (Permutation_in _ Hp) in Hin. apply in_map_iff in Hin as (af & <- & _).
  reflexivity.
Qed.

Lemma sorted_untag ks :
  Forall (fun p => fst p = weight_of weights (snd p)) ks ->
  StronglySorted key_le ks ->
  StronglySorted (fun a b => (weight_of weights a <= weight_of weights b)%nat)
                 (List.map snd ks).
Proof.
  intros Hk Hs. induction Hs as [|p ks Hs IH Hp]; simpl; [constructor|].
  inversion Hk as [|? ? Hp0 Hk0]; subst.
  constructor; [apply IH, Hk0|].
  apply List.Forall_forall. intros a Ha.
  apply in_map_iff in Ha as (q & <- & Hq).
  rewrite List.Forall_forall in Hp, Hk0.
  specialize (Hp q Hq). specialize (Hk0 q Hq). unfold key_le in Hp.
  rewrite <- Hp0, <- Hk0. exact Hp.
Qed.

Lemma filter_untag ks n :
  Forall (fun p => fst p = weight_of weights (snd p)) ks ->
  List.filter (fun a => Nat.eqb (weight_of weights a) n) (List.map snd ks)
  = List.map snd (List.filter (fun p => Nat.eqb (fst p) n) ks).
Proof.
  induction 1 as [|p ks Hp _ IH]; [reflexivity|].
  cbn [List.map List.filter]. rewrite IH, Hp.
  destruct (Nat.eqb (weight_of weights (snd p)) n); reflexivity.
Qed.

(** The sort by weight of a buffer whose actions all have a weight: the
    same operations, by increasing weight, those of one weight in the
    order of the buffer. *)
Lemma sort_by_weight_spec b :
  Forall (fun af => is_Some (weights !! fst af)) b ->
  exists sorted,
    sort_by_weight weights b = Ok sorted
    /\ Permutation sorted b
    /\ StronglySorted
         (fun a b => (weight_of weights a <= weight_of weights b)%nat) sorted
    /\ forall n,
        List.filter (fun a => Nat.eqb (weight_of weights a) n) sorted
        = List.filter (fun a => Nat.eqb (weight_of weights a) n) b.
Proof.
  intros Hb. unfold sort_by_weight. rewrite (sort_keys_known weights b Hb).
  set (ks := List.map tag b).
  assert (Hk : Forall (fun p => fst p = weight_of weights (snd p))
                      (stable_sort ks))
    by (apply (tagged_perm _ b), stable_sort_perm).
  assert (Hid : List.map snd ks = b).
  { unfold ks. rewrite List.map_map. apply List.map_id. }
  eexists. split; [reflexivity|]. split; [|split].
  - transitivity (List.map snd ks);
      [apply Permutation_map, stable_sort_perm | rewrite Hid; reflexivity].
  - apply sorted_untag; [exact Hk | apply stable_sort_sorted].
  - intros n. rewrite (filter_untag _ n Hk), stable_sort_filter.
    rewrite <- (filter_untag ks n), Hid; [reflexivity|].
    apply (tagged_perm _ b). reflexivity.
Qed.

End AnyWeights.

Lemma filter_filter_impl {A} (P Q : A -> bool) l :
  (forall a, P a = true -> Q a = true) ->
  List.filter P (List.filter Q l) = List.filter P l.
Proof.
  intros H. induction l as [|a l IH]; [reflexivity|].
  cbn [List.filter]. destruct (Q a) eqn:Eq.
  - cbn [List.filter]. rewrite IH. reflexivity.
  - destruct (P a) eqn:Ep; [rewrite (H a Ep) in Eq; discriminate|exact IH].
Qed.

(** X3.  Without [full_ordered] and whatever the order given to the
    constructor, when every buffered action has a weight the list that
    [apply_flows] groups and issues holds the buffered operations, each
    once, by increasing weight, and the operations of one action are in
    it in their submission order. *)
Theorem apply_flows_sorts (oracle : list call -> call -> result string * N)
        (self : DeferredOVSBridge) (w : world) :
  full_ordered self = false ->
  Forall (fun af => is_Some (weights self !! fst af))
         (action_flow_tuples self) ->
  exists sorted,
    apply_flows oracle self w
    = (fst (apply_groups oracle (br self) (groupby sorted) w),
       set_action_flow_tuples [] self,
       snd (apply_groups oracle (br self) (groupby sorted) w))
    /\ Permutation sorted (action_flow_tuples self)
    /\ StronglySorted
         (fun a b => (weight_of (weights self) a
                      <= weight_of (weights self) b)%nat) sorted
    /\ forall action,
        List.filter (fun af => String.eqb (fst af) action) sorted
        = List.filter (fun af => String.eqb (fst af) action)
                      (action_flow_tuples self).
Proof.
  intros Hf Hb.
  destruct (sort_by_weight_spec (weights self) _ Hb)
    as (sorted & Hs & Hperm & Hsorted & Hstable).
  exists sorted. split; [|split; [exact Hperm|split; [exact Hsorted|]]].
  - unfold apply_flows.
    destruct (action_flow_tuples self) as [|af b] eqn:Eb.
    + symmetry in Hperm. apply Permutation_nil in Hperm. subst sorted.
      reflexivity.
    + cbn [full_ordered weights br set_action_flow_tuples]. rewrite Hf.
      simpl negb. cbv iota. rewrite Hs.
      destruct (apply_groups oracle (br self) (groupby sorted) w);
        reflexivity.
  - intros action.
    set (n := default 0%nat (weights self !! action)).
    assert (Himpl : forall af : string * nat,
               String.eqb (fst af) action = true ->
               Nat.eqb (weight_of (weights self) af) n = true).
    { intros af E. apply String.eqb_eq in E. unfold weight_of, n.
      rewrite E. apply Nat.eqb_refl. }
    rewrite <- (filter_filter_impl _ _ sorted Himpl), (Hstable n).
    apply filter_filter_impl, Himpl.
Qed.

Lemma apply_flows_sorts_witness :
  let self := set_action_flow_tuples
                [("add", 0%nat); ("del", 1%nat); ("add", 2%nat);
                 ("del", 3%nat)]
                (DeferredOVSBridge_init Sample.br_int false ["del"; "add"]) in
  exists sorted,
    apply_flows Sample.quiet self (Sample.world_of [])
    = (fst (apply_groups Sample.quiet (br self) (groupby sorted)
                         (Sample.world_of [])),
       set_action_flow_tuples [] self,
       snd (apply_groups Sample.quiet (br self) (groupby sorted)
                         (Sample.world_of [])))
    /\ Permutation sorted (action_flow_tuples self)
    /\ StronglySorted
         (fun a b => (weight_of (weights self) a
                      <= weight_of (weights self) b)%nat) sorted
    /\ forall action,
        List.filter (fun af => String.eqb (fst af) action) sorted
        = List.filter (fun af => String.eqb (fst af) action)
                      (action_flow_tuples self).
Proof.
  refine (apply_flows_sorts Sample.quiet
            (set_action_flow_tuples
               [("add", 0%nat); ("del", 1%nat); ("add", 2%nat); ("del", 3%nat)]
               (DeferredOVSBridge_init Sample.br_int false ["del"; "add"]))
            (Sample.world_of []) eq_refl _).
  repeat (apply List.Forall_cons; [eexists; reflexivity|]).
  apply List.Forall_nil.
Defined.

Lemma kind_groups_length b : (length (kind_groups b) <= 3)%nat.
Proof.
  unfold kind_groups.
  match goal with |- (length (List.filter ?f ?l) <= _)%nat =>
    pose proof (List.filter_length_le f l) as H end.
  exact H.
Qed.

(** X4.  Under the default policy one [apply_flows] runs at most three
    commands, however many operations were buffered, and none when
    nothing was buffered. *)
Theorem apply_flows_at_most_three
        (oracle : list call -> call -> result string * N)
        (br0 : OVSBridge) (ops : list flow_op) (w : world) :
  let self := snd (fst (submit_all ops (deferred br0) w)) in
  let w1 := snd (submit_all ops (deferred br0) w) in
  exists cmds,
    trace (snd (apply_flows oracle self w1)) = trace w ++ cmds
    /\ (length cmds <= 3)%nat
    /\ (length cmds <= length (kind_groups (action_flow_tuples self)))%nat
    /\ Forall (fun c => exists action,
                   In action default_order
                   /\ argv c = batch_argv br0 action) cmds.
Proof.
  cbn zeta.
  destruct (submit_all_spec ops (deferred br0) w)
    as (_ & Hbr & Hf & Hw & Hb & _ & Ht).
  cbn zeta in *. simpl in Hbr, Hf, Hw, Hb.
  set (self := snd (fst (submit_all ops (deferred br0) w))) in *.
  set (w1 := snd (submit_all ops (deferred br0) w)) in *.
  assert (Hk : Forall known_kind (action_flow_tuples self))
    by (rewrite Hb; apply known_kind_combine).
  rewrite (apply_flows_default oracle self w1 Hf Hw Hk), Hbr. simpl.
  destruct (apply_groups_trace oracle br0
              (kind_groups (action_flow_tuples self)) w1)
    as (n & cmds & Hc & Hm & Hn & _).
  exists cmds. rewrite Hc, Ht.
  assert (Hlen : length cmds = n).
  { rewrite <- (length_map argv), Hm, length_firstn, length_map. lia. }
  pose proof (kind_groups_length (action_flow_tuples self)).
  repeat split; [lia | lia |].
  apply List.Forall_forall. intros c Hc'.
  assert (Hin : In (argv c)
                   (List.map (fun g => batch_argv br0 (fst g))
                             (kind_groups (action_flow_tuples self)))).
  { rewrite <- (firstn_skipn n). apply in_or_app. left.
    rewrite <- Hm. apply in_map, Hc'. }
  apply in_map_iff in Hin as (g & Hg & Hing).
  exists (fst g). split; [|symmetry; exact Hg].
  unfold kind_groups in Hing. apply filter_In in Hing as [Hing _].
  simpl in Hing. destruct Hing as [<-|[<-|[<-|[]]]]; simpl; tauto.
Qed.

(** ** Rendering again, in batches, and from keyword arguments *)

Lemma build_del_keeps d : snd (_build_flow_expr_str d "del") = d.
Proof.
  rewrite build_snd. unfold consumed.
  change (String.eqb "del" "add") with false.
  change (String.eqb "del" "del") with true.
  destruct (Dict.contains "priority" d); reflexivity.
Qed.

Lemma build_again d cmd s :
  cmd <> "del" ->
  fst (_build_flow_expr_str d cmd) = Ok s ->
  fst (_build_flow_expr_str (snd (_build_flow_expr_str d cmd)) cmd)
  = Raise (InvalidInput msg_actions).
Proof.
  intros Hdel Hok. rewrite build_snd.
  destruct (build_ok_actions d cmd s Hok Hdel) as [_ Ha].
  set (d' := consumed d cmd) in *.
  unfold _build_flow_expr_str.
  destruct (String.eqb_spec cmd "del") as [?|_]; [contradiction|].
  destruct (String.eqb_spec cmd "add") as [->|Hadd].
  - rewrite !DictFacts.pop_default_eq. simpl negb. cbv iota.
    assert (H3 : Dict.contains "actions"
                   (Dict.remove "priority"
                      (Dict.remove "idle_timeout"
                         (Dict.remove "hard_timeout" d'))) = false)
      by (do 3 apply DictFacts.contains_remove_false; exact Ha).
    rewrite H3. reflexivity.
  - assert (Hp : Dict.contains "priority" d' = false).
    { unfold d'. rewrite consumed_priority by exact Hadd.
      destruct (Dict.contains "priority" d) eqn:E; [|reflexivity].
      rewrite build_priority_error in Hok by assumption. discriminate. }
    rewrite Hp. simpl negb. cbv iota. rewrite Ha. reflexivity.
Qed.

Lemma render_all_twice cmd r l1 l2 l3 w :
  cmd <> "del" ->
  exists e,
    fst (map_m (build_flow_expr_at cmd) (l1 ++ r :: l2 ++ r :: l3) w) = Raise e.
Proof.
  intros Hdel. revert w. induction l1 as [|x l1 IH]; intros w.
  - simpl app. rewrite render_all_cons.
    pose proof (deref_build_at cmd r w r) as Hd.
    rewrite build_at_eq in Hd |- *. simpl in Hd.
    destruct (decide (r = r)) as [_|]; [|contradiction].
    destruct (fst (_build_flow_expr_str (deref w r) cmd)) as [s|e] eqn:E;
      [|simpl; eauto].
    set (w1 := set_store _ w) in *.
    assert (Hbad : invalid_rule cmd (deref w1 r)).
    { right. split; [exact Hdel|]. rewrite Hd.
      eapply build_ok_actions; eassumption. }
    destruct (render_all_invalid cmd r (l2 ++ r :: l3) w1) as [e He];
      [apply in_or_app; right; left; reflexivity | exact Hbad |].
    destruct (map_m (build_flow_expr_at cmd) (l2 ++ r :: l3) w1)
      as [[ss|e'] w2]; simpl in *; [discriminate | eauto].
  - change ((x :: l1) ++ r :: l2 ++ r :: l3)
      with (x :: (l1 ++ r :: l2 ++ r :: l3)).
    rewrite render_all_cons.
    destruct (build_flow_expr_at cmd x w) as [[s|e] w1]; [|simpl; eauto].
    destruct (IH w1) as [e He].
    destruct (map_m (build_flow_expr_at cmd) (l1 ++ r :: l2 ++ r :: l3) w1)
      as [[ss|e'] w2]; simpl in *; [discriminate | eauto].
Qed.

(** X5.  A rendering for [del] leaves the dictionary as it is.  For any
    other command, a dictionary that was rendered with success cannot be
    rendered again: its [actions] are gone and the second rendering
    raises [InvalidInput]; so [do_action_flows] on a list that holds the
    same dictionary twice raises, and runs no command. *)
Theorem build_flow_expr_once :
  (forall d, snd (_build_flow_expr_str d "del") = d)
  /\ (forall d cmd s,
        cmd <> "del" ->
        fst (_build_flow_expr_str d cmd) = Ok s ->
        fst (_build_flow_expr_str (snd (_build_flow_expr_str d cmd)) cmd)
        = Raise (InvalidInput msg_actions))
  /\ (forall oracle self cmd r l1 l2 l3 w,
        cmd <> "del" ->
        let res := do_action_flows oracle self cmd
                                   (l1 ++ r :: l2 ++ r :: l3) w in
        (exists e, fst res = Raise e) /\ trace (snd res) = trace w).
Proof.
  split; [exact build_del_keeps|]. split; [exact build_again|].
  intros oracle self cmd r l1 l2 l3 w Hdel res. subst res.
  destruct (render_all_twice cmd r l1 l2 l3 w Hdel) as [e He].
  pose proof (do_action_flows_trace oracle self cmd
                (l1 ++ r :: l2 ++ r :: l3) w) as Ht.
  rewrite do_action_flows_eq in Ht |- *.
  destruct (map_m (build_flow_expr_at cmd) (l1 ++ r :: l2 ++ r :: l3) w)
    as [[ss|e'] w1]; simpl in *; [discriminate|]. eauto.
Qed.

Lemma build_flow_expr_once_witness :
  let w := Sample.world_of [[("actions", PStr "normal")]] in
  let res := do_action_flows Sample.quiet Sample.br_int "add"
                             ([] ++ 0%nat :: [] ++ 0%nat :: []) w in
  (exists e, fst res = Raise e) /\ trace (snd res) = trace w.
Proof.
  refine (proj2 (proj2 build_flow_expr_once) Sample.quiet Sample.br_int
            "add" 0%nat [] [] []
            (Sample.world_of [[("actions", PStr "normal")]]) _).
  discriminate.
Defined.

(** The renderings of a list of distinct dictionaries are the renderings
    of each of them as it was at the start. *)
Lemma render_all_distinct cmd l ss :
  forall w,
    NoDup l ->
    Forall2 (fun r s => fst (_build_flow_expr_str (deref w r) cmd) = Ok s)
            l ss ->
    fst (map_m (build_flow_expr_at cmd) l w) = Ok ss
    /\ forall r,
        deref (snd (map_m (build_flow_expr_at cmd) l w)) r
        = if bool_decide (r ∈ l) then consumed (deref w r) cmd
          else deref w r.
Proof.
  revert ss. induction l as [|x l IH]; intros ss w Hnd H2.
  - inversion H2; subst. split; [reflexivity|]. intros r.
    rewrite bool_decide_eq_false_2 by apply not_elem_of_nil. reflexivity.
  - inversion H2 as [|? s ? ss' Hx Hrest]; subst.
    apply NoDup_cons in Hnd as [Hnin Hnd'].
    rewrite render_all_cons.
    pose proof (deref_build_at cmd x w) as Hd.
    rewrite build_at_eq in Hd |- *. simpl in Hd. rewrite Hx.
    set (w1 := set_store _ w) in *.
    assert (H2' : Forall2
                    (fun r s =>
                       fst (_build_flow_expr_str (deref w1 r) cmd) = Ok s)
                    l ss').
    { clear IH Hnd' H2. induction Hrest as [|r s' l ss' Hr Hrest IHr];
        constructor.
      - rewrite Hd. destruct (decide (r = x)) as [->|_]; [|exact Hr].
        exfalso. apply Hnin. left.
      - apply IHr. intros Hin. apply Hnin. right. exact Hin. }
    destruct (IH ss' w1 Hnd' H2') as [Hok Hderef].
    destruct (map_m (build_flow_expr_at cmd) l w1) as [[ss0|e] w2];
      simpl in Hok; [|discriminate].
    injection Hok as ->. split; [reflexivity|]. intros r. simpl.
    specialize (Hderef r). simpl in Hderef. rewrite Hderef, Hd.
    destruct (decide (r = x)) as [->|Hne].
    + rewrite bool_decide_eq_false_2 by exact Hnin.
      rewrite bool_decide_eq_true_2 by left. reflexivity.
    + destruct (bool_decide (r ∈ l)) eqn:E.
      * apply bool_decide_eq_true in E.
        rewrite bool_decide_eq_true_2 by (right; exact E). reflexivity.
      * apply bool_decide_eq_false in E.
        rewrite bool_decide_eq_false_2; [reflexivity|].
        intros Hin. apply elem_of_cons in Hin as [?|?];
          [congruence | contradiction].
Qed.

(** X6.  For a list of distinct dictionaries that each render,
    [do_action_flows] runs one command, whose input is the renderings of
    the dictionaries as the caller passed them, in the order of the list
    and joined by line feeds; afterwards each dictionary of the list is
    what its rendering left of it, and every other dictionary is
    untouched. *)
Theorem do_action_flows_batches
        (oracle : list call -> call -> result string * N)
        (self : OVSBridge) (action : string) (kwargs_list : list ref)
        (flow_strs : list string) (w : world) :
  NoDup kwargs_list ->
  Forall2 (fun r s => fst (_build_flow_expr_str (deref w r) action) = Ok s)
          kwargs_list flow_strs ->
  let res := do_action_flows oracle self action kwargs_list w in
  fst res = Ok tt
  /\ trace (snd res)
     = trace w ++ [ofctl_call self (action +:+ "-flows") ["-"]
                              (Some (Py.join newline flow_strs))]
  /\ forall r,
      deref (snd res) r
      = if bool_decide (r ∈ kwargs_list)
        then consumed (deref w r) action
        else deref w r.
Proof.
  intros Hnd H2 res. subst res.
  destruct (render_all_distinct action kwargs_list flow_strs w Hnd H2)
    as [Hok Hderef].
  pose proof (render_all_trace action kwargs_list w) as [Ht _].
  split; [|split].
  - rewrite do_action_flows_eq.
    destruct (map_m (build_flow_expr_at action) kwargs_list w)
      as [[ss|e] w1]; [reflexivity | discriminate].
  - rewrite do_action_flows_eq.
    destruct (map_m (build_flow_expr_at action) kwargs_list w)
      as [[ss|e] w1]; simpl in *; [|discriminate].
    injection Hok as ->. rewrite Ht. reflexivity.
  - intros r. rewrite deref_do_action_flows. apply Hderef.
Qed.

Lemma do_action_flows_batches_witness :
  let w := Sample.world_of [[("in_port", PInt 1); ("actions", PStr "drop")];
                            [("actions", PStr "normal")]] in
  let res := do_action_flows Sample.quiet Sample.br_int "mod"
                             [1%nat; 0%nat] w in
  fst res = Ok tt
  /\ trace (snd res)
     = trace w ++ [ofctl_call Sample.br_int "mod-flows" ["-"]
                              (Some (Py.join newline
                                       ["actions=normal";
                                        "in_port=1,actions=drop"]))]
  /\ forall r,
      deref (snd res) r
      = if bool_decide (r ∈ [1%nat; 0%nat])
        then consumed (deref w r) "mod"
        else deref w r.
Proof.
  refine (do_action_flows_batches Sample.quiet Sample.br_int "mod"
            [1%nat; 0%nat] ["actions=normal"; "in_port=1,actions=drop"]
            (Sample.world_of [[("in_port", PInt 1); ("actions", PStr "drop")];
                              [("actions", PStr "normal")]]) _ _).
  - apply NoDup_cons_2; [|apply NoDup_singleton].
    intros H. apply list_elem_of_singleton in H. discriminate H.
  - repeat constructor.
Defined.

(** A flow method that puts its keyword arguments in a new dictionary and
    hands it to [do_action_flows]. *)
Lemma flow_call_fresh (oracle : list call -> call -> result string * N)
      (self : OVSBridge) (action : string) :
  fresh_flow_call self
    (fun kwargs w =>
       let '(r, w1) := alloc kwargs w in
       do_action_flows oracle self action [r] w1)
    action.
Proof.
  intros kwargs w. unfold alloc. cbv beta iota.
  set (r0 := length (store w)).
  set (w1 := set_store (store w ++ [kwargs]) w).
  assert (H0 : deref w1 r0 = kwargs).
  { unfold deref, w1, r0. simpl.
    rewrite lookup_app_r by reflexivity. rewrite Nat.sub_diag. reflexivity. }
  assert (Hframe : forall r, (r < r0)%nat ->
                             deref (snd (build_flow_expr_at action r0 w1)) r
                             = deref w r).
  { intros r Hr. rewrite deref_build_at.
    destruct (decide (r = r0)) as [->|_]; [lia|].
    unfold deref, w1. simpl. rewrite lookup_app_l by exact Hr. reflexivity. }
  pose proof (trace_build_at action r0 w1) as [Ht _].
  rewrite do_action_flows_eq. cbn [map_m]. unfold bind.
  rewrite build_at_eq in Hframe, Ht |- *. rewrite H0 in Hframe, Ht |- *.
  simpl in Hframe, Ht.
  destruct (fst (_build_flow_expr_str kwargs action)) as [s|e]; simpl.
  - split; [exact Hframe|]. split; [reflexivity|].
    eexists. split; [reflexivity|]. split; reflexivity.
  - split; [exact Hframe|]. split; reflexivity.
Qed.

(** X7.  [add_flow], [mod_flow] and [delete_flows] of [OVSBridge] work on a
    dictionary of their own: no dictionary that existed before the call is
    changed.  When the keyword arguments render, the call runs one
    [ovs-ofctl] command whose input is that rendering; when they do not,
    it raises the error of the rendering and runs nothing. *)
Theorem bridge_flow_calls_fresh
        (oracle : list call -> call -> result string * N)
        (self : OVSBridge) :
  fresh_flow_call self (add_flow oracle self) "add"
  /\ fresh_flow_call self (mod_flow oracle self) "mod"
  /\ fresh_flow_call self (delete_flows oracle self) "del".
Proof.
  split; [|split]; apply flow_call_fresh.
Qed.

(** ** Bridges: existence, life cycle, deletion of ports *)

Section Lifecycle.

Variable oracle : list call -> call -> result string * N.
Variable conf_timeout : Z.
Variable self : OVSBridge.

Lemma for_each_delete_port names :
  forall w,
    fst (for_each names (delete_port oracle self) w) = Ok tt
    /\ trace (snd (for_each names (delete_port oracle self) w))
       = trace w ++ List.map (del_port_call self) names
    /\ store (snd (for_each names (delete_port oracle self) w)) = store w.
Proof.
  induction names as [|name names IH]; intros w.
  - simpl. rewrite app_nil_r. auto.
  - cbn [for_each]. unfold bind. rewrite delete_port_eq.
    destruct (IH (after_call (del_port_call self name)
                    (snd (oracle (trace w) (del_port_call self name))) w))
      as (Hr & Ht & Hs).
    rewrite Hr, Ht, Hs. simpl. rewrite <- app_assoc. auto.
Qed.

(** X8.  [delete_ports] first lists: all the ports with [all_ports], the
    VIF ports otherwise.  When the listing raises, the exception goes to
    the caller and no port has been deleted.  When it returns,
    [delete_ports] runs one [del-port] per name in the order of the
    listing, nothing else, and cannot fail. *)
Theorem delete_ports_each (w : world) :
  (match get_port_name_list oracle self w with
   | (Ok names, w1) =>
       fst (delete_ports oracle self true w) = Ok tt
       /\ trace (snd (delete_ports oracle self true w))
          = trace w1 ++ List.map (del_port_call self) names
   | (Raise e, w1) => delete_ports oracle self true w = (Raise e, w1)
   end)
  /\ (match get_vif_ports oracle self w with
      | (Ok ports, w1) =>
          fst (delete_ports oracle self false w) = Ok tt
          /\ trace (snd (delete_ports oracle self false w))
             = trace w1
               ++ List.map (fun p => del_port_call self (port_name p)) ports
      | (Raise e, w1) => delete_ports oracle self false w = (Raise e, w1)
      end).
Proof.
  split.
  - unfold delete_ports, bind.
    destruct (get_port_name_list oracle self w) as [[names|e] w1];
      [|reflexivity].
    destruct (for_each_delete_port names w1) as (Hr & Ht & _). auto.
  - unfold delete_ports, bind.
    destruct (get_vif_ports oracle self w) as [[ports|e] w1];
      [|reflexivity].
    unfold ret.
    destruct (for_each_delete_port (List.map port_name ports) w1)
      as (Hr & Ht & _).
    rewrite List.map_map in Ht. auto.
Qed.

Lemma create_eq w :
  create oracle conf_timeout self w
  = (Ok tt,
     after_call (add_br_call self)
                (snd (oracle (trace w) (add_br_call self))) w).
Proof.
  unfold create, add_bridge, bind. rewrite run_vsctl_eq. cbv zeta.
  fold (add_br_call self).
  destruct (fst (oracle (trace w) (add_br_call self))); reflexivity.
Qed.

Lemma destroy_eq w :
  destroy oracle self w
  = (Ok tt,
     after_call (del_br_call self)
                (snd (oracle (trace w) (del_br_call self))) w).
Proof.
  unfold destroy, delete_bridge, bind. rewrite run_vsctl_eq. cbv zeta.
  fold (del_br_call self).
  destruct (fst (oracle (trace w) (del_br_call self))); reflexivity.
Qed.

(** X9.  A bridge used as a context manager is created before the block
    and destroyed after it on every path: whether the block returns or
    raises, [del-br] is the last command run, and the outcome of the
    [with] statement is the outcome of the block, its exception
    included. *)
Theorem with_bridge_destroys (A : Type) (body : OVSBridge -> M A)
        (w : world) :
  let w0 := after_call (add_br_call self)
                       (snd (oracle (trace w) (add_br_call self))) w in
  let w1 := snd (body self w0) in
  with_bridge oracle conf_timeout self body w
  = (fst (body self w0),
     after_call (del_br_call self)
                (snd (oracle (trace w1) (del_br_call self))) w1).
Proof.
  cbv zeta. unfold with_bridge, OVSBridge_enter, OVSBridge_exit, bind.
  rewrite create_eq. unfold ret.
  destruct (body self _) as [[a|e] w1]; rewrite destroy_eq; reflexivity.
Qed.

Lemma bridge_exists_eq (name : string) (w : world) :
  let c := vsctl_call self ["br-exists"; name] in
  bridge_exists oracle self name w
  = (match fst (oracle (trace w) c) with
     | Ok _ => Ok true
     | Raise (RuntimeError msg) =>
         if str_contains ("Exit code: 2" +:+ newline) msg
         then Ok false else Raise (RuntimeError msg)
     | Raise e => Raise e
     end,
     after_call c (snd (oracle (trace w) c)) w).
Proof.
  intros c. unfold bridge_exists. rewrite run_vsctl_eq. cbv zeta. fold c.
  unfold after_call.
  destruct (fst (oracle (trace w) c)) as [out|e]; [reflexivity|].
  destruct e; try reflexivity.
  destruct (str_contains _ msg); reflexivity.
Qed.

(** X10.  [bridge_exists] runs one [br-exists] command and nothing else.
    It answers [True] exactly when the command succeeded, and [False]
    exactly when the command raised a [RuntimeError] whose text holds
    [Exit code: 2] and a line feed; every other exception of the command
    reaches the caller unchanged. *)
Theorem bridge_exists_answers (name : string) (w : world) :
  let c := vsctl_call self ["br-exists"; name] in
  snd (bridge_exists oracle self name w)
  = after_call c (snd (oracle (trace w) c)) w
  /\ (fst (bridge_exists oracle self name w) = Ok true
      <-> exists out, fst (oracle (trace w) c) = Ok out)
  /\ (fst (bridge_exists oracle self name w) = Ok false
      <-> exists msg,
          fst (oracle (trace w) c) = Raise (RuntimeError msg)
          /\ str_contains ("Exit code: 2" +:+ newline) msg = true)
  /\ (forall e, fst (bridge_exists oracle self name w) = Raise e ->
                fst (oracle (trace w) c) = Raise e).
Proof.
  intros c. rewrite bridge_exists_eq. fold c. cbn [fst snd].
  split; [reflexivity|].
  destruct (fst (oracle (trace w) c)) as [out|e].
  - split; [split; [eauto|reflexivity]|].
    split; [split; [discriminate|intros (m & H & _); discriminate H]|].
    intros e H. discriminate H.
  - assert (Hno : ~ exists out : string, @Raise string e = Ok out).
    { intros (o & H). discriminate H. }
    destruct e;
      try (split; [split; [discriminate|intros H; destruct (Hno H)]|];
           split; [split; [discriminate|intros (m & H & _); discriminate H]|];
           intros e H; injection H as <-; reflexivity).
    destruct (str_contains _ msg) eqn:E.
    + split; [split; [discriminate|intros H; destruct (Hno H)]|].
      split; [split; [eauto|reflexivity]|].
      intros e H. discriminate H.
    + split; [split; [discriminate|intros H; destruct (Hno H)]|].
      split; [split; [discriminate|]|].
      * intros (m & H & Hm). injection H as <-. congruence.
      * intros e H. injection H as <-. reflexivity.
Qed.

Lemma port_exists_eq (name : string) (w : world) :
  let p := vsctl_call self ["port-to-br"; name] in
  port_exists oracle self name w
  = (match fst (oracle (trace w) p) with
     | Ok out => Ok (negb (String.eqb out ""))
     | Raise (RuntimeError msg) =>
         if str_contains ("Exit code: 1" +:+ newline) msg
         then Ok false else Raise (RuntimeError msg)
     | Raise e => Raise e
     end,
     after_call p (snd (oracle (trace w) p)) w).
Proof.
  intros p. unfold port_exists, get_bridge_name_for_port_name, bind.
  rewrite run_vsctl_eq. cbv zeta. fold p. unfold after_call.
  destruct (fst (oracle (trace w) p)) as [out|e].
  - destruct out; reflexivity.
  - destruct e; try reflexivity.
    destruct (str_contains _ msg); reflexivity.
Qed.

(** X11.  [port_exists] runs one [port-to-br] command and nothing else.
    It answers [True] exactly when the command printed something, and
    [False] exactly when the output is empty or the command raised a
    [RuntimeError] whose text holds [Exit code: 1] and a line feed; every
    other exception of the command reaches the caller unchanged. *)
Theorem port_exists_answers (name : string) (w : world) :
  let p := vsctl_call self ["port-to-br"; name] in
  snd (port_exists oracle self name w)
  = after_call p (snd (oracle (trace w) p)) w
  /\ (fst (port_exists oracle self name w) = Ok true
      <-> exists out, fst (oracle (trace w) p) = Ok out /\ out <> "")
  /\ (fst (port_exists oracle self name w) = Ok false
      <-> fst (oracle (trace w) p) = Ok ""
          \/ exists msg,
              fst (oracle (trace w) p) = Raise (RuntimeError msg)
              /\ str_contains ("Exit code: 1" +:+ newline) msg = true)
  /\ (forall e, fst (port_exists oracle self name w) = Raise e ->
                fst (oracle (trace w) p) = Raise e).
Proof.
  intros p. rewrite port_exists_eq. fold p. cbn [fst snd].
  split; [reflexivity|].
  destruct (fst (oracle (trace w) p)) as [out|e].
  - destruct out as [|a out]; cbn [String.eqb negb].
    + split; [split; [discriminate|intros (o & H & Hne); congruence]|].
      split; [split; [auto|reflexivity]|].
      intros e H. discriminate H.
    + split; [split; [intros _; eexists; split; [reflexivity|discriminate]
                     |reflexivity]|].
      split; [split; [discriminate|]|].
      * intros [H|(m & H & _)]; discriminate H.
      * intros e H. discriminate H.
  - assert (Hno : ~ exists out : string, @Raise string e = Ok out /\ out <> "").
    { intros (o & H & _). discriminate H. }
    destruct e;
      try (split; [split; [discriminate|intros H; destruct (Hno H)]|];
           split; [split; [discriminate
                          |intros [H|(m & H & _)]; discriminate H]|];
           intros e H; injection H as <-; reflexivity).
    destruct (str_contains _ msg) eqn:E.
    + split; [split; [discriminate|intros H; destruct (Hno H)]|].
      split; [split; [eauto|reflexivity]|].
      intros e H. discriminate H.
    + split; [split; [discriminate|intros H; destruct (Hno H)]|].
      split; [split; [discriminate|]|].
      * intros [H|(m & H & Hm)]; [discriminate H|].
        injection H as <-. congruence.
      * intros e H. injection H as <-. reflexivity.
Qed.
End Lifecycle.

(** ** Text: characters, separators and lines *)

Lemma append_cons (a : ascii) (s t : string) :
  String a s +:+ t = String a (s +:+ t).
Proof. reflexivity. Qed.

Lemma append_assoc (s t u : string) : (s +:+ t) +:+ u = s +:+ (t +:+ u).
Proof.
  induction s as [|a s IH]; [reflexivity|].
  rewrite !append_cons. f_equal. exact IH.
Qed.

Lemma prefix_char c a s :
  String.prefix (String c "") (String a s) = Ascii.eqb a c.
Proof.
  change (String.prefix (String c "") (String a s))
    with (if ascii_dec c a then String.prefix EmptyString s else false).
  destruct (ascii_dec c a) as [<-|Hne].
  - rewrite Ascii.eqb_refl. destruct s; reflexivity.
  - symmetry. apply Ascii.eqb_neq. congruence.
Qed.

Lemma split_aux_char c acc s :
  Py.split_aux (String c "") 0 acc s
  = match split_first c s with
    | Some (k, v) =>
        (string_of_list_ascii (rev acc) +:+ k)
          :: Py.split_aux (String c "") 0 [] v
    | None => [string_of_list_ascii (rev acc) +:+ s]
    end.
Proof.
  revert acc. induction s as [|a s IH]; intros acc.
  - simpl. rewrite append_nil_r. reflexivity.
  - cbn [Py.split_aux split_first]. rewrite prefix_char.
    destruct (Ascii.eqb a c) eqn:E.
    + simpl. rewrite append_nil_r. reflexivity.
    + rewrite IH. simpl rev. rewrite string_of_list_ascii_snoc.
      destruct (split_first c s) as [[k v]|];
        rewrite append_assoc_snoc; reflexivity.
Qed.

Lemma split_char c s :
  Py.split (String c "") s
  = match split_first c s with
    | Some (k, v) => k :: Py.split (String c "") v
    | None => [s]
    end.
Proof. unfold Py.split. rewrite split_aux_char. reflexivity. Qed.

Lemma split_aux_length c s :
  forall acc,
    length (Py.split_aux (String c "") 0 acc s) = S (count_char c s).
Proof.
  induction s as [|a s IH]; intros acc; [reflexivity|].
  cbn [Py.split_aux count_char]. rewrite prefix_char.
  destruct (Ascii.eqb a c); [|apply IH].
  cbn [length]. f_equal. apply IH.
Qed.

Lemma chr_in_single a c : Py.chr_in a (String c "") = Ascii.eqb a c.
Proof. unfold Py.chr_in. simpl. apply orb_false_r. Qed.

Lemma free_of_cons chars a s :
  free_of chars (String a s) = negb (Py.chr_in a chars) && free_of chars s.
Proof. reflexivity. Qed.

Lemma made_of_cons chars a s :
  made_of chars (String a s) = Py.chr_in a chars && made_of chars s.
Proof. reflexivity. Qed.

Lemma count_char_free c s :
  free_of (String c "") s = true -> count_char c s = 0%nat.
Proof.
  induction s as [|a s IH]; [reflexivity|].
  rewrite free_of_cons, chr_in_single. cbn [count_char].
  destruct (Ascii.eqb a c); [discriminate|exact IH].
Qed.

Lemma count_char_app c s t :
  count_char c (s +:+ t) = (count_char c s + count_char c t)%nat.
Proof.
  induction s as [|a s IH]; [reflexivity|].
  rewrite append_cons. cbn [count_char]. rewrite IH.
  destruct (Ascii.eqb a c); reflexivity.
Qed.

Lemma count_char_unlines lines :
  Forall (fun l => free_of newline l = true) lines ->
  count_char "010" (unlines lines) = length lines.
Proof.
  induction 1 as [|l lines Hl _ IH]; [reflexivity|].
  cbn [unlines length]. rewrite count_char_app, (count_char_free _ _ Hl).
  unfold newline. rewrite append_cons. cbn [count_char Ascii.eqb].
  simpl. f_equal. exact IH.
Qed.

Lemma prefix_nil_l s : String.prefix "" s = true.
Proof. destruct s; reflexivity. Qed.

Lemma prefix_cons d sub x s :
  String.prefix (String d sub) (String x s)
  = Ascii.eqb d x && String.prefix sub s.
Proof.
  change (String.prefix (String d sub) (String x s))
    with (if ascii_dec d x then String.prefix sub s else false).
  destruct (ascii_dec d x) as [->|Hne].
  - rewrite Ascii.eqb_refl. reflexivity.
  - apply Ascii.eqb_neq in Hne. rewrite Hne. reflexivity.
Qed.

(** A text that does not hold the character [c] starts [a ++ c ++ b]
    exactly when it starts [a]. *)
Lemma prefix_app_sep c sub b :
  free_of (String c "") sub = true ->
  forall a, String.prefix sub (a +:+ String c b) = String.prefix sub a.
Proof.
  induction sub as [|d sub IH]; intros Hfree a.
  - rewrite !prefix_nil_l. reflexivity.
  - rewrite free_of_cons, chr_in_single in Hfree.
    apply andb_true_iff in Hfree as [Hd Hsub].
    destruct a as [|x a].
    + change (EmptyString +:+ String c b) with (String c b).
      rewrite prefix_cons. apply negb_true_iff in Hd. rewrite Hd. reflexivity.
    + rewrite append_cons, !prefix_cons, (IH Hsub). reflexivity.
Qed.

Lemma find_from_shift sub s :
  forall i j, 0 <= i -> 0 <= j ->
              (Py.find_from sub s i =? -1) = (Py.find_from sub s j =? -1).
Proof.
  induction s as [|a s IH]; intros i j Hi Hj.
  - cbn [Py.find_from]. destruct (String.prefix sub ""); [|reflexivity].
    destruct (Z.eqb_spec i (-1)), (Z.eqb_spec j (-1));
      first [reflexivity | lia].
  - cbn [Py.find_from]. destruct (String.prefix sub (String a s)).
    + destruct (Z.eqb_spec i (-1)), (Z.eqb_spec j (-1));
      first [reflexivity | lia].
    + apply IH; lia.
Qed.

Lemma str_contains_nil sub : str_contains sub "" = String.prefix sub "".
Proof.
  unfold str_contains, Py.find. cbn [Py.find_from].
  destruct (String.prefix sub ""); reflexivity.
Qed.

Lemma str_contains_cons sub a s :
  str_contains sub (String a s)
  = String.prefix sub (String a s) || str_contains sub s.
Proof.
  unfold str_contains, Py.find. cbn [Py.find_from].
  destruct (String.prefix sub (String a s)); [reflexivity|].
  rewrite (find_from_shift sub s (0 + 1) 0) by lia. reflexivity.
Qed.

Lemma prefix_nil_r sub : sub <> "" -> String.prefix sub "" = false.
Proof. destruct sub; [congruence|reflexivity]. Qed.

(** A text without the character [c] occurs in [a ++ c ++ b] exactly
    when it occurs in [a] or in [b]. *)
Lemma str_contains_sep c sub b :
  free_of (String c "") sub = true -> sub <> "" ->
  forall a,
    str_contains sub (a +:+ String c b)
    = str_contains sub a || str_contains sub b.
Proof.
  intros Hfree Hne. induction a as [|x a IH].
  - change (EmptyString +:+ String c b) with (String c b).
    rewrite str_contains_cons, str_contains_nil.
    change (String c b) with (EmptyString +:+ String c b) at 1.
    rewrite (prefix_app_sep c sub b Hfree ""), (prefix_nil_r sub Hne).
    reflexivity.
  - rewrite append_cons, !str_contains_cons, IH.
    rewrite <- append_cons, (prefix_app_sep c sub b Hfree (String x a)).
    apply orb_assoc.
Qed.

Lemma join_cons sep x y l :
  Py.join sep (x :: y :: l) = x +:+ sep +:+ Py.join sep (y :: l).
Proof. reflexivity. Qed.

Lemma str_contains_join c sub l :
  free_of (String c "") sub = true -> sub <> "" ->
  str_contains sub (Py.join (String c "") l) = existsb (str_contains sub) l.
Proof.
  intros Hfree Hne. induction l as [|x l IH].
  - change (Py.join (String c "") []) with EmptyString.
    rewrite str_contains_nil. apply prefix_nil_r, Hne.
  - destruct l as [|y l].
    + change (Py.join (String c "") [x]) with x. simpl. rewrite orb_false_r.
      reflexivity.
    + rewrite join_cons.
      change (String c "" +:+ Py.join (String c "") (y :: l))
        with (String c (Py.join (String c "") (y :: l))).
      rewrite (str_contains_sep c sub _ Hfree Hne), IH. reflexivity.
Qed.

Lemma existsb_filter_negb {A} (p : A -> bool) l :
  existsb p (List.filter (fun x => negb (p x)) l) = false.
Proof.
  induction l as [|x l IH]; [reflexivity|].
  cbn [List.filter]. destruct (p x) eqn:E; simpl; [exact IH|].
  rewrite E. exact IH.
Qed.

Lemma chr_in_line_ends a :
  Py.chr_in a line_ends = Ascii.eqb a "010" || Ascii.eqb a "013".
Proof. unfold Py.chr_in. simpl. rewrite orb_false_r. reflexivity. Qed.

Lemma splitlines_aux_line rest l :
  forall acc pending,
    free_of line_ends l = true ->
    splitlines_aux acc pending (l +:+ String "010" rest)
    = (string_of_list_ascii (rev acc) +:+ l) :: splitlines_aux [] false rest.
Proof.
  induction l as [|a l IH]; intros acc pending Hfree.
  - rewrite append_nil_r. reflexivity.
  - rewrite free_of_cons, chr_in_line_ends in Hfree.
    apply andb_true_iff in Hfree as [Ha Hl].
    apply negb_true_iff, orb_false_iff in Ha as [Hlf Hcr].
    rewrite append_cons. cbn [splitlines_aux]. rewrite Hlf, Hcr.
    rewrite (IH _ _ Hl). simpl rev.
    rewrite string_of_list_ascii_snoc, append_assoc_snoc. reflexivity.
Qed.

(** The lines of a text whose lines a line feed ends. *)
Lemma splitlines_unlines lines :
  Forall (fun l => free_of line_ends l = true) lines ->
  splitlines (unlines lines) = lines.
Proof.
  unfold splitlines. induction 1 as [|l lines Hl _ IH]; [reflexivity|].
  cbn [unlines]. unfold newline.
  change (String "010" "" +:+ unlines lines)
    with (String "010" (unlines lines)).
  rewrite (splitlines_aux_line _ _ _ _ Hl), IH. reflexivity.
Qed.

Lemma unlines_not_empty l lines : unlines (l :: lines) <> "".
Proof.
  cbn [unlines]. destruct l; discriminate.
Qed.

Lemma last_char_none s : last_char s = None -> s = "".
Proof.
  destruct s as [|a s]; [reflexivity|].
  cbn [last_char]. destruct (last_char s); discriminate.
Qed.

Lemma rstrip_clean chars s :
  clean_end chars s = true -> Py.rstrip chars s = s.
Proof.
  induction s as [|a s IH]; [reflexivity|].
  unfold clean_end in *. cbn [last_char Py.rstrip].
  destruct (last_char s) as [b|] eqn:E.
  - intros H. rewrite (IH H). destruct s; [discriminate E|reflexivity].
  - apply last_char_none in E. subst s. intros H.
    apply negb_true_iff in H. cbn [Py.rstrip]. rewrite H. reflexivity.
Qed.

Lemma rstrip_junk chars t : made_of chars t = true -> Py.rstrip chars t = "".
Proof.
  induction t as [|a t IH]; [reflexivity|].
  rewrite made_of_cons. intros [Ha Ht]%andb_true_iff.
  cbn [Py.rstrip]. rewrite (IH Ht), Ha. reflexivity.
Qed.

Lemma rstrip_app_junk chars t s :
  made_of chars t = true -> Py.rstrip chars (s +:+ t) = Py.rstrip chars s.
Proof.
  intros Ht. induction s as [|a s IH].
  - change (EmptyString +:+ t) with t. rewrite (rstrip_junk _ _ Ht).
    reflexivity.
  - rewrite append_cons. cbn [Py.rstrip]. rewrite IH. reflexivity.
Qed.

(** [rstrip] takes away a tail of characters to strip and nothing else:
    what is left does not end with such a character. *)
Lemma rstrip_decompose chars s :
  exists tail,
    s = Py.rstrip chars s +:+ tail
    /\ made_of chars tail = true
    /\ clean_end chars (Py.rstrip chars s) = true.
Proof.
  induction s as [|a s (tail & Hs & Ht & Hc)].
  - exists EmptyString. auto.
  - cbn [Py.rstrip]. destruct (Py.rstrip chars s) as [|b r] eqn:E.
    + change (EmptyString +:+ tail) with tail in Hs. subst tail.
      destruct (Py.chr_in a chars) eqn:Ea.
      * exists (String a s). split; [reflexivity|]. split; [|reflexivity].
        rewrite made_of_cons, Ea. exact Ht.
      * exists s. split; [reflexivity|]. split; [exact Ht|].
        unfold clean_end. cbn [last_char]. rewrite Ea. reflexivity.
    + exists tail. rewrite append_cons, <- Hs.
      split; [reflexivity|]. split; [exact Ht|].
      unfold clean_end in *. cbn [last_char] in *.
      destruct (last_char r); exact Hc.
Qed.

Lemma lstrip_junk chars t : made_of chars t = true -> Py.lstrip chars t = "".
Proof.
  induction t as [|a t IH]; [reflexivity|].
  rewrite made_of_cons. intros [Ha Ht]%andb_true_iff.
  cbn [Py.lstrip]. rewrite Ha. exact (IH Ht).
Qed.

Lemma last_char_app s t :
  t <> "" -> last_char (s +:+ t) = last_char t.
Proof.
  intros Hne. induction s as [|a s IH]; [reflexivity|].
  rewrite append_cons. cbn [last_char]. rewrite IH.
  destruct (last_char t) eqn:E; [reflexivity|].
  apply last_char_none in E. contradiction.
Qed.

Lemma clean_end_app chars s t :
  t <> "" -> clean_end chars (s +:+ t) = clean_end chars t.
Proof.
  intros Hne. unfold clean_end. rewrite last_char_app by exact Hne.
  reflexivity.
Qed.

Lemma free_of_clean_end chars s :
  free_of chars s = true -> clean_end chars s = true.
Proof.
  unfold clean_end. induction s as [|a s IH]; [reflexivity|].
  rewrite free_of_cons. intros [Ha Hs]%andb_true_iff. cbn [last_char].
  specialize (IH Hs). destruct (last_char s); [exact IH|exact Ha].
Qed.

Lemma unlines_join l lines :
  unlines (l :: lines) = Py.join newline (l :: lines) +:+ newline.
Proof.
  revert l. induction lines as [|y lines IH]; intros l.
  - cbn [unlines]. change (Py.join newline [l]) with l.
    rewrite append_nil_r. reflexivity.
  - change (unlines (l :: y :: lines))
      with (l +:+ newline +:+ unlines (y :: lines)).
    rewrite IH, join_cons, !append_assoc. reflexivity.
Qed.

Lemma join_not_empty sep l lines : l <> "" -> Py.join sep (l :: lines) <> "".
Proof.
  intros Hne. destruct lines as [|y lines].
  - exact Hne.
  - rewrite join_cons. destruct l; [congruence|discriminate].
Qed.

Lemma is_word_spec s :
  is_word s = true -> s <> "" /\ free_of Py.whitespace s = true.
Proof.
  unfold is_word. intros [Hne Hf]%andb_true_iff. split; [|exact Hf].
  intros ->. discriminate Hne.
Qed.

Lemma join_clean_end lines :
  lines <> [] -> Forall (fun l => is_word l = true) lines ->
  clean_end Py.whitespace (Py.join newline lines) = true.
Proof.
  intros Hne H. induction H as [|l lines Hl Hrest IH]; [congruence|].
  apply is_word_spec in Hl as [Hl Hf].
  destruct lines as [|y lines].
  - apply free_of_clean_end, Hf.
  - rewrite join_cons, <- append_assoc, clean_end_app.
    + apply IH. discriminate.
    + apply join_not_empty. inversion Hrest as [|? ? Hy _]; subst.
      apply is_word_spec in Hy as [Hy _]. exact Hy.
Qed.

Lemma lstrip_word chars s t :
  s <> "" -> free_of chars s = true -> Py.lstrip chars (s +:+ t) = s +:+ t.
Proof.
  destruct s as [|a s]; [congruence|]. intros _.
  rewrite free_of_cons. intros [Ha _]%andb_true_iff.
  apply negb_true_iff in Ha.
  rewrite append_cons. cbn [Py.lstrip]. rewrite Ha. reflexivity.
Qed.

Lemma strip_unlines lines :
  lines <> [] -> Forall (fun l => is_word l = true) lines ->
  Py.strip Py.whitespace (unlines lines) = Py.join newline lines.
Proof.
  intros Hne H. destruct lines as [|l lines]; [congruence|].
  pose proof (join_clean_end _ Hne H) as Hc.
  rewrite unlines_join. unfold Py.strip.
  inversion H as [|? ? Hl _]; subst. apply is_word_spec in Hl as [Hl Hf].
  assert (E : Py.lstrip Py.whitespace (Py.join newline (l :: lines) +:+ newline)
              = Py.join newline (l :: lines) +:+ newline).
  { destruct lines as [|y lines].
    - change (Py.join newline [l]) with l. apply lstrip_word; assumption.
    - rewrite join_cons, !append_assoc. apply lstrip_word; assumption. }
  rewrite E, rstrip_app_junk by reflexivity.
  apply rstrip_clean, Hc.
Qed.

Lemma split_first_free c l rest :
  free_of (String c "") l = true ->
  split_first c (l +:+ String c rest) = Some (l, rest).
Proof.
  induction l as [|a l IH].
  - intros _. change (EmptyString +:+ String c rest) with (String c rest).
    cbn [split_first]. rewrite Ascii.eqb_refl. reflexivity.
  - rewrite free_of_cons, chr_in_single. intros [Ha Hl]%andb_true_iff.
    apply negb_true_iff in Ha. rewrite append_cons. cbn [split_first].
    rewrite Ha, (IH Hl). reflexivity.
Qed.

Lemma split_first_none c l :
  free_of (String c "") l = true -> split_first c l = None.
Proof.
  induction l as [|a l IH]; [reflexivity|].
  rewrite free_of_cons, chr_in_single. intros [Ha Hl]%andb_true_iff.
  apply negb_true_iff in Ha. cbn [split_first]. rewrite Ha, (IH Hl).
  reflexivity.
Qed.

(** [split] undoes [join] on pieces that do not hold the separator. *)
Lemma split_join c lines :
  lines <> [] -> Forall (fun l => free_of (String c "") l = true) lines ->
  Py.split (String c "") (Py.join (String c "") lines) = lines.
Proof.
  intros Hne H. induction H as [|l lines Hl Hrest IH]; [congruence|].
  destruct lines as [|y lines].
  - change (Py.join (String c "") [l]) with l.
    rewrite split_char, (split_first_none _ _ Hl). reflexivity.
  - rewrite join_cons.
    change (String c "" +:+ Py.join (String c "") (y :: lines))
      with (String c (Py.join (String c "") (y :: lines))).
    rewrite split_char, (split_first_free _ _ _ Hl), IH by discriminate.
    reflexivity.
Qed.

Lemma free_of_whitespace_newline s :
  free_of Py.whitespace s = true -> free_of newline s = true.
Proof.
  induction s as [|a s IH]; [reflexivity|].
  rewrite !free_of_cons. intros [Ha Hs]%andb_true_iff.
  rewrite (IH Hs), andb_true_r. unfold newline. rewrite chr_in_single.
  apply negb_true_iff in Ha. unfold Py.chr_in in Ha. simpl in Ha.
  apply orb_false_iff in Ha as [_ Ha]. apply orb_false_iff in Ha as [_ Ha].
  apply orb_false_iff in Ha as [Ha _]. rewrite Ha. reflexivity.
Qed.

Lemma split_not_nil c s : Py.split (String c "") s <> [].
Proof.
  intros H. pose proof (split_aux_length c s []) as Hl.
  unfold Py.split in H. rewrite H in Hl. discriminate Hl.
Qed.

(** ** Flow dumps *)

Section Flows.
Variable oracle : list call -> call -> result string * N.
Variable self : OVSBridge.

Lemma count_flows_eq w :
  let c := ofctl_call self "dump-flows" [] None in
  count_flows oracle self w
  = (match fst (oracle (trace w) c) with
     | Ok out => Some (Z.of_nat (count_char "010" out) - 1)
     | Raise _ => None
     end,
     after_call c (snd (oracle (trace w) c)) w).
Proof.
  intros c. unfold count_flows. rewrite run_ofctl_eq. cbv zeta. fold c.
  unfold after_call.
  destruct (fst (oracle (trace w) c)) as [out|e]; [|reflexivity].
  unfold Py.split, newline.
  pose proof (split_aux_length "010" out []) as H.
  destruct (Py.split_aux (String "010" "") 0 [] out) as [|x l];
    [discriminate H|].
  change (skipn 1 (x :: l)) with l. cbn [length] in H.
  injection H as ->. reflexivity.
Qed.

(** X12.  [count_flows] runs one [dump-flows] command.  When the command
    fails, [run_ofctl] has returned [None] and [count_flows] fails on it
    with [AttributeError] (the [None] of the model).  Otherwise the count
    is the number of line feeds of the output minus one: a header line
    followed by [n] flow lines, each ended by a line feed, counts [n], and
    an empty output counts [-1]. *)
Theorem count_flows_counts (w : world) :
  let c := ofctl_call self "dump-flows" [] None in
  snd (count_flows oracle self w)
  = after_call c (snd (oracle (trace w) c)) w
  /\ (forall e, fst (oracle (trace w) c) = Raise e ->
                fst (count_flows oracle self w) = None)
  /\ (forall out,
        fst (oracle (trace w) c) = Ok out ->
        fst (count_flows oracle self w)
        = Some (Z.of_nat (count_char "010" out) - 1))
  /\ (forall header flows,
        Forall (fun l => free_of newline l = true) (header :: flows) ->
        fst (oracle (trace w) c) = Ok (unlines (header :: flows)) ->
        fst (count_flows oracle self w) = Some (Z.of_nat (length flows)))
  /\ (fst (oracle (trace w) c) = Ok "" ->
      fst (count_flows oracle self w) = Some (-1)).
Proof.
  intros c. rewrite count_flows_eq. fold c. cbn [fst snd].
  split; [reflexivity|].
  split; [intros e ->; reflexivity|].
  split; [intros out ->; reflexivity|].
  split; [|intros ->; reflexivity].
  intros header flows Hfree ->.
  rewrite (count_char_unlines _ Hfree). cbn [length]. f_equal. lia.
Qed.
Lemma dump_flows_for_table_eq table w :
  let c := ofctl_call self "dump-flows" ["table=" +:+ str table] None in
  dump_flows_for_table oracle self table w
  = (Ok (match fst (oracle (trace w) c) with
         | Ok out =>
             if String.eqb out "" then None
             else Some (Py.join newline
                          (List.filter
                             (fun item => negb (str_contains "NXST" item))
                             (splitlines out)))
         | Raise _ => None
         end),
     after_call c (snd (oracle (trace w) c)) w).
Proof.
  intros c. unfold dump_flows_for_table, bind. rewrite run_ofctl_eq.
  cbv zeta. fold c. unfold after_call.
  destruct (fst (oracle (trace w) c)) as [out|e]; [|reflexivity].
  destruct out; reflexivity.
Qed.

(** X13.  [dump_flows_for_table] runs one [dump-flows] command and never
    raises.  It returns [None] exactly when the command failed or printed
    nothing.  The text it returns never holds [NXST]; for an output made
    of lines that a line feed ends, it is the lines without [NXST], in
    their order, joined by line feeds. *)
Theorem dump_flows_for_table_lines (table : pyval) (w : world) :
  let c := ofctl_call self "dump-flows" ["table=" +:+ str table] None in
  let res := dump_flows_for_table oracle self table w in
  snd res = after_call c (snd (oracle (trace w) c)) w
  /\ (forall e, fst res <> Raise e)
  /\ (fst res = Ok None
      <-> fst (oracle (trace w) c) = Ok ""
          \/ exists e, fst (oracle (trace w) c) = Raise e)
  /\ (forall text,
        fst res = Ok (Some text) -> str_contains "NXST" text = false)
  /\ (forall lines,
        lines <> [] ->
        Forall (fun l => free_of line_ends l = true) lines ->
        fst (oracle (trace w) c) = Ok (unlines lines) ->
        fst res
        = Ok (Some (Py.join newline
                      (List.filter
                         (fun l => negb (str_contains "NXST" l)) lines)))).
Proof.
  intros c res. subst res. rewrite dump_flows_for_table_eq. fold c.
  cbn [fst snd]. split; [reflexivity|]. split; [discriminate|].
  split; [|split].
  - destruct (fst (oracle (trace w) c)) as [out|e].
    + destruct (String.eqb_spec out "") as [->|Hne].
      * split; auto.
      * split; [discriminate|].
        intros [H|[e H]]; [congruence|discriminate H].
    + split; eauto.
  - intros text H.
    destruct (fst (oracle (trace w) c)) as [out|e]; [|discriminate H].
    destruct (String.eqb out ""); [discriminate H|].
    injection H as <-. unfold newline.
    rewrite str_contains_join by (reflexivity || discriminate).
    apply existsb_filter_negb.
  - intros lines Hne Hfree ->.
    destruct lines as [|l lines]; [congruence|].
    destruct (String.eqb_spec (unlines (l :: lines)) "") as [E|_].
    + destruct (unlines_not_empty _ _ E).
    + rewrite (splitlines_unlines _ Hfree). reflexivity.
Qed.
End Flows.

Lemma count_flows_counts_witness :
  fst (count_flows
         (Sample.prints (unlines ["NXST_FLOW reply (xid=0x4):";
                           " cookie=0x0, table=0, priority=1 actions=NORMAL";
                           " cookie=0x0, table=0, priority=2 actions=drop"]))
         Sample.br_int (Sample.world_of []))
  = Some 2.
Proof.
  refine (proj1 (proj2 (proj2 (proj2
            (count_flows_counts
               (Sample.prints (unlines
                          ["NXST_FLOW reply (xid=0x4):";
                           " cookie=0x0, table=0, priority=1 actions=NORMAL";
                           " cookie=0x0, table=0, priority=2 actions=drop"]))
               Sample.br_int (Sample.world_of [])))))
            "NXST_FLOW reply (xid=0x4):"
            [" cookie=0x0, table=0, priority=1 actions=NORMAL";
             " cookie=0x0, table=0, priority=2 actions=drop"] _ eq_refl).
  repeat (apply List.Forall_cons; [reflexivity|]). apply List.Forall_nil.
Defined.

Lemma dump_flows_for_table_lines_witness :
  fst (dump_flows_for_table
         (Sample.prints (unlines ["NXST_FLOW reply (xid=0x4):";
                           " cookie=0x0, table=3, actions=drop"]))
         Sample.br_int (PInt 3) (Sample.world_of []))
  = Ok (Some " cookie=0x0, table=3, actions=drop").
Proof.
  refine (proj2 (proj2 (proj2 (proj2
            (dump_flows_for_table_lines
               (Sample.prints (unlines ["NXST_FLOW reply (xid=0x4):";
                                 " cookie=0x0, table=3, actions=drop"]))
               Sample.br_int (PInt 3) (Sample.world_of [])))))
            ["NXST_FLOW reply (xid=0x4):";
             " cookie=0x0, table=3, actions=drop"] _ _ eq_refl).
  - discriminate.
  - repeat (apply List.Forall_cons; [reflexivity|]). apply List.Forall_nil.
Defined.

(** ** Reading the database *)

Section Reads.
Variable oracle : list call -> call -> result string * N.
Variable self : OVSBridge.

Lemma db_get_val_eq table record column check_error w :
  let c := vsctl_call self ["get"; table; record; column] in
  db_get_val oracle self table record column check_error w
  = (match fst (oracle (trace w) c) with
     | Ok out =>
         Ok (if String.eqb out "" then None
             else Some (Py.rstrip line_ends out))
     | Raise e => if check_error then Raise e else Ok None
     end,
     after_call c (snd (oracle (trace w) c)) w).
Proof.
  intros c. unfold db_get_val, bind. rewrite run_vsctl_eq. cbv zeta.
  fold c. unfold after_call.
  destruct (fst (oracle (trace w) c)) as [out|e].
  - destruct out; reflexivity.
  - destruct check_error; reflexivity.
Qed.

(** X14.  [db_get_val] runs one [get] command.  For an output that is not
    empty it returns the output without its trailing line feeds and
    carriage returns, and nothing else is removed: the value returned,
    followed by characters of these two kinds only, is the output, and
    the value does not end with one of them.  An output made of line ends
    only gives the empty string, not [None].  An empty output gives
    [None]; a failed command gives [None], or its exception under
    [check_error]. *)
Theorem db_get_val_strips (table record column : string)
        (check_error : bool) (w : world) :
  let c := vsctl_call self ["get"; table; record; column] in
  let res := db_get_val oracle self table record column check_error w in
  snd res = after_call c (snd (oracle (trace w) c)) w
  /\ (forall out,
        fst (oracle (trace w) c) = Ok out -> out <> "" ->
        exists v tail,
          fst res = Ok (Some v)
          /\ out = v +:+ tail
          /\ made_of line_ends tail = true
          /\ clean_end line_ends v = true)
  /\ (forall v tail,
        clean_end line_ends v = true -> made_of line_ends tail = true ->
        v +:+ tail <> "" ->
        fst (oracle (trace w) c) = Ok (v +:+ tail) ->
        fst res = Ok (Some v))
  /\ (fst (oracle (trace w) c) = Ok "" -> fst res = Ok None)
  /\ (forall e,
        fst (oracle (trace w) c) = Raise e ->
        fst res = if check_error then Raise e else Ok None).
Proof.
  intros c res. subst res. rewrite db_get_val_eq. fold c. cbn [fst snd].
  split; [reflexivity|]. split; [|split; [|split]].
  - intros out -> Hne.
    destruct (String.eqb_spec out "") as [E|_]; [contradiction|].
    destruct (rstrip_decompose line_ends out) as (tail & Hs & Ht & Hc).
    exists (Py.rstrip line_ends out), tail. auto.
  - intros v tail Hc Ht Hne ->.
    destruct (String.eqb_spec (v +:+ tail) "") as [E|_]; [contradiction|].
    rewrite (rstrip_app_junk _ _ _ Ht), (rstrip_clean _ _ Hc). reflexivity.
  - intros ->. reflexivity.
  - intros e ->. reflexivity.
Qed.

Lemma get_port_name_list_eq w :
  let c := vsctl_call self ["list-ports"; br_name self] in
  get_port_name_list oracle self w
  = (match fst (oracle (trace w) c) with
     | Ok out =>
         Ok (if String.eqb out "" then []
             else Py.split newline (Py.strip Py.whitespace out))
     | Raise e => Raise e
     end,
     after_call c (snd (oracle (trace w) c)) w).
Proof.
  intros c. unfold get_port_name_list, bind. rewrite run_vsctl_eq. cbv zeta.
  fold c. unfold after_call.
  destruct (fst (oracle (trace w) c)) as [out|e]; [|reflexivity].
  destruct out; reflexivity.
Qed.

(** X15.  [get_port_name_list] runs one [list-ports] command and lets its
    exception through.  For an output of names, one per line, each
    without white space, it returns the names in their order.  It
    returns the empty list exactly when the output is empty: an output of
    white space only gives one name, the empty string. *)
Theorem get_port_name_list_names (w : world) :
  let c := vsctl_call self ["list-ports"; br_name self] in
  let res := get_port_name_list oracle self w in
  snd res = after_call c (snd (oracle (trace w) c)) w
  /\ (forall e, fst (oracle (trace w) c) = Raise e -> fst res = Raise e)
  /\ (forall names,
        Forall (fun name => is_word name = true) names ->
        fst (oracle (trace w) c) = Ok (unlines names) ->
        fst res = Ok names)
  /\ (fst res = Ok [] <-> fst (oracle (trace w) c) = Ok "")
  /\ (forall out,
        out <> "" -> made_of Py.whitespace out = true ->
        fst (oracle (trace w) c) = Ok out ->
        fst res = Ok [""]).
Proof.
  intros c res. subst res. rewrite get_port_name_list_eq. fold c.
  cbn [fst snd]. split; [reflexivity|].
  split; [intros e ->; reflexivity|]. split; [|split].
  - intros names Hw ->. destruct names as [|n names]; [reflexivity|].
    destruct (String.eqb_spec (unlines (n :: names)) "") as [E|_];
      [destruct (unlines_not_empty _ _ E)|].
    rewrite strip_unlines by (discriminate || exact Hw).
    unfold newline. rewrite split_join; [reflexivity|discriminate|].
    eapply List.Forall_impl; [|exact Hw]. intros s Hs. cbv beta in Hs.
    apply is_word_spec in Hs as [_ Hs].
    apply free_of_whitespace_newline, Hs.
  - destruct (fst (oracle (trace w) c)) as [out|e].
    + destruct (String.eqb_spec out "") as [->|Hne].
      * split; reflexivity.
      * split; [|congruence]. intros H. injection H as H.
        destruct (split_not_nil _ _ H).
    + split; discriminate.
  - intros out Hne Hws ->.
    destruct (String.eqb_spec out "") as [E|_]; [contradiction|].
    unfold Py.strip. rewrite (lstrip_junk _ _ Hws). reflexivity.
Qed.

Lemma db_get_map_eq table record column check_error w :
  let c := vsctl_call self ["get"; table; record; column] in
  db_get_map oracle self table record column check_error w
  = (match fst (oracle (trace w) c) with
     | Ok out =>
         if String.eqb out "" then Ok ∅
         else db_str_to_map (Py.rstrip line_ends out)
     | Raise e => if check_error then Raise e else Ok ∅
     end,
     after_call c (snd (oracle (trace w) c)) w).
Proof.
  intros c. unfold db_get_map, bind. rewrite run_vsctl_eq. cbv zeta.
  fold c. unfold after_call.
  destruct (fst (oracle (trace w) c)) as [out|e].
  - destruct out; reflexivity.
  - destruct check_error; reflexivity.
Qed.

(** X16.  [db_get_map] runs one [get] command.  Its only exceptions are
    those of the command under [check_error]: whatever the command
    prints, the decoding does not raise.  An empty output and, without
    [check_error], a failed command give the empty map.  The trailing
    line ends of the output do not reach the decoder. *)
Theorem db_get_map_errors (table record column : string)
        (check_error : bool) (w : world) :
  let c := vsctl_call self ["get"; table; record; column] in
  let res := db_get_map oracle self table record column check_error w in
  snd res = after_call c (snd (oracle (trace w) c)) w
  /\ (forall out,
        fst (oracle (trace w) c) = Ok out -> exists m, fst res = Ok m)
  /\ (fst (oracle (trace w) c) = Ok "" -> fst res = Ok ∅)
  /\ (forall e,
        fst (oracle (trace w) c) = Raise e ->
        fst res = if check_error then Raise e else Ok ∅)
  /\ (forall v tail,
        clean_end line_ends v = true -> made_of line_ends tail = true ->
        v <> "" ->
        fst (oracle (trace w) c) = Ok (v +:+ tail) ->
        fst res = db_str_to_map v).
Proof.
  intros c res. subst res. rewrite db_get_map_eq. fold c. cbn [fst snd].
  split; [reflexivity|]. split; [|split; [|split]].
  - intros out ->. destruct (String.eqb out ""); [eauto|].
    unfold db_str_to_map. rewrite db_str_to_map_loop_eq. eauto.
  - intros ->. reflexivity.
  - intros e ->. reflexivity.
  - intros v tail Hc Ht Hne ->.
    destruct (String.eqb_spec (v +:+ tail) "") as [E|_].
    + destruct v; [congruence|discriminate E].
    + rewrite (rstrip_app_junk _ _ _ Ht), (rstrip_clean _ _ Hc). reflexivity.
Qed.

Lemma not_pending_literal v :
  _ofport_result_pending v = false ->
  exists s n, v = Some s /\ Py.int_of_str s = Some n.
Proof.
  unfold _ofport_result_pending. destruct v as [s|]; [|discriminate].
  destruct (Py.int_of_str s) as [n|] eqn:E; [|discriminate].
  intros _. exists s, n. split; [reflexivity | exact E].
Qed.

(** X17.  [get_port_ofport] and [add_port] always return, never raise and
    never return [None]: what they return is a string that [int]
    accepts, the ofport the database printed or [INVALID_OFPORT].
    Neither touches the flow dictionaries.  The retry loop is the model
    of the [retrying] library that [retry_call] gives. *)
Theorem ofport_is_integer (port_name : string)
        (interface_options : list (string * pyval)) (w : world) :
  (exists s n w',
      get_port_ofport oracle self port_name w = Some (Ok (Some s), w')
      /\ Py.int_of_str s = Some n
      /\ store w' = store w)
  /\ (exists s n w',
        add_port oracle self port_name interface_options w
        = Some (Ok (Some s), w')
        /\ Py.int_of_str s = Some n
        /\ store w' = store w).
Proof.
  split.
  - destruct (get_port_ofport_returns oracle self port_name w)
      as (v & w' & E & _ & Hs & Hp & _).
    apply not_pending_literal in Hp as (s & n & -> & Hn). eauto 10.
  - unfold add_port. rewrite run_vsctl_eq. cbv zeta.
    set (c := vsctl_call self _).
    set (w1 := {| trace := trace w ++ [c]; now := _; store := store w |}).
    destruct (get_port_ofport_returns oracle self port_name w1)
      as (v & w' & E & _ & Hs & Hp & _).
    apply not_pending_literal in Hp as (s & n & -> & Hn).
    assert (Hgoal :
              exists s0 n0 w0,
                match get_port_ofport oracle self port_name w1 with
                | Some (Ok ofport, w2) =>
                    if is_invalid_ofport ofport
                    then match delete_port oracle self port_name w2 with
                         | (Ok _, w3) => Some (Ok ofport, w3)
                         | (Raise e, w3) => Some (Raise e, w3)
                         end
                    else Some (Ok ofport, w2)
                | Some (Raise e, w2) => Some (Raise e, w2)
                | None => None
                end = Some (Ok (Some s0), w0)
                /\ Py.int_of_str s0 = Some n0 /\ store w0 = store w).
    { rewrite E. destruct (is_invalid_ofport (Some s)).
      - rewrite delete_port_eq. exists s, n. eexists.
        split; [reflexivity|]. split; [exact Hn|]. exact Hs.
      - exists s, n, w'. auto. }
    destruct (fst (oracle (trace w) c)); exact Hgoal.
Qed.

End Reads.

Lemma db_get_val_strips_witness :
  fst (db_get_val (Sample.prints ("5" +:+ newline)) Sample.br_int
                  "Interface" "tap0" "ofport" false (Sample.world_of []))
  = Ok (Some "5").
Proof.
  refine (proj1 (proj2 (proj2
            (db_get_val_strips (Sample.prints ("5" +:+ newline)) Sample.br_int
               "Interface" "tap0" "ofport" false (Sample.world_of []))))
            "5" newline eq_refl eq_refl _ eq_refl).
  discriminate.
Defined.

Lemma get_port_name_list_names_witness :
  fst (get_port_name_list
         (Sample.prints (unlines ["tap0"; "qvo1"; "patch-tun"]))
         Sample.br_int (Sample.world_of []))
  = Ok ["tap0"; "qvo1"; "patch-tun"].
Proof.
  refine (proj1 (proj2 (proj2
            (get_port_name_list_names
               (Sample.prints (unlines ["tap0"; "qvo1"; "patch-tun"]))
               Sample.br_int (Sample.world_of []))))
            ["tap0"; "qvo1"; "patch-tun"] _ eq_refl).
  repeat (apply List.Forall_cons; [reflexivity|]). apply List.Forall_nil.
Defined.

Lemma db_get_map_errors_witness :
  fst (db_get_map (Sample.prints ("{rx_bytes=12, rx_errors=0}" +:+ newline))
                  Sample.br_int "Interface" "tap0" "statistics" false
                  (Sample.world_of []))
  = db_str_to_map "{rx_bytes=12, rx_errors=0}".
Proof.
  refine (proj2 (proj2 (proj2 (proj2
            (db_get_map_errors
               (Sample.prints ("{rx_bytes=12, rx_errors=0}" +:+ newline))
               Sample.br_int "Interface" "tap0" "statistics" false
               (Sample.world_of [])))))
            "{rx_bytes=12, rx_errors=0}" newline eq_refl eq_refl _ eq_refl).
  discriminate.
Defined.

(** ** The bridges of the host *)

Section Bridges.
Variable oracle : list call -> call -> result string * N.
Variable conf_timeout : Z.

Lemma get_bridges_eq root_helper w :
  let c := list_br_call conf_timeout root_helper in
  get_bridges oracle conf_timeout root_helper w
  = (match fst (oracle (trace w) c) with
     | Ok out => Ok (Py.split newline (Py.strip Py.whitespace out))
     | Raise e => Raise e
     end,
     after_call c (snd (oracle (trace w) c)) w).
Proof.
  intros c. unfold get_bridges, bind.
  fold (list_br_call conf_timeout root_helper).
  fold c. rewrite execute_eq. unfold after_call.
  destruct (fst (oracle (trace w) c)); reflexivity.
Qed.

(** X18.  [get_bridges] runs one [list-br] command and lets its exception
    through.  For an output of names, one per line, each without white
    space, it returns the names in their order.  It never returns the
    empty list: an output that is empty or made of white space gives one
    name, the empty string. *)
Theorem get_bridges_names (root_helper : string) (w : world) :
  let c := list_br_call conf_timeout root_helper in
  let res := get_bridges oracle conf_timeout root_helper w in
  snd res = after_call c (snd (oracle (trace w) c)) w
  /\ (forall e, fst (oracle (trace w) c) = Raise e -> fst res = Raise e)
  /\ (forall names,
        names <> [] ->
        Forall (fun name => is_word name = true) names ->
        fst (oracle (trace w) c) = Ok (unlines names) ->
        fst res = Ok names)
  /\ (forall out,
        made_of Py.whitespace out = true ->
        fst (oracle (trace w) c) = Ok out ->
        fst res = Ok [""])
  /\ fst res <> Ok [].
Proof.
  intros c res. subst res. rewrite get_bridges_eq. fold c. cbn [fst snd].
  split; [reflexivity|]. split; [intros e ->; reflexivity|].
  split; [|split].
  - intros names Hne Hw ->.
    rewrite strip_unlines by assumption.
    unfold newline. rewrite split_join; [reflexivity|exact Hne|].
    eapply List.Forall_impl; [|exact Hw]. intros s Hs. cbv beta in Hs.
    apply is_word_spec in Hs as [_ Hs].
    apply free_of_whitespace_newline, Hs.
  - intros out Hws ->. unfold Py.strip. rewrite (lstrip_junk _ _ Hws).
    reflexivity.
  - destruct (fst (oracle (trace w) c)) as [out|e]; [|discriminate].
    intros H. injection H as H. destruct (split_not_nil _ _ H).
Qed.

End Bridges.

Lemma get_bridges_names_witness :
  fst (get_bridges (Sample.prints (unlines ["br-int"; "br-tun"])) 10 "sudo"
                   (Sample.world_of []))
  = Ok ["br-int"; "br-tun"].
Proof.
  refine (proj1 (proj2 (proj2
            (get_bridges_names (Sample.prints (unlines ["br-int"; "br-tun"])) 10
               "sudo" (Sample.world_of []))))
            ["br-int"; "br-tun"] _ _ eq_refl).
  - discriminate.
  - repeat (apply List.Forall_cons; [reflexivity|]). apply List.Forall_nil.
Defined.

(** ** One buffered operation *)

Section Single.
Variable oracle : list call -> call -> result string * N.

Lemma direct_call_eq br op w :
  direct_call oracle br op w
  = do_action_flows oracle br (op_action op) [length (store w)]
                    (set_store (store w ++ [op_kwargs op]) w).
Proof. destruct op; reflexivity. Qed.

Lemma submit_eq op self w :
  submit op self w
  = (Ok tt,
     set_action_flow_tuples
       (action_flow_tuples self ++ [(op_action op, length (store w))]) self,
     set_store (store w ++ [op_kwargs op]) w).
Proof. destruct op; reflexivity. Qed.

(** X19.  One operation buffered in a deferred bridge whose buffer was
    empty, then [apply_flows], is the call of the method of the wrapped
    bridge with the same keyword arguments: the same outcome, the same
    commands, the same dictionaries; and the buffer is empty again.  This
    holds with [full_ordered], and without it when the action has a
    weight. *)
Theorem deferred_single_is_direct (self : DeferredOVSBridge)
        (op : flow_op) (w : world) :
  action_flow_tuples self = [] ->
  full_ordered self = true \/ is_Some (weights self !! op_action op) ->
  let '(_, self1, w1) := submit op self w in
  apply_flows oracle self1 w1
  = (fst (direct_call oracle (br self) op w),
     self,
     snd (direct_call oracle (br self) op w)).
Proof.
  intros Hb Hk. rewrite submit_eq, direct_call_eq.
  destruct self as [b fo o wt buf]. cbn in Hb, Hk. subst buf.
  unfold set_action_flow_tuples, apply_flows.
  cbn [action_flow_tuples set_action_flow_tuples full_ordered weights br app].
  set (r := length (store w)).
  set (w1 := set_store (store w ++ [op_kwargs op]) w).
  assert (Hs : (if negb fo
                then sort_by_weight wt [(op_action op, r)]
                else Ok [(op_action op, r)])
               = Ok [(op_action op, r)]).
  { destruct fo; [reflexivity|].
    destruct Hk as [Hk|[n Hn]]; [discriminate Hk|].
    unfold sort_by_weight. cbn [sort_keys]. unfold sort_key. cbn [fst].
    rewrite Hn. reflexivity. }
  rewrite Hs. cbn [groupby fst]. unfold apply_groups. cbn [for_each].
  unfold bind. cbn [List.map snd].
  destruct (do_action_flows oracle b (op_action op) [r] w1)
    as [[[]|e] w2]; reflexivity.
Qed.

End Single.

Lemma deferred_single_is_direct_witness :
  apply_flows Sample.quiet
    (set_action_flow_tuples [("mod", 0%nat)] (deferred Sample.br_int))
    (Sample.world_of [[("in_port", PInt 1); ("actions", PStr "drop")]])
  = (fst (direct_call Sample.quiet Sample.br_int
            (ModFlow [("in_port", PInt 1); ("actions", PStr "drop")])
            (Sample.world_of [])),
     deferred Sample.br_int,
     snd (direct_call Sample.quiet Sample.br_int
            (ModFlow [("in_port", PInt 1); ("actions", PStr "drop")])
            (Sample.world_of []))).
Proof.
  exact (deferred_single_is_direct Sample.quiet (deferred Sample.br_int)
           (ModFlow [("in_port", PInt 1); ("actions", PStr "drop")])
           (Sample.world_of []) eq_refl
           (or_intror (ex_intro _ 1%nat eq_refl))).
Defined.

(** ** A flush that fails *)

Lemma render_all_fails cmd l kw :
  forall w,
    NoDup l -> In kw l -> renders cmd (deref w kw) = false ->
    exists e, fst (map_m (build_flow_expr_at cmd) l w) = Raise e.
Proof.
  induction l as [|x l IH]; intros w Hnd Hin Hbad; [destruct Hin|].
  apply NoDup_cons in Hnd as [Hx Hnd].
  rewrite render_all_cons.
  pose proof (deref_build_at cmd x w kw) as Hd.
  rewrite build_at_eq in Hd |- *. simpl in Hd.
  destruct (fst (_build_flow_expr_str (deref w x) cmd)) as [s|e] eqn:E;
    [|simpl; eauto].
  destruct Hin as [->|Hin].
  { unfold renders in Hbad. rewrite E in Hbad. discriminate Hbad. }
  destruct (decide (kw = x)) as [->|Hne].
  { destruct Hx. apply list_elem_of_In, Hin. }
  set (w1 := set_store _ w) in *.
  rewrite <- Hd in Hbad. destruct (IH w1 Hnd Hin Hbad) as [e He].
  destruct (map_m (build_flow_expr_at cmd) l w1) as [[ss|e'] w2];
    simpl in *; [discriminate|eauto].
Qed.

Lemma renders_all cmd l w :
  Forall (fun r => renders cmd (deref w r) = true) l ->
  exists ss,
    Forall2 (fun r s => fst (_build_flow_expr_str (deref w r) cmd) = Ok s)
            l ss.
Proof.
  induction 1 as [|r l Hr _ [ss IH]]; [exists []; constructor|].
  unfold renders in Hr.
  destruct (fst (_build_flow_expr_str (deref w r) cmd)) as [s|e] eqn:E;
    [|discriminate].
  exists (s :: ss). constructor; assumption.
Qed.

Section Stops.
Variable oracle : list call -> call -> result string * N.

Lemma do_action_flows_ok br action l w :
  NoDup l ->
  Forall (fun r => renders action (deref w r) = true) l ->
  exists c w',
    do_action_flows oracle br action l w = (Ok tt, w')
    /\ trace w' = trace w ++ [c]
    /\ argv c = batch_argv br action
    /\ forall r, ~ In r l -> deref w' r = deref w r.
Proof.
  intros Hnd Hok. destruct (renders_all _ _ _ Hok) as [ss Hss].
  destruct (render_all_distinct action l ss w Hnd Hss) as [Hr Hd].
  pose proof (render_all_trace action l w) as [Ht _].
  rewrite do_action_flows_eq.
  destruct (map_m (build_flow_expr_at action) l w) as [[ss'|e] w1];
    simpl in Hr, Hd, Ht; [|discriminate].
  cbv zeta. eexists. eexists. split; [reflexivity|].
  cbn [trace]. rewrite Ht. split; [reflexivity|]. split; [reflexivity|].
  intros r Hr'. unfold deref at 1. cbn [store]. fold (deref w1 r).
  rewrite Hd, bool_decide_eq_false_2; [reflexivity|].
  intros H. apply Hr', list_elem_of_In, H.
Qed.

(** The loop over the groups stops at the first group that holds a rule
    that does not render: the groups before it have been sent, that group
    and the groups after it have not. *)
Lemma apply_groups_stops br k grp gs2 gs1 :
  forall w,
    NoDup (concat (List.map group_refs gs1) ++ group_refs (k, grp)) ->
    (forall g r, In g gs1 -> In r (group_refs g) ->
                 renders (fst g) (deref w r) = true) ->
    (exists r, In r (group_refs (k, grp))
               /\ renders k (deref w r) = false) ->
    exists e cmds,
      fst (apply_groups oracle br (gs1 ++ (k, grp) :: gs2) w) = Raise e
      /\ trace (snd (apply_groups oracle br (gs1 ++ (k, grp) :: gs2) w))
         = trace w ++ cmds
      /\ List.map argv cmds
         = List.map (fun g => batch_argv br (fst g)) gs1.
Proof.
  induction gs1 as [|[a l] gs1 IH]; intros w Hnd Hok (r & Hin & Hbad).
  - cbn [app]. rewrite apply_groups_cons, do_action_flows_eq.
    cbn [List.map concat app] in Hnd.
    destruct (render_all_fails k _ r w Hnd Hin Hbad) as [e He].
    pose proof (render_all_trace k (List.map snd grp) w) as [Ht _].
    unfold group_refs in *. cbn [snd] in *.
    destruct (map_m (build_flow_expr_at k) (List.map snd grp) w)
      as [[ss|e'] w1]; simpl in *; [discriminate|].
    exists e', []. rewrite app_nil_r. auto.
  - cbn [app]. rewrite apply_groups_cons.
    cbn [List.map concat] in Hnd. rewrite <- app_assoc in Hnd.
    apply NoDup_app in Hnd as (Hl & Hdis & Hrest).
    change (group_refs (a, l)) with (List.map snd l) in Hl, Hdis.
    destruct (do_action_flows_ok br a (List.map snd l) w Hl) as
      (c & w' & E & Ht & Hc & Hd).
    { apply List.Forall_forall. intros x Hx.
      apply (Hok (a, l) x); [left; reflexivity | exact Hx]. }
    rewrite E.
    assert (Hsame : forall x,
               In x (concat (List.map group_refs gs1) ++ group_refs (k, grp))
               -> deref w' x = deref w x).
    { intros x Hx. apply Hd. intros Hxl.
      apply (Hdis x); apply list_elem_of_In; assumption. }
    destruct (IH w' Hrest) as (e & cmds & He & Htr & Hm).
    + intros g x Hg Hx. rewrite Hsame.
      * apply (Hok g x); [right; exact Hg | exact Hx].
      * apply in_or_app. left. apply in_concat.
        exists (group_refs g). split; [apply in_map, Hg | exact Hx].
    + exists r. split; [exact Hin|]. rewrite Hsame; [exact Hbad|].
      apply in_or_app. right. exact Hin.
    + exists e, (c :: cmds). split; [exact He|]. split.
      * rewrite Htr, Ht, <- app_assoc. reflexivity.
      * cbn [List.map fst]. rewrite Hc, Hm. reflexivity.
Qed.

Lemma map_snd_combine {A B} (l1 : list A) (l2 : list B) :
  length l1 = length l2 -> List.map snd (combine l1 l2) = l2.
Proof.
  revert l2. induction l1 as [|a l1 IH]; intros [|b l2] H;
    try discriminate; [reflexivity|].
  simpl. f_equal. apply IH. simpl in H. lia.
Qed.

Lemma kind_groups_refs b :
  Forall known_kind b ->
  NoDup (List.map snd b) ->
  NoDup (concat (List.map group_refs (kind_groups b))).
Proof.
  intros Hk Hnd.
  pose proof (default_groups b Hk) as Hg.
  destruct (sort_by_weight_spec (weights_of default_order) b)
    as (sorted & Hs & Hperm & _).
  { eapply List.Forall_impl; [|exact Hk]. intros af Haf.
    pose proof (default_weights af Haf) as Hw. unfold sort_key in Hw.
    destruct (weights_of default_order !! fst af); [eauto|discriminate]. }
  rewrite Hs in Hg. rewrite <- Hg.
  assert (E : concat (List.map group_refs (groupby sorted))
              = List.map snd sorted).
  { unfold group_refs. rewrite <- (groupby_concat sorted) at 2.
    rewrite concat_map, List.map_map. reflexivity. }
  rewrite E.
  assert (Hp : Permutation (List.map snd sorted) (List.map snd b))
    by apply Permutation_map, Hperm.
  rewrite Hp. exact Hnd.
Qed.

(** X20.  [apply_flows] is not atomic.  Under the default policy, when
    the rules of the groups before some group all render and that group
    holds a rule that does not, [apply_flows] raises; the batches of the
    groups before it have been sent, one command each and in their order;
    no command is run for that group or for the groups after it; and the
    buffer is empty, so the operations that were not sent are lost. *)
Theorem apply_flows_stops_at_failure (br0 : OVSBridge) (ops : list flow_op)
        (w : world) (gs1 gs2 : list (string * list (string * ref)))
        (k : string) (grp : list (string * ref)) :
  let self := snd (fst (submit_all ops (deferred br0) w)) in
  let w1 := snd (submit_all ops (deferred br0) w) in
  kind_groups (action_flow_tuples self) = gs1 ++ (k, grp) :: gs2 ->
  (forall g af, In g gs1 -> In af (snd g) ->
                renders (fst g) (deref w1 (snd af)) = true) ->
  (exists af, In af grp /\ renders k (deref w1 (snd af)) = false) ->
  exists e cmds,
    fst (fst (apply_flows oracle self w1)) = Raise e
    /\ action_flow_tuples (snd (fst (apply_flows oracle self w1))) = []
    /\ trace (snd (apply_flows oracle self w1)) = trace w ++ cmds
    /\ List.map argv cmds = List.map (fun g => batch_argv br0 (fst g)) gs1.
Proof.
  cbn zeta.
  destruct (submit_all_spec ops (deferred br0) w)
    as (_ & Hbr & Hf & Hw & Hb & _ & Ht).
  cbn zeta in *. simpl in Hbr, Hf, Hw, Hb.
  set (self := snd (fst (submit_all ops (deferred br0) w))) in *.
  set (w1 := snd (submit_all ops (deferred br0) w)) in *.
  intros Hgs Hok (af & Haf & Hbad).
  assert (Hk : Forall known_kind (action_flow_tuples self))
    by (rewrite Hb; apply known_kind_combine).
  assert (Hnd : NoDup (List.map snd (action_flow_tuples self))).
  { rewrite Hb, map_snd_combine; [apply NoDup_seq|].
    rewrite length_map, length_seq. reflexivity. }
  pose proof (kind_groups_refs _ Hk Hnd) as Hrefs. rewrite Hgs in Hrefs.
  rewrite List.map_app, concat_app in Hrefs. cbn [List.map concat] in Hrefs.
  rewrite app_assoc in Hrefs. apply NoDup_app in Hrefs as (Hrefs & _ & _).
  rewrite (apply_flows_default oracle self w1 Hf Hw Hk), Hbr, Hgs.
  cbn [fst snd action_flow_tuples set_action_flow_tuples].
  destruct (apply_groups_stops br0 k grp gs2 gs1 w1 Hrefs)
    as (e & cmds & He & Htr & Hm).
  - intros g r Hg Hr. unfold group_refs in Hr.
    apply in_map_iff in Hr as (af' & <- & Hin). apply (Hok g af' Hg Hin).
  - exists (snd af). split; [|exact Hbad].
    unfold group_refs. cbn [snd]. apply in_map, Haf.
  - exists e, cmds. rewrite He, Htr, Ht. auto.
Qed.

End Stops.

Lemma apply_flows_stops_at_failure_witness :
  let ops := [DeleteFlows [("in_port", PInt 2)];
              ModFlow [("in_port", PInt 1)];
              AddFlow [("actions", PStr "normal")]] in
  let self := snd (fst (submit_all ops (deferred Sample.br_int)
                                   (Sample.world_of []))) in
  let w1 := snd (submit_all ops (deferred Sample.br_int)
                            (Sample.world_of [])) in
  exists e cmds,
    fst (fst (apply_flows Sample.quiet self w1)) = Raise e
    /\ action_flow_tuples (snd (fst (apply_flows Sample.quiet self w1))) = []
    /\ trace (snd (apply_flows Sample.quiet self w1))
       = trace (Sample.world_of []) ++ cmds
    /\ List.map argv cmds
       = List.map (fun g => batch_argv Sample.br_int (fst g))
                  [("add", [("add", 2%nat)])].
Proof.
  refine (apply_flows_stops_at_failure Sample.quiet Sample.br_int
            [DeleteFlows [("in_port", PInt 2)];
             ModFlow [("in_port", PInt 1)];
             AddFlow [("actions", PStr "normal")]]
            (Sample.world_of [])
            [("add", [("add", 2%nat)])] [("del", [("del", 0%nat)])]
            "mod" [("mod", 1%nat)] eq_refl _ _).
  - intros g af [<-|[]] [<-|[]]. reflexivity.
  - exists ("mod", 1%nat). split; [left; reflexivity | reflexivity].
Defined.

(** ** The weights of the actions *)

Lemma weights_fold_absent (a : string) l :
  forall n (d : gmap string nat),
    ~ In a l ->
    fold_left (fun d xy => <[snd xy := fst xy]> d) (enumerate_from n l) d !! a
    = d !! a.
Proof.
  induction l as [|y l IH]; intros n d Hin; [reflexivity|].
  cbn [enumerate_from fold_left fst snd].
  rewrite IH by (intros H; apply Hin; right; exact H).
  apply lookup_insert_ne. intros ->. apply Hin. left. reflexivity.
Qed.

Lemma weights_fold_last (a : string) l :
  forall n (d : gmap string nat) i,
    l !! i = Some a ->
    (forall j, (i < j)%nat -> l !! j <> Some a) ->
    fold_left (fun d xy => <[snd xy := fst xy]> d) (enumerate_from n l) d !! a
    = Some (n + i)%nat.
Proof.
  induction l as [|y l IH]; intros n d i Hi Hlast; [discriminate Hi|].
  cbn [enumerate_from fold_left fst snd].
  destruct i as [|i].
  - injection Hi as ->. rewrite weights_fold_absent.
    + rewrite lookup_insert_eq, Nat.add_0_r. reflexivity.
    + intros Hin. apply list_elem_of_In, list_elem_of_lookup in Hin as [j Hj].
      apply (Hlast (S j)); [lia | exact Hj].
  - rewrite (IH (S n) _ i Hi).
    + f_equal. lia.
    + intros j Hj. apply (Hlast (S j)). lia.
Qed.

(** X21.  The constructor, without [full_ordered], gives every action of
    [order] its position as its weight, the last position when the action
    occurs more than once, and gives no weight to an action that is not
    in [order]. *)
Theorem weights_of_position (br0 : OVSBridge) (order : list string)
        (a : string) :
  let self := DeferredOVSBridge_init br0 false order in
  (~ In a order -> weights self !! a = None)
  /\ (forall i,
        order !! i = Some a ->
        (forall j, (i < j)%nat -> order !! j <> Some a) ->
        weights self !! a = Some i)
  /\ (NoDup order ->
      forall i, order !! i = Some a -> weights self !! a = Some i).
Proof.
  cbn zeta. cbn [DeferredOVSBridge_init weights]. unfold weights_of.
  split; [|split].
  - intros Hin. rewrite weights_fold_absent by exact Hin. apply lookup_empty.
  - intros i Hi Hlast. rewrite (weights_fold_last a order 0 _ i Hi Hlast).
    reflexivity.
  - intros Hnd i Hi. rewrite (weights_fold_last a order 0 _ i Hi);
      [reflexivity|].
    intros j Hj Hj'.
    pose proof (NoDup_lookup order i j a Hnd Hi Hj'). lia.
Qed.

Lemma weights_of_position_witness :
  weights (DeferredOVSBridge_init Sample.br_int false ["del"; "add"; "del"])
  !! "del" = Some 2%nat.
Proof.
  refine (proj1 (proj2 (weights_of_position Sample.br_int
                          ["del"; "add"; "del"] "del")) 2%nat eq_refl _).
  intros j Hj H. apply lookup_lt_Some in H. simpl in H. lia.
Defined.
